(** * The TEMdb fake-data generator

    A shallow embedding of [scripts/generate_fake_data.py] and the
    properties of its hierarchy walk: ROI batching, tile raster geometry,
    focus-score clamping, jittered ROIs, the final summary, error handling
    and the causal ordering of parent references.

    The generator talks to three things it does not own: the TEMdb client,
    Python's [random] module and the wall clock.  They are interfaces here
    ([Client], [Host]); a run is a function of their states that returns
    an outcome together with the events it emitted, in order. *)

From Stdlib Require Import ZArith List String Ascii Bool Lia SpecFloat.
From Stdlib Require Import Decimal DecimalString.
From Stdlib Require DecimalPos.
Import ListNotations.
Local Open Scope string_scope.
Local Open Scope list_scope.
Local Open Scope Z_scope.

Notation "s +++ t" := (String.append s t) (at level 60, right associativity).

(** ** Python floats: IEEE 754 binary64 *)

Module F64.
Definition prec : Z := 53.
Definition emax : Z := 1024.

Definition add := SFadd prec emax.
Definition sub := SFsub prec emax.
Definition mul := SFmul prec emax.
Definition div := SFdiv prec emax.
Definition ltb := SFltb.
Definition leb := SFleb.

(** Conversion of an integer, rounded to nearest even. *)
Definition of_Z (z : Z) : spec_float := binary_normalize prec emax z 0 false.

(** The float a decimal literal [m]e-[k] denotes when [m] and [10^k] are
    below [2^53]: the correctly rounded quotient of two exact floats. *)
Definition decimal (m : Z) (k : Z) : spec_float := div (of_Z m) (of_Z (10 ^ k)).

Definition is_zero (x : spec_float) : bool :=
  match x with S754_zero _ => true | _ => false end.

Definition is_finite (x : spec_float) : bool :=
  match x with S754_zero _ | S754_finite _ _ _ => true | _ => false end.

(** [m * 2^e] rounded down to an integer. *)
Definition scale_down (m : Z) (e : Z) : Z :=
  match e with
  | Z0 => m
  | Zpos _ => m * 2 ^ e
  | Zneg p => m / 2 ^ Zpos p
  end.

(** Integer part, towards zero; [None] on infinities and NaN. *)
Definition trunc (x : spec_float) : option Z :=
  match x with
  | S754_zero _ => Some 0
  | S754_finite s m e => Some (cond_Zopp s (scale_down (Zpos m) e))
  | _ => None
  end.

End F64.

(** ** Python values, exceptions and results *)

#[local] Set Warnings "-register-all".
Inductive value : Type :=
| VNone
| VBool (b : bool)
| VInt (z : Z)
| VFloat (f : spec_float)
| VStr (s : string)
| VList (l : list value)
| VDict (d : list (string * value)).

(** A dict literal with string keys, in insertion order. *)
Definition record := list (string * value).

Inductive exn : Type :=
| TEMdbClientError (msg : string)
| NotFoundError (msg : string)
| KeyError (key : string)
| TypeError
| ValueError
| OverflowError
| ZeroDivisionError
| OtherError (name : string).

Inductive result (A : Type) : Type :=
| Ok (a : A)
| Raise (e : exn).
Arguments Ok {A} a.
Arguments Raise {A} e.

Definition is_ok {A} (r : result A) : bool :=
  match r with Ok _ => true | Raise _ => false end.

Fixpoint lookup (k : string) (d : record) : option value :=
  match d with
  | [] => None
  | (k', v) :: d' => if String.eqb k k' then Some v else lookup k d'
  end.

(** [v[k]] *)
Definition getitem (v : value) (k : string) : result value :=
  match v with
  | VDict d => match lookup k d with Some x => Ok x | None => Raise (KeyError k) end
  | _ => Raise TypeError
  end.

(** ** Arithmetic as Python evaluates it *)

(** [float(z)] as done implicitly in mixed int/float arithmetic. *)
Definition float_of_int (z : Z) : result spec_float :=
  match F64.of_Z z with
  | S754_infinity _ => Raise OverflowError
  | f => Ok f
  end.

Definition result_bind {A B} (r : result A) (k : A -> result B) : result B :=
  match r with Ok a => k a | Raise e => Raise e end.

Definition int_sub_float (z : Z) (f : spec_float) : result spec_float :=
  result_bind (float_of_int z) (fun x => Ok (F64.sub x f)).

Definition int_mul_float (z : Z) (f : spec_float) : result spec_float :=
  result_bind (float_of_int z) (fun x => Ok (F64.mul x f)).

Definition int_add_float (z : Z) (f : spec_float) : result spec_float :=
  result_bind (float_of_int z) (fun x => Ok (F64.add x f)).

Definition int_div_float (z : Z) (f : spec_float) : result spec_float :=
  result_bind (float_of_int z) (fun x =>
    if F64.is_zero f then Raise ZeroDivisionError else Ok (F64.div x f)).

(** [x ** 2]; the square is taken as the correctly rounded product. *)
Definition float_sqr (x : spec_float) : result spec_float :=
  let y := F64.mul x x in
  if F64.is_finite x && negb (F64.is_finite y) then Raise OverflowError else Ok y.

(** [int(x)] *)
Definition py_int (x : spec_float) : result Z :=
  match x with
  | S754_nan => Raise ValueError
  | S754_infinity _ => Raise OverflowError
  | _ => match F64.trunc x with Some z => Ok z | None => Raise ValueError end
  end.

(** [a // b] and [a % b] on ints: Python floors, as [Z.div] does. *)
Definition floordiv (a b : Z) : result Z :=
  if b =? 0 then Raise ZeroDivisionError else Ok (a / b).

Definition pymod (a b : Z) : result Z :=
  if b =? 0 then Raise ZeroDivisionError else Ok (a mod b).

(** ** Text *)

Definition str_of_Z (z : Z) : string := NilZero.string_of_int (Z.to_int z).

Fixpoint zeros (n : nat) : string :=
  match n with O => EmptyString | S n' => String "0" (zeros n') end.

Definition zfill (width : nat) (s : string) : string :=
  zeros (width - String.length s) +++ s.

(** [f"{z:0{width}d}"] *)
Definition format_0d (width : nat) (z : Z) : string :=
  if z <? 0 then String "-" (zfill (width - 1) (str_of_Z (- z)))
  else zfill width (str_of_Z z).

(** [int(s)] for a string of decimal digits with an optional sign. *)
Definition int_of_str (s : string) : result Z :=
  match NilZero.int_of_string s with
  | Some d => Ok (Z.of_int d)
  | None => Raise ValueError
  end.

(** [l[a:b]] *)
Definition clamp_index (len i : Z) : Z :=
  if i <? 0 then Z.max (i + len) 0 else Z.min i len.

Definition slice {A} (l : list A) (a b : Z) : list A :=
  let len := Z.of_nat (List.length l) in
  let lo := clamp_index len a in
  let hi := clamp_index len b in
  firstn (Z.to_nat (hi - lo)) (skipn (Z.to_nat lo) l).

(** [range(n)] *)
Definition range (n : Z) : list Z := map Z.of_nat (seq 0 (Z.to_nat n)).

(** ** The outside world: client, random source and clock *)

Inductive resource : Type :=
| specimen_r | block_r | cutting_session_r | section_r | roi_r
| imaging_session_r | acquisition_r.

(** The client operations the generator uses. *)
Inductive call : Type :=
| Create (res : resource) (data : record)
| AddTile (acquisition_id : value) (tile : record)
| AddRois (session_id roi_id : value).

(** Requests to the [random] module and to [datetime.now()]. *)
Inductive draw : Type :=
| Randint (a b : Z)
| Uniform (a b : value)
| Gauss (mu sigma : value)
| Choices (population : string) (k : nat)
| Now.

Inductive event : Type :=
| Drew (d : draw) (v : value)
| Called (c : call) (r : result value)
| Printed (line : string).

(** A TEMdb client: every operation answers with a record or raises. *)
Class Client (C : Type) : Type := {
  serve : call -> C -> result value * C;
  (** whether the library declares [NotFoundError] a subclass of
      [TEMdbClientError] *)
  not_found_is_client_error : bool
}.

(** The interpreter's ambient services.  Times are microsecond counts;
    date arithmetic is taken inside the range [datetime] can represent. *)
Class Host (R : Type) : Type := {
  randint : Z -> Z -> R -> Z * R;
  uniform : value -> value -> R -> spec_float * R;
  gauss : value -> value -> R -> spec_float * R;
  choices : string -> nat -> R -> string * R;
  now : R -> Z * R;
  isoformat : Z -> string;
  strftime : string -> Z -> string;
  (** [str()] of floats, lists and dicts *)
  repr : value -> string
}.

Definition plus_days (t days : Z) : Z := t + days * 86400000000.

(** [str(v)] as an f-string renders a value. *)
Definition py_str {R} `{Host R} (v : value) : string :=
  match v with
  | VStr s => s
  | VInt z => str_of_Z z
  | VNone => "None"
  | VBool true => "True"
  | VBool false => "False"
  | _ => repr v
  end.

(** Command-line arguments, typed as [get_parser] declares them. *)
Record args : Type := {
  tile_size : Z;
  overlap : spec_float;
  stage_size : Z;
  num_blocks : Z;
  cutting_sessions_per_block : Z;
  sections_per_session : Z;
  rois_per_imaging_session : Z
}.

Definition nl : string := String (ascii_of_nat 10) EmptyString.

(** Numeric [b > a], ints against floats through their float value (exact
    for the constants the generator compares with). *)
Definition value_gt (b a : value) : bool :=
  match b, a with
  | VInt x, VInt y => y <? x
  | VFloat x, VFloat y => F64.ltb y x
  | VInt x, VFloat y => F64.ltb y (F64.of_Z x)
  | VFloat x, VInt y => F64.ltb (F64.of_Z y) x
  | _, _ => false
  end.

(** [min(a, b)] and [max(a, b)]: the first argument stays unless the second
    is strictly smaller (larger). *)
Definition py_min (a b : value) : value := if value_gt a b then b else a.
Definition py_max (a b : value) : value := if value_gt b a then b else a.

(** ** The run monad: state of the outside world, outcome, emitted events *)

Section Generator.
Context {R C : Type} `{Host R} `{Client C}.

Definition M (A : Type) : Type := R * C -> result A * (R * C) * list event.

Definition ret {A} (a : A) : M A := fun s => (Ok a, s, []).

Definition raise {A} (e : exn) : M A := fun s => (Raise e, s, []).

Definition lift {A} (r : result A) : M A := fun s => (r, s, []).

Definition bind {A B} (m : M A) (k : A -> M B) : M B := fun s =>
  match m s with
  | (Ok a, s1, ev1) =>
      match k a s1 with
      | (r, s2, ev2) => (r, s2, ev1 ++ ev2)
      end
  | (Raise e, s1, ev1) => (Raise e, s1, ev1)
  end.

Definition print (line : string) : M unit := fun s => (Ok tt, s, [Printed line]).

Definition request (c : call) : M value := fun s =>
  match serve c (snd s) with
  | (r, c') => (r, (fst s, c'), [Called c r])
  end.

Definition random_randint (a b : Z) : M Z := fun s =>
  match randint a b (fst s) with
  | (v, r') => (Ok v, (r', snd s), [Drew (Randint a b) (VInt v)])
  end.

Definition random_uniform (a b : value) : M spec_float := fun s =>
  match uniform a b (fst s) with
  | (v, r') => (Ok v, (r', snd s), [Drew (Uniform a b) (VFloat v)])
  end.

Definition random_gauss (mu sigma : value) : M spec_float := fun s =>
  match gauss mu sigma (fst s) with
  | (v, r') => (Ok v, (r', snd s), [Drew (Gauss mu sigma) (VFloat v)])
  end.

Definition random_choices (population : string) (k : nat) : M string := fun s =>
  match choices population k (fst s) with
  | (v, r') => (Ok v, (r', snd s), [Drew (Choices population k) (VStr v)])
  end.

Definition datetime_now : M Z := fun s =>
  match now (fst s) with
  | (t, r') => (Ok t, (r', snd s), [Drew Now (VInt t)])
  end.

(** [for x in l: acc = body(acc, x)] *)
Fixpoint foldM {A S} (body : S -> A -> M S) (l : list A) (acc : S) : M S :=
  match l with
  | [] => ret acc
  | x :: l' => bind (body acc x) (foldM body l')
  end.

(** [[body(x) for x in l]], one element at a time *)
Fixpoint mapM {A B} (body : A -> M B) (l : list A) : M (list B) :=
  match l with
  | [] => ret []
  | x :: l' => bind (body x) (fun y => bind (mapM body l') (fun ys => ret (y :: ys)))
  end.

(** [try: m  except TEMdbClientError ...  except NotFoundError ...].
    [nf_sub] says whether the client library declares [NotFoundError] a
    subclass of [TEMdbClientError]; the first matching clause wins. *)
Definition try_except (nf_sub : bool) (m : M unit) : M unit := fun s =>
  match m s with
  | (Raise (TEMdbClientError msg), s1, ev1) =>
      (Ok tt, s1, ev1 ++ [Printed ("An error occurred: " +++ msg)])
  | (Raise (NotFoundError msg), s1, ev1) =>
      (Ok tt, s1,
       ev1 ++ [Printed ((if nf_sub then "An error occurred: "
                         else "Resource not found: ") +++ msg)])
  | other => other
  end.

Notation "x <- m ;; k" := (bind m (fun x => k))
  (at level 61, m at next level, right associativity).
Notation "m ;; k" := (bind m (fun _ => k))
  (at level 61, right associativity).
Notation "x <~ r ;; k" := (bind (lift r) (fun x => k))
  (at level 61, r at next level, right associativity).

(** ** The generator, function by function *)

Definition generate_jittered_roi
    (base_x base_y base_width base_height jitter : Z) : M record :=
  u1 <- random_uniform (VInt (- jitter)) (VInt jitter);;
  cx <~ int_add_float base_x u1;;
  u2 <- random_uniform (VInt (- jitter)) (VInt jitter);;
  cy <~ int_add_float base_y u2;;
  u3 <- random_uniform (VInt (- jitter)) (VInt jitter);;
  w <~ int_add_float base_width u3;;
  u4 <- random_uniform (VInt (- jitter)) (VInt jitter);;
  h <~ int_add_float base_height u4;;
  ret [("aperture_centroid", VList [VFloat cx; VFloat cy]);
       ("aperture_width_height", VList [VFloat w; VFloat h])].

(** [tile_size * (1 - overlap)] *)
Definition effective_tile_size (tile_size : Z) (overlap : spec_float)
    : result spec_float :=
  result_bind (int_sub_float 1 overlap) (int_mul_float tile_size).

Definition calculate_stage_position
    (row col tile_size : Z) (overlap : spec_float) : M record :=
  eff <~ effective_tile_size tile_size overlap;;
  x <~ int_mul_float col eff;;
  y <~ int_mul_float row eff;;
  lo_x <~ int_mul_float (- tile_size) (F64.decimal 1 2);;
  hi_x <~ int_mul_float tile_size (F64.decimal 1 2);;
  jitter_x <- random_uniform (VFloat lo_x) (VFloat hi_x);;
  lo_y <~ int_mul_float (- tile_size) (F64.decimal 1 2);;
  hi_y <~ int_mul_float tile_size (F64.decimal 1 2);;
  jitter_y <- random_uniform (VFloat lo_y) (VFloat hi_y);;
  ret [("x", VFloat (F64.add x jitter_x)); ("y", VFloat (F64.add y jitter_y))].

Definition generate_focus_score (base_score variation : value) : M value :=
  g <- random_gauss base_score variation;;
  ret (py_max (VInt 0) (py_min (VInt 24) (VFloat g))).

Definition uniform_list (a b : value) : M value :=
  p1 <- random_uniform a b;;
  p2 <- random_uniform a b;;
  p3 <- random_uniform a b;;
  p4 <- random_uniform a b;;
  ret (VList [VFloat p1; VFloat p2; VFloat p3; VFloat p4]).

Definition generate_matcher_data (row col : Z) : M value :=
  dX <- random_uniform (VInt (-5)) (VInt 5);;
  dY <- random_uniform (VInt (-5)) (VInt 5);;
  dXsd <- random_uniform (VInt 0) (VInt 2);;
  dYsd <- random_uniform (VInt 0) (VInt 2);;
  distance <- random_uniform (VInt 0) (VInt 10);;
  rotation <- random_uniform (VFloat (SFopp (F64.decimal 1 1)))
                             (VFloat (F64.decimal 1 1));;
  match_quality <- random_uniform (VFloat (F64.decimal 5 1)) (VInt 1);;
  pX <- uniform_list (VInt 0) (VInt 100);;
  pY <- uniform_list (VInt 0) (VInt 100);;
  qX <- uniform_list (VInt 0) (VInt 100);;
  qY <- uniform_list (VInt 0) (VInt 100);;
  ret (VDict [("row", VInt row); ("col", VInt col);
              ("dX", VFloat dX); ("dY", VFloat dY);
              ("dXsd", VFloat dXsd); ("dYsd", VFloat dYsd);
              ("distance", VFloat distance); ("rotation", VFloat rotation);
              ("match_quality", VFloat match_quality);
              ("position", VInt (row * 10 + col));
              ("pX", pX); ("pY", pY); ("qX", qX); ("qY", qY)]).

Definition create_specimen : M value :=
  n <- random_randint 1000 9999;;
  d <- random_randint 1 100;;
  t <- datetime_now;;
  let specimen_data :=
    [("specimen_id", VStr ("SPEC" +++ str_of_Z n));
     ("description", VStr ("Test specimen " +++ str_of_Z d));
     ("created_at", VStr (isoformat t))] in
  specimen <- request (Create specimen_r specimen_data);;
  sid <~ getitem specimen "specimen_id";;
  print ("Created specimen: " +++ py_str sid);;
  ret specimen.

Definition create_block (specimen : value) (i : Z) : M value :=
  sid <~ getitem specimen "specimen_id";;
  sid' <~ getitem specimen "specimen_id";;
  res <- random_uniform (VFloat (F64.decimal 5 1)) (VFloat (F64.of_Z 2));;
  let block_data :=
    [("block_id", VStr ("BLK_" +++ py_str sid +++ "_" +++ format_0d 3 (i + 1)));
     ("specimen_id", sid');
     ("microCT_info", VDict [("resolution", VFloat res)])] in
  block <- request (Create block_r block_data);;
  bid <~ getitem block "block_id";;
  print ("Created block: " +++ py_str bid);;
  ret block.

Definition create_blocks (specimen : value) (num_blocks : Z) : M (list value) :=
  mapM (create_block specimen) (range num_blocks).

Definition create_cutting_session (block : value) (session_number : Z)
    : M (value * string) :=
  b0 <~ getitem block "block_id";;
  let media_id := "TAPE" +++ py_str b0 +++ str_of_Z session_number in
  b1 <~ getitem block "block_id";;
  b2 <~ getitem block "block_id";;
  t <- datetime_now;;
  op <- random_randint 1 5;;
  let cutting_session_data :=
    [("cutting_session_id", VStr ("CUT" +++ py_str b1 +++ str_of_Z session_number));
     ("block_id", b2);
     ("start_time", VStr (isoformat (plus_days t session_number)));
     ("operator", VStr ("Operator " +++ str_of_Z op));
     ("sectioning_device", VStr "Ultra Microtome 3000");
     ("media_type", VStr "tape");
     ("media_id", VStr media_id)] in
  cutting_session <- request (Create cutting_session_r cutting_session_data);;
  cid <~ getitem cutting_session "cutting_session_id";;
  print ("Created cutting session: " +++ py_str cid);;
  ret (cutting_session, media_id).

Definition create_section
    (cutting_session : value) (section_number : Z) (media_id : string) : M value :=
  c1 <~ getitem cutting_session "cutting_session_id";;
  c2 <~ getitem cutting_session "cutting_session_id";;
  let section_data :=
    [("section_id", VStr ("SEC" +++ py_str c1 +++ format_0d 3 section_number));
     ("section_number", VInt section_number);
     ("cutting_session_id", c2);
     ("media_type", VStr "tape");
     ("media_id", VStr media_id);
     ("relative_position", VInt section_number)] in
  section <- request (Create section_r section_data);;
  sid <~ getitem section "section_id";;
  print ("Created section: " +++ py_str sid);;
  ret section.

Definition create_roi
    (section : value) (roi_id : Z) (jittered_roi : record) (block specimen : value)
    : M value :=
  sn <~ getitem section "section_number";;
  wh <~ getitem (VDict jittered_roi) "aperture_width_height";;
  ce <~ getitem (VDict jittered_roi) "aperture_centroid";;
  sp <~ getitem specimen "_id";;
  bl <~ getitem block "_id";;
  let roi_data :=
    [("roi_id", VInt roi_id);
     ("section_number", sn);
     ("aperture_width_height", wh);
     ("aperture_centroid", ce);
     ("specimen_id", sp);
     ("block_id", bl)] in
  roi <- request (Create roi_r roi_data);;
  rid <~ getitem roi "roi_id";;
  sid <~ getitem section "section_id";;
  print ("Created ROI: " +++ py_str rid +++ " for section " +++ py_str sid);;
  ret roi.

Definition create_imaging_session
    (specimen block : value) (media_id : string) (session_number : Z) : M value :=
  t <- datetime_now;;
  let timestamp := strftime "%Y%m%d_%H%M%S_%f" t in
  random_id <- random_choices "0123456789" 6;;
  sp <~ getitem specimen "specimen_id";;
  let session_id :=
    "IMS_" +++ py_str sp +++ "_" +++ format_0d 3 session_number
      +++ "_" +++ timestamp +++ "_" +++ random_id in
  print ("Creating imaging session: " +++ session_id);;
  sp' <~ getitem specimen "specimen_id";;
  bl <~ getitem block "block_id";;
  t' <- datetime_now;;
  let imaging_session_data :=
    [("session_id", VStr session_id);
     ("specimen_id", sp');
     ("block_id", bl);
     ("media_type", VStr "tape");
     ("media_id", VStr media_id);
     ("start_time", VStr (isoformat t'))] in
  imaging_session <- request (Create imaging_session_r imaging_session_data);;
  sid <~ getitem imaging_session "session_id";;
  print ("Created imaging session: " +++ py_str sid);;
  ret imaging_session.

Definition create_acquisition (imaging_session roi : value) (a : args) : M value :=
  s1 <~ getitem imaging_session "session_id";;
  r1 <~ getitem roi "roi_id";;
  r2 <~ getitem roi "roi_id";;
  s2 <~ getitem imaging_session "session_id";;
  s3 <~ getitem imaging_session "session_id";;
  r3 <~ getitem roi "roi_id";;
  t <- datetime_now;;
  let acquisition_data :=
    [("acquisition_id", VStr ("ACQ" +++ py_str s1 +++ py_str r1));
     ("roi_id", r2);
     ("imaging_session_id", s2);
     ("montage_id", VStr ("MONTAGE" +++ py_str s3 +++ py_str r3));
     ("hardware_settings",
      VDict [("scope_id", VStr "T1"); ("camera_model", VStr "MX1276");
             ("camera_serial", VStr "1234"); ("bit_depth", VInt 10);
             ("media_type", VStr "tape")]);
     ("acquisition_settings",
      VDict [("magnification", VInt 2000); ("spot_size", VInt 5);
             ("exposure_time", VInt 120);
             ("tile_size", VList [VInt (tile_size a); VInt (tile_size a)]);
             ("tile_overlap", VFloat (overlap a))]);
     ("calibration_info",
      VDict [("pixel_size", VFloat (F64.of_Z 4)); ("stig_angle", VInt 0);
             ("lens_model", VNone)]);
     ("status", VStr "planned");
     ("tilt_angle", VInt 0);
     ("lens_correction", VBool true);
     ("start_time", VStr (isoformat t))] in
  acquisition <- request (Create acquisition_r acquisition_data);;
  aid <~ getitem acquisition "acquisition_id";;
  print ("Created acquisition: " +++ py_str aid);;
  ret acquisition.

(** [args.stage_size / (args.tile_size * (1 - args.overlap))] *)
Definition stage_ratio (a : args) : result spec_float :=
  result_bind (effective_tile_size (tile_size a) (overlap a))
              (int_div_float (stage_size a)).

(** [int(args.stage_size / (args.tile_size * (1 - args.overlap)))] *)
Definition tiles_per_side (a : args) : result Z :=
  result_bind (stage_ratio a) py_int.

(** Body of the loop of [create_tiles], for index [k]. *)
Definition create_tile
    (acquisition : value) (media_id : string) (a : args)
    (base_focus_score : spec_float) (tiles_per_side : Z) (k : Z) : M value :=
  row <~ floordiv k tiles_per_side;;
  col <~ pymod k tiles_per_side;;
  focus_score <- generate_focus_score (VFloat base_focus_score)
                                      (VFloat (F64.decimal 5 1));;
  stage_position <- calculate_stage_position row col (tile_size a) (overlap a);;
  a1 <~ getitem acquisition "acquisition_id";;
  a2 <~ getitem acquisition "acquisition_id";;
  min_value <- random_randint 0 20;;
  max_value <- random_randint 200 255;;
  mean_value <- random_randint 100 200;;
  std_value <- random_uniform (VInt 10) (VInt 40);;
  a3 <~ getitem acquisition "acquisition_id";;
  m1 <- generate_matcher_data row col;;
  m2 <- generate_matcher_data row (col + 1);;
  m3 <- generate_matcher_data (row + 1) col;;
  m4 <- generate_matcher_data (row + 1) (col + 1);;
  let tile_data :=
    [("tile_id", VStr ("TILE" +++ py_str a1 +++ format_0d 5 (k + 1)));
     ("acquisition_id", a2);
     ("stage_position", VDict stage_position);
     ("raster_position", VDict [("row", VInt row); ("col", VInt col)]);
     ("focus_score", focus_score);
     ("min_value", VInt min_value);
     ("max_value", VInt max_value);
     ("mean_value", VInt mean_value);
     ("std_value", VFloat std_value);
     ("image_path",
      VStr ("/path/to/images/" +++ media_id +++ "/" +++ py_str a3 +++ "/"
            +++ format_0d 5 (k + 1) +++ ".tif"));
     ("matcher", VList [m1; m2; m3; m4]);
     ("raster_index", VInt (k + 1))] in
  a4 <~ getitem acquisition "acquisition_id";;
  created_tile <- request (AddTile a4 tile_data);;
  tid <~ getitem created_tile "tile_id";;
  print ("Created tile: " +++ py_str tid);;
  ret created_tile.

Definition create_tiles (acquisition : value) (media_id : string) (a : args)
    : M (list value) :=
  base_focus_score <- random_uniform (VFloat (F64.decimal 205 1))
                                     (VFloat (F64.decimal 215 1));;
  n <~ tiles_per_side a;;
  let total_tiles := n * n in
  mapM (create_tile acquisition media_id a base_focus_score n) (range total_tiles).
(** [session_counters]: a dict from media id to the number of imaging
    sessions started on it, in insertion order. *)
Definition counters := list (string * Z).

Fixpoint counter_get (k : string) (d : counters) : result Z :=
  match d with
  | [] => Raise (KeyError k)
  | (k', v) :: d' => if String.eqb k k' then Ok v else counter_get k d'
  end.

Fixpoint counter_set (k : string) (v : Z) (d : counters) : counters :=
  match d with
  | [] => [(k, v)]
  | (k', v') :: d' =>
      if String.eqb k k' then (k', v) :: d' else (k', v') :: counter_set k v d'
  end.

Definition counter_init (k : string) (d : counters) : counters :=
  match counter_get k d with
  | Ok _ => d
  | Raise _ => counter_set k 0 d
  end.

(** [rois_by_media]: appends [roi] to the list kept under [media_id]. *)
Fixpoint group_add (media_id : string) (roi : value)
    (groups : list (string * list value)) : list (string * list value) :=
  match groups with
  | [] => [(media_id, [roi])]
  | (m, rois) :: groups' =>
      if String.eqb media_id m then (m, rois ++ [roi]) :: groups'
      else (m, rois) :: group_add media_id roi groups'
  end.

Definition rois_by_media (block_rois : list (value * string))
    : list (string * list value) :=
  fold_left (fun groups p => group_add (snd p) (fst p) groups) block_rois [].

Definition len {A} (l : list A) : Z := Z.of_nat (List.length l).

(** Body of the loop over sections of one cutting session. *)
Definition section_body
    (specimen block cutting_session : value) (media_id : string) (j : Z)
    (base_x base_y base_width base_height : Z)
    (block_rois : list (value * string)) (k : Z) : M (list (value * string)) :=
  section <- create_section cutting_session (k + 1) media_id;;
  jittered_roi <- generate_jittered_roi base_x base_y base_width base_height 5;;
  roi_id <~ int_of_str (str_of_Z (j + 1) +++ format_0d 3 (k + 1));;
  roi <- create_roi section roi_id jittered_roi block specimen;;
  ret (block_rois ++ [(roi, media_id)]).

(** Body of the loop over the cutting sessions of one block. *)
Definition cutting_session_body
    (a : args) (specimen block : value)
    (acc : counters * list (value * string)) (j : Z)
    : M (counters * list (value * string)) :=
  cm <- create_cutting_session block (j + 1);;
  let cutting_session := fst cm in
  let media_id := snd cm in
  let session_counters := counter_init media_id (fst acc) in
  base_x <- random_randint 50 150;;
  base_y <- random_randint 50 150;;
  base_width <- random_randint 100 200;;
  base_height <- random_randint 100 200;;
  block_rois <- foldM (section_body specimen block cutting_session media_id j
                         base_x base_y base_width base_height)
                      (range (sections_per_session a)) (snd acc);;
  ret (session_counters, block_rois).

(** Body of the loop over the ROIs attached to one imaging session. *)
Definition attach_roi
    (a : args) (imaging_session : value) (media_id : string)
    (_ : unit) (roi : value) : M unit :=
  sid <~ getitem imaging_session "session_id";;
  rid <~ getitem roi "roi_id";;
  _ <- request (AddRois sid rid);;
  rid' <~ getitem roi "roi_id";;
  sid' <~ getitem imaging_session "session_id";;
  print ("  Added ROI " +++ py_str rid' +++ " to imaging session " +++ py_str sid');;
  acquisition <- create_acquisition imaging_session roi a;;
  _ <- create_tiles acquisition media_id a;;
  ret tt.

(** Body of the loop over the imaging sessions of one media group; the
    state is [session_counters] and [total_imaging_sessions]. *)
Definition imaging_session_body
    (a : args) (specimen block : value) (media_id : string) (media_rois : list value)
    (acc : counters * Z) (i : Z) : M (counters * Z) :=
  c <~ counter_get media_id (fst acc);;
  let session_counters := counter_set media_id (c + 1) (fst acc) in
  c1 <~ counter_get media_id session_counters;;
  print ("  Creating imaging session " +++ str_of_Z c1);;
  c2 <~ counter_get media_id session_counters;;
  imaging_session <- create_imaging_session specimen block media_id c2;;
  let start_idx := i * rois_per_imaging_session a in
  let end_idx := start_idx + rois_per_imaging_session a in
  let session_rois := slice media_rois start_idx end_idx in
  foldM (attach_roi a imaging_session media_id) session_rois tt;;
  ret (session_counters, snd acc + 1).

(** Body of the loop over [rois_by_media.items()]. *)
Definition media_group_body
    (a : args) (specimen block : value)
    (acc : counters * Z) (group : string * list value) : M (counters * Z) :=
  let media_id := fst group in
  let media_rois := snd group in
  num_sessions <~ floordiv (len media_rois) (rois_per_imaging_session a);;
  bid <~ getitem block "block_id";;
  print (nl +++ "Processing block " +++ py_str bid +++ " media " +++ media_id +++ ":");;
  print ("- Created " +++ str_of_Z (len media_rois) +++ " ROIs");;
  print ("- Creating " +++ str_of_Z num_sessions +++ " imaging sessions");;
  foldM (imaging_session_body a specimen block media_id media_rois)
        (range num_sessions) acc.

(** Body of the loop over blocks; the state is [total_imaging_sessions]
    and [total_rois]. *)
Definition block_body
    (a : args) (specimen : value) (acc : Z * Z) (block : value) : M (Z * Z) :=
  cr <- foldM (cutting_session_body a specimen block)
              (range (cutting_sessions_per_block a)) ([], []);;
  let session_counters := fst cr in
  let block_rois := snd cr in
  it <- foldM (media_group_body a specimen block)
              (rois_by_media block_rois) (session_counters, fst acc);;
  ret (snd it, snd acc + len block_rois).

(** [int((args.stage_size / (args.tile_size * (1 - args.overlap))) ** 2)] *)
Definition summary_tiles_per_acquisition (a : args) : result Z :=
  result_bind (result_bind (stage_ratio a) float_sqr) py_int.

Definition summary (a : args) (blocks : list value) (totals : Z * Z) : M unit :=
  let total_imaging_sessions := fst totals in
  let total_rois := snd totals in
  print (nl +++ "Data generation summary:");;
  print ("Created " +++ str_of_Z (len blocks) +++ " blocks");;
  print ("Created " +++ str_of_Z total_rois +++ " ROIs");;
  print ("Created " +++ str_of_Z total_imaging_sessions +++ " imaging sessions");;
  tiles_per_acquisition <~ summary_tiles_per_acquisition a;;
  let total_tiles :=
    total_imaging_sessions * rois_per_imaging_session a * tiles_per_acquisition in
  print ("Created " +++ str_of_Z total_tiles +++ " total tiles ("
         +++ str_of_Z tiles_per_acquisition +++ " tiles per acquisition)").

(** The hierarchy walk, the body of the [try]. *)
Definition walk (a : args) : M unit :=
  specimen <- create_specimen;;
  blocks <- create_blocks specimen (num_blocks a);;
  totals <- foldM (block_body a specimen) blocks (0, 0);;
  summary a blocks totals.

Definition generate_data (a : args) : M unit :=
  try_except not_found_is_client_error (walk a).

End Generator.

(** ** Concrete collaborators, to run the generator *)

(** A store that numbers the records it receives and echoes each one back
    with its number as ["_id"]. *)
Definition echo_serve (c : call) (n : Z) : result value * Z :=
  match c with
  | Create _ data => (Ok (VDict (data ++ [("_id", VInt n)])), n + 1)
  | AddTile _ tile => (Ok (VDict tile), n + 1)
  | AddRois _ _ => (Ok VNone, n + 1)
  end.

#[export] Instance echo_client : Client Z := {
  serve := echo_serve;
  not_found_is_client_error := false
}.

(** A store that echoes like [echo_client] until its budget of calls is
    used up, and then raises [fault] on every call. *)
Record flaky : Type := { budget : nat; fault : exn; stored : Z }.

Definition flaky_serve (c : call) (s : flaky) : result value * flaky :=
  match budget s with
  | O => (Raise (fault s), s)
  | S b =>
      (fst (echo_serve c (stored s)),
       {| budget := b; fault := fault s; stored := stored s + 1 |})
  end.

#[export] Instance flaky_client : Client flaky := {
  serve := flaky_serve;
  not_found_is_client_error := false
}.

Definition float_of_value (v : value) : spec_float :=
  match v with
  | VFloat f => f
  | VInt z => F64.of_Z z
  | _ => S754_nan
  end.

(** A counter as random source and clock: the n-th request is answered
    from [n] alone.  Integers walk through their range, [uniform] answers
    with its lower bound and [gauss] with its mean. *)
Definition tick_randint (a b : Z) (n : Z) : Z * Z := (a + n mod (b - a + 1), n + 1).

#[export] Instance tick_host : Host Z := {
  randint := tick_randint;
  uniform := fun a _ n => (float_of_value a, n + 1);
  gauss := fun mu _ n => (float_of_value mu, n + 1);
  choices := fun _ _ n => (format_0d 6 (n mod 1000000), n + 1);
  now := fun n => (n, n + 1);
  isoformat := fun t => "T" +++ str_of_Z t;
  strftime := fun _ t => str_of_Z t;
  repr := fun _ => "?"
}.

Definition default_args : args := {|
  tile_size := 21512;
  overlap := F64.decimal 6 2;
  stage_size := 100000;
  num_blocks := 2;
  cutting_sessions_per_block := 1;
  sections_per_session := 10;
  rois_per_imaging_session := 5
|}.

(** The volume parameters of [a] replaced. *)
Definition with_volume (a : args) (blocks sessions sections rois : Z) : args := {|
  tile_size := tile_size a;
  overlap := overlap a;
  stage_size := stage_size a;
  num_blocks := blocks;
  cutting_sessions_per_block := sessions;
  sections_per_session := sections;
  rois_per_imaging_session := rois
|}.

Arguments M : clear implicits.

(** ** Observations on the events of a run *)

(** The client calls among the events, each with its outcome. *)
Definition calls_of (ev : list event) : list (call * result value) :=
  flat_map (fun e => match e with Called c r => [(c, r)] | _ => [] end) ev.

(** The lines printed. *)
Definition printed_of (ev : list event) : list string :=
  flat_map (fun e => match e with Printed l => [l] | _ => [] end) ev.

(** The requests to the random source and the clock, with the answers. *)
Definition draws_of (ev : list event) : list (draw * value) :=
  flat_map (fun e => match e with Drew d v => [(d, v)] | _ => [] end) ev.

Inductive kind : Type :=
| KCreate (res : resource)
| KAddTile
| KAddRois.

Definition kind_of (c : call) : kind :=
  match c with
  | Create res _ => KCreate res
  | AddTile _ _ => KAddTile
  | AddRois _ _ => KAddRois
  end.

Definition kinds_of (cs : list (call * result value)) : list kind :=
  map (fun cr => kind_of (fst cr)) cs.

Definition kind_eqb (x y : kind) : bool :=
  match x, y with
  | KCreate a, KCreate b =>
      match a, b with
      | specimen_r, specimen_r | block_r, block_r
      | cutting_session_r, cutting_session_r | section_r, section_r
      | roi_r, roi_r | imaging_session_r, imaging_session_r
      | acquisition_r, acquisition_r => true
      | _, _ => false
      end
  | KAddTile, KAddTile | KAddRois, KAddRois => true
  | _, _ => false
  end.

(** How many calls of kind [k] were made. *)
Definition count_kind (k : kind) (cs : list (call * result value)) : Z :=
  len (filter (kind_eqb k) (kinds_of cs)).

Definition succeeded (cr : call * result value) : Prop :=
  exists v, snd cr = Ok v.

(** ** What the generator expects of its collaborators *)

Definition has_key (k : string) (v : value) : Prop :=
  exists x, getitem v k = Ok x.

(** The stored record is echoed back: it has every field that was sent. *)
Definition echoes (data : record) (v : value) : Prop :=
  forall k x, lookup k data = Some x -> has_key k v.

Definition answers (c : call) (v : value) : Prop :=
  match c with
  | Create res data =>
      echoes data v /\
      match res with
      | specimen_r | block_r => has_key "_id" v
      | _ => True
      end
  | AddTile _ tile => echoes tile v
  | AddRois _ _ => True
  end.

(** A client that never raises and echoes what it stores, with a
    server-assigned ["_id"] on specimens and blocks. *)
Definition well_behaved_client {C : Type} `{Client C} : Prop :=
  forall c s, exists v, fst (serve c s) = Ok v /\ answers c v.

(** [random.randint(a, b)] answers within [[a, b]]. *)
Definition well_behaved_host {R : Type} `{Host R} : Prop :=
  forall a b r, a <= b -> a <= fst (randint a b r) <= b.

(** ** The shape of the calls of a run *)

(** The [add_tile] calls of one acquisition: [n * n] of them, all for the
    acquisition's id, all answered. *)
Definition tile_calls (aid : value) (n : Z) (cs : list (call * result value)) : Prop :=
  len cs = n * n /\
  Forall (fun cr => exists tile v, cr = (AddTile aid tile, Ok v)) cs.

(** The calls for the ROIs attached to one imaging session, in order: for
    each ROI one [add_rois], one acquisition and the acquisition's tiles. *)
Inductive roi_calls (n : Z) (session : value)
  : list value -> list (call * result value) -> Prop :=
| roi_calls_nil : roi_calls n session [] []
| roi_calls_cons roi rois sid rid x data acq aid tiles rest :
    getitem session "session_id" = Ok sid ->
    getitem roi "roi_id" = Ok rid ->
    lookup "roi_id" data = Some rid ->
    lookup "imaging_session_id" data = Some sid ->
    getitem acq "acquisition_id" = Ok aid ->
    tile_calls aid n tiles ->
    roi_calls n session rois rest ->
    roi_calls n session (roi :: rois)
      ((AddRois sid rid, Ok x) :: (Create acquisition_r data, Ok acq) :: tiles ++ rest).

(** The calls for the batches of one media group: for each batch one
    imaging session and the calls of its ROIs. *)
Inductive session_calls (n : Z)
  : list (list value) -> list (call * result value) -> Prop :=
| session_calls_nil : session_calls n [] []
| session_calls_cons batch batches data session cs rest :
    roi_calls n session batch cs ->
    session_calls n batches rest ->
    session_calls n (batch :: batches)
      ((Create imaging_session_r data, Ok session) :: cs ++ rest).

(** The full batches of [b] consecutive ROIs, as [generate_data] slices
    them. *)
Definition batches (b : Z) (rois : list value) : list (list value) :=
  map (fun i => slice rois (i * b) (i * b + b)) (range (len rois / b)).

Inductive groups_calls (n b : Z)
  : list (string * list value) -> list (call * result value) -> Prop :=
| groups_calls_nil : groups_calls n b [] []
| groups_calls_cons g gs cs rest :
    session_calls n (batches b (snd g)) cs ->
    groups_calls n b gs rest ->
    groups_calls n b (g :: gs) (cs ++ rest).

(** The calls for the sections of one cutting session, with the ROIs
    they return. *)
Inductive sections_calls
  : list value -> list (call * result value) -> Prop :=
| sections_calls_nil : sections_calls [] []
| sections_calls_cons sdata sec rdata roi rois rest :
    has_key "roi_id" roi ->
    sections_calls rois rest ->
    sections_calls (roi :: rois)
      ((Create section_r sdata, Ok sec) :: (Create roi_r rdata, Ok roi) :: rest).

(** The calls of the cutting phase of a block: the sessions, each with
    [s] sections, and the [(roi, media_id)] pairs collected. *)
Inductive cutting_calls (s : Z)
  : nat -> list (value * string) -> list (call * result value) -> Prop :=
| cutting_calls_nil : cutting_calls s O [] []
| cutting_calls_cons count data session media_id rois cs block_rois rest :
    lookup "media_id" data = Some (VStr media_id) ->
    len rois = Z.max 0 s ->
    sections_calls rois cs ->
    cutting_calls s count block_rois rest ->
    cutting_calls s (S count)
      (map (fun roi => (roi, media_id)) rois ++ block_rois)
      ((Create cutting_session_r data, Ok session) :: cs ++ rest).

(** The calls made for one block. *)
Definition block_calls (a : args) (n : Z) (cs : list (call * result value)) : Prop :=
  exists block_rois cut grp,
    cs = cut ++ grp /\
    cutting_calls (sections_per_session a)
                  (Z.to_nat (cutting_sessions_per_block a)) block_rois cut /\
    groups_calls n (rois_per_imaging_session a) (rois_by_media block_rois) grp.

(** The calls of a whole walk. *)
Definition walk_calls (a : args) (n : Z) (cs : list (call * result value)) : Prop :=
  exists sdata specimen blocks per_block,
    cs = (Create specimen_r sdata, Ok specimen) :: blocks ++ List.concat per_block /\
    len blocks = Z.max 0 (num_blocks a) /\
    Forall (fun cr => exists data v, cr = (Create block_r data, Ok v)) blocks /\
    List.length per_block = List.length blocks /\
    Forall (block_calls a n) per_block.



(** ** Properties of outcomes *)

(** The closed interval [[0, 24]], for an int or a float. *)
Definition in_score_range (v : value) : Prop :=
  match v with
  | VInt z => 0 <= z <= 24
  | VFloat f => F64.leb (F64.of_Z 0) f = true /\ F64.leb f (F64.of_Z 24) = true
  | _ => False
  end.

(** [post m Q]: from every state of the outside world, the outcome of [m]
    and the events it emits satisfy [Q]. *)
Definition post {R C A : Type} (m : M R C A)
    (Q : result A -> list event -> Prop) : Prop :=
  forall s, Q (fst (fst (m s))) (snd (m s)).

(** [ok_with P]: the run returns normally, and its value and client calls
    satisfy [P]. *)
Definition ok_with {A : Type} (P : A -> list (call * result value) -> Prop)
    (r : result A) (ev : list event) : Prop :=
  exists a, r = Ok a /\ P a (calls_of ev).

(** The results and calls of a comprehension whose body, on [x], returns
    [y] with calls [cs] related by [Step x y cs]. *)
Inductive map_rel {A B : Type} (Step : A -> B -> list (call * result value) -> Prop)
  : list A -> list B -> list (call * result value) -> Prop :=
| map_rel_nil : map_rel Step [] [] []
| map_rel_cons x y l ys cs1 cs2 :
    Step x y cs1 -> map_rel Step l ys cs2 ->
    map_rel Step (x :: l) (y :: ys) (cs1 ++ cs2).

Definition has_counter (media_id : string) (d : counters) : Prop :=
  exists c, counter_get media_id d = Ok c.

(** Every media id collected with a ROI has a session counter. *)
Definition counted (acc : counters * list (value * string)) : Prop :=
  forall roi m, In (roi, m) (snd acc) -> has_counter m (fst acc).

(** [d] counts every media id that [d0] counts. *)
Definition counters_extend (d0 d : counters) : Prop :=
  forall m, has_counter m d0 -> has_counter m d.

(** Every group is not empty and holds ROIs collected under its media id. *)
Definition grouped (groups : list (string * list value))
    (block_rois : list (value * string)) : Prop :=
  forall m rs, In (m, rs) groups ->
    rs <> [] /\ forall r, In r rs -> In (r, m) block_rois.

(** Calls of kind [k] made for one attached ROI. *)
Definition per_roi (k : kind) (n : Z) : Z :=
  (if kind_eqb k KAddRois then 1 else 0)
  + (if kind_eqb k (KCreate acquisition_r) then 1 else 0)
  + (if kind_eqb k KAddTile then n * n else 0).

(** Calls of kind [k] made for one section. *)
Definition per_section (k : kind) : Z :=
  (if kind_eqb k (KCreate section_r) then 1 else 0)
  + (if kind_eqb k (KCreate roi_r) then 1 else 0).

(** ** Tiles against any client *)

(** A matcher record for the tile at ([row], [col]). *)
Definition matcher_at (m : value) (row col : Z) : Prop :=
  getitem m "row" = Ok (VInt row) /\ getitem m "col" = Ok (VInt col).

(** The fields of the [k]-th tile of a grid of side [n]. *)
Definition tile_shape (n k : Z) (tile : record) : Prop :=
  lookup "raster_position" tile
    = Some (VDict [("row", VInt (k / n)); ("col", VInt (k mod n))]) /\
  lookup "raster_index" tile = Some (VInt (k + 1)) /\
  exists m1 m2 m3 m4,
    lookup "matcher" tile = Some (VList [m1; m2; m3; m4]) /\
    matcher_at m1 (k / n) (k mod n) /\
    matcher_at m2 (k / n) (k mod n + 1) /\
    matcher_at m3 (k / n + 1) (k mod n) /\
    matcher_at m4 (k / n + 1) (k mod n + 1).

(** [silent P]: no client call was made, and a returned value satisfies
    [P]. *)
Definition silent {A : Type} (P : A -> Prop) (r : result A) (ev : list event) : Prop :=
  calls_of ev = [] /\ forall a, r = Ok a -> P a.

(** At most one call was made, an [add_tile] for tile [k]; without a call
    the run raised. *)
Definition one_tile (n k : Z) {A : Type} (r : result A)
    (cs : list (call * result value)) : Prop :=
  (cs = [] /\ exists e, r = Raise e) \/
  (exists aid tile resp, cs = [(AddTile aid tile, resp)] /\ tile_shape n k tile).

(** The calls are [add_tile] calls for the tiles [k0], [k0 + 1], ... of a
    grid of side [n], at most [count] of them. *)
Definition tile_run (n k0 : Z) (count : nat) (cs : list (call * result value)) : Prop :=
  (List.length cs <= count)%nat /\
  forall i c resp, nth_error cs i = Some (c, resp) ->
    exists aid tile, c = AddTile aid tile /\ tile_shape n (k0 + Z.of_nat i) tile.

(** ** Errors of the client *)

(** A client call that raised. *)
Definition raising (e : event) : bool :=
  match e with Called _ (Raise _) => true | _ => false end.

(** No client call raised. *)
Definition clean (ev : list event) : Prop := Forall (fun e => raising e = false) ev.


(** ** ROIs and the base rectangle they are jittered around *)
















(** A specimen and a block as a store would return them. *)
Definition specimen_0 : value := VDict [("specimen_id", VStr "SPEC1000"); ("_id", VInt 0)].
Definition block_1 : value := VDict [("block_id", VStr "BLK001"); ("_id", VInt 1)].

(** ** Parents before children *)

(** The records the store has returned so far, each with the kind of
    record it is. *)
Definition store := list (resource * value).

(** What a call adds to them: the record a successful create returns. *)
Definition returned_by (c : call) (r : result value) : store :=
  match c, r with
  | Create res _, Ok v => [(res, v)]
  | _, _ => []
  end.

Definition returned (cs : list (call * result value)) : store :=
  flat_map (fun cr => returned_by (fst cr) (snd cr)) cs.

(** The parent references of a call: the kind of the parent, the key of
    the parent under which the identifier is found, and the identifier the
    call passes (a field of the record sent, or an argument). *)
Definition references (c : call) : list (resource * string * option value) :=
  match c with
  | Create specimen_r _ => []
  | Create block_r d => [(specimen_r, "specimen_id", lookup "specimen_id" d)]
  | Create cutting_session_r d => [(block_r, "block_id", lookup "block_id" d)]
  | Create section_r d =>
      [(cutting_session_r, "cutting_session_id", lookup "cutting_session_id" d)]
  | Create roi_r d =>
      [(specimen_r, "_id", lookup "specimen_id" d);
       (block_r, "_id", lookup "block_id" d);
       (section_r, "section_number", lookup "section_number" d)]
  | Create imaging_session_r d =>
      [(specimen_r, "specimen_id", lookup "specimen_id" d);
       (block_r, "block_id", lookup "block_id" d)]
  | Create acquisition_r d =>
      [(roi_r, "roi_id", lookup "roi_id" d);
       (imaging_session_r, "session_id", lookup "imaging_session_id" d)]
  | AddRois session_id roi_id =>
      [(imaging_session_r, "session_id", Some session_id);
       (roi_r, "roi_id", Some roi_id)]
  | AddTile acquisition_id tile =>
      [(acquisition_r, "acquisition_id", Some acquisition_id);
       (acquisition_r, "acquisition_id", lookup "acquisition_id" tile)]
  end.

(** The reference is present, and is the identifier of a record of the
    right kind that the store has returned. *)
Definition resolved (seen : store) (ref : resource * string * option value) : Prop :=
  exists parent v,
    In (fst (fst ref), parent) seen /\
    getitem parent (snd (fst ref)) = Ok v /\
    snd ref = Some v.

(** Every call refers to records returned before it is made, starting
    from the records [seen]. *)
Fixpoint causal_from (seen : store) (cs : list (call * result value)) : Prop :=
  match cs with
  | [] => True
  | cr :: cs' =>
      Forall (resolved seen) (references (fst cr)) /\
      causal_from (seen ++ returned_by (fst cr) (snd cr)) cs'
  end.

(** Started when [known] has been returned, the code refers to returned
    records only, and its value satisfies [Q] with respect to the records
    returned when it ends. *)
Definition causal {A : Type} (known : store) (Q : A -> store -> Prop)
    (r : result A) (ev : list event) : Prop :=
  causal_from known (calls_of ev) /\
  forall a, r = Ok a -> Q a (known ++ returned (calls_of ev)).

(** As [causal], with nothing said of the value. *)
Definition referring {A : Type} (known : store) : result A -> list event -> Prop :=
  causal known (fun _ _ => True).

(** The ROIs accumulated for a block were all returned by the store. *)
Definition rois_known (rois : list (value * string)) (k : store) : Prop :=
  Forall (fun p => In (roi_r, fst p) k) rois.

(** ** Properties of every event of a run *)

(** Every event emitted satisfies [p]. *)
Definition every (p : event -> Prop) {A : Type} (r : result A) (ev : list event) : Prop :=
  Forall p ev.

(** The calls of the imaging phase: imaging sessions, attached ROIs,
    acquisitions and tiles. *)
Definition imaging_phase (c : call) : bool :=
  match c with
  | Create imaging_session_r _ | Create acquisition_r _ => true
  | AddTile _ _ | AddRois _ _ => true
  | Create _ _ => false
  end.

Definition before_imaging (e : event) : Prop :=
  match e with
  | Called c _ => imaging_phase c = false
  | _ => True
  end.

(** The first line of the summary. *)
Definition summary_header : string := nl +++ "Data generation summary:".


(** [random.uniform(20.5, 21.5)], the draw of [base_focus_score]. *)
Definition base_focus_draw : draw :=
  Uniform (VFloat (F64.decimal 205 1)) (VFloat (F64.decimal 215 1)).

(** The draws for the tiles of an acquisition whose base focus score is
    [base]: every Gaussian draw is centred on [base], with deviation 0.5. *)
Definition focus_around (base : spec_float) (e : event) : Prop :=
  match e with
  | Drew (Gauss mu sigma) _ => mu = VFloat base /\ sigma = VFloat (F64.decimal 5 1)
  | _ => True
  end.

(** ** Exceptions of the generator's own *)

(** The exceptions Python raises for the generator's lookups, conversions
    and arithmetic. *)
Definition builtin_error (e : exn) : Prop :=
  match e with
  | KeyError _ | TypeError | ValueError | OverflowError | ZeroDivisionError => True
  | _ => False
  end.

Definition own_error {A : Type} (r : result A) : Prop :=
  forall e, r = Raise e -> builtin_error e.

(** An exception the code raises is a built-in one, or the one its last
    event, a client call, raised. *)
Definition escapes {A : Type} (r : result A) (ev : list event) : Prop :=
  forall e, r = Raise e ->
    builtin_error e \/ exists pre c, ev = pre ++ [Called c (Raise e)].

(** ** Records returned without their id *)

(** The key read from the record a call returns, right after the call. *)
Definition id_key (c : call) : option string :=
  match c with
  | Create specimen_r _ => Some "specimen_id"
  | Create block_r _ => Some "block_id"
  | Create cutting_session_r _ => Some "cutting_session_id"
  | Create section_r _ => Some "section_id"
  | Create roi_r _ => Some "roi_id"
  | Create imaging_session_r _ => Some "session_id"
  | Create acquisition_r _ => Some "acquisition_id"
  | AddTile _ _ => Some "tile_id"
  | AddRois _ _ => None
  end.

(** What reading that key does when it fails. *)
Definition id_missing (e : event) : option exn :=
  match e with
  | Called c (Ok v) =>
      match id_key c with
      | Some k => match getitem v k with Raise x => Some x | Ok _ => None end
      | None => None
      end
  | _ => None
  end.

(** Either every record returned had its id, or exactly one had not: it
    is the last event and the run raised what reading the id raised. *)
Definition id_checked {A : Type} (r : result A) (ev : list event) : Prop :=
  Forall (fun e => id_missing e = None) ev \/
  exists pre x e,
    ev = pre ++ [x] /\ id_missing x = Some e /\ r = Raise e /\
    Forall (fun e => id_missing e = None) pre.

(** A store that accepts everything and answers with an empty record. *)
#[export] Instance bare_client : Client unit := {
  serve := fun _ u => (Ok (VDict []), u);
  not_found_is_client_error := false
}.

(** [a] with another tile size. *)
Definition with_tile_size (a : args) (t : Z) : args := {|
  tile_size := t;
  overlap := overlap a;
  stage_size := stage_size a;
  num_blocks := num_blocks a;
  cutting_sessions_per_block := cutting_sessions_per_block a;
  sections_per_session := sections_per_session a;
  rois_per_imaging_session := rois_per_imaging_session a
|}.

(** ** Grouping ROIs by media *)

(** The ROIs collected with media id [m], in the order collected. *)
Definition rois_of_media (m : string) (block_rois : list (value * string))
    : list value :=
  map fst (filter (fun p => String.eqb (snd p) m) block_rois).

(** ** Decimal text as numbers *)

(** The number a sequence of decimal digits denotes, read after [acc]. *)
Fixpoint digits_value (d : uint) (acc : Z) : Z :=
  match d with
  | Nil => acc
  | D0 d' => digits_value d' (10 * acc)
  | D1 d' => digits_value d' (10 * acc + 1)
  | D2 d' => digits_value d' (10 * acc + 2)
  | D3 d' => digits_value d' (10 * acc + 3)
  | D4 d' => digits_value d' (10 * acc + 4)
  | D5 d' => digits_value d' (10 * acc + 5)
  | D6 d' => digits_value d' (10 * acc + 6)
  | D7 d' => digits_value d' (10 * acc + 7)
  | D8 d' => digits_value d' (10 * acc + 8)
  | D9 d' => digits_value d' (10 * acc + 9)
  end.

(** One sequence of digits after another. *)
Fixpoint digits_app (d e : uint) : uint :=
  match d with
  | Nil => e
  | D0 d' => D0 (digits_app d' e)
  | D1 d' => D1 (digits_app d' e)
  | D2 d' => D2 (digits_app d' e)
  | D3 d' => D3 (digits_app d' e)
  | D4 d' => D4 (digits_app d' e)
  | D5 d' => D5 (digits_app d' e)
  | D6 d' => D6 (digits_app d' e)
  | D7 d' => D7 (digits_app d' e)
  | D8 d' => D8 (digits_app d' e)
  | D9 d' => D9 (digits_app d' e)
  end.

(** The ROI id sent is [id]. *)
Definition roi_id_is (id : Z) (e : event) : Prop :=
  match e with
  | Called (Create roi_r data) _ => lookup "roi_id" data = Some (VInt id)
  | _ => True
  end.

(** ** Calls made one per loop index *)

(** At most one call was made, and it satisfies [P]; without a call the
    code raised. *)
Definition one_call (P : call -> Prop) {A : Type} (r : result A)
    (cs : list (call * result value)) : Prop :=
  (cs = [] /\ exists e, r = Raise e) \/
  (exists c resp, cs = [(c, resp)] /\ P c).

(** The calls are those of the loop indices [k0], [k0 + 1], ..., at most
    [count] of them, the call of index [k] satisfying [P k]. *)
Definition call_run (P : Z -> call -> Prop) (k0 : Z) (count : nat)
    (cs : list (call * result value)) : Prop :=
  (List.length cs <= count)%nat /\
  forall i c resp, nth_error cs i = Some (c, resp) -> P (k0 + Z.of_nat i) c.

(** The tile of index [k] of an acquisition carries the id
    [f"TILE{acquisition_id}{k+1:05d}"]. *)
Definition tile_id_at {R : Type} `{Host R} (acquisition : value) (k : Z) (c : call)
    : Prop :=
  exists aid tile a1,
    c = AddTile aid tile /\
    getitem acquisition "acquisition_id" = Ok a1 /\
    lookup "tile_id" tile = Some (VStr ("TILE" +++ py_str a1 +++ format_0d 5 (k + 1))).

(** The block of index [i] carries the id
    [f"BLK_{specimen_id}_{i+1:03d}"]. *)
Definition block_id_at {R : Type} `{Host R} (specimen : value) (i : Z) (c : call)
    : Prop :=
  exists data sid,
    c = Create block_r data /\
    getitem specimen "specimen_id" = Ok sid /\
    lookup "block_id" data
      = Some (VStr ("BLK_" +++ py_str sid +++ "_" +++ format_0d 3 (i + 1))).

(** ** Pixel statistics of a tile *)

(** The pixel statistics of a tile are ints in the ranges they are drawn
    from. *)
Definition stats_in_range (tile : record) : Prop :=
  exists lo mean hi,
    lookup "min_value" tile = Some (VInt lo) /\
    lookup "mean_value" tile = Some (VInt mean) /\
    lookup "max_value" tile = Some (VInt hi) /\
    0 <= lo <= 20 /\ 100 <= mean <= 200 /\ 200 <= hi <= 255.

Definition tile_stats (e : event) : Prop :=
  match e with
  | Called (AddTile _ tile) _ => stats_in_range tile
  | _ => True
  end.

(** [a] with another overlap. *)
Definition with_overlap (a : args) (o : spec_float) : args := {|
  tile_size := tile_size a;
  overlap := o;
  stage_size := stage_size a;
  num_blocks := num_blocks a;
  cutting_sessions_per_block := cutting_sessions_per_block a;
  sections_per_session := sections_per_session a;
  rois_per_imaging_session := rois_per_imaging_session a
|}.

(** ** Counting while running *)

(** With [n0] calls of kind [k] made before, the value the code returns
    satisfies [Q] with the number of calls of kind [k] made when it ends. *)
Definition counting (k : kind) (n0 : Z) {A : Type} (Q : A -> Z -> Prop)
    (r : result A) (ev : list event) : Prop :=
  forall a, r = Ok a -> Q a (n0 + count_kind k (calls_of ev)).

Definition not_kind (k : kind) (e : event) : Prop :=
  match e with
  | Called c _ => kind_eqb k (kind_of c) = false
  | _ => True
  end.

(** The three figures of the summary that count records: blocks, ROIs and
    imaging sessions. *)
Definition summary_figures (blocks rois sessions : Z) : list string :=
  ["Created " +++ str_of_Z blocks +++ " blocks";
   "Created " +++ str_of_Z rois +++ " ROIs";
   "Created " +++ str_of_Z sessions +++ " imaging sessions"].


(** ** Numbering of imaging sessions *)

(** [e] creates an imaging session on the medium [m]. *)
Definition is_session_on (m : string) (e : event) : bool :=
  match e with
  | Called (Create imaging_session_r data) _ =>
      match lookup "media_id" data with
      | Some (VStr m') => String.eqb m' m
      | _ => false
      end
  | _ => false
  end.

(** The number of imaging sessions created on the medium [m] in [ev]. *)
Definition sessions_on (m : string) (ev : list event) : Z :=
  len (filter (is_session_on m) ev).

(** The session id of [data] is the one [create_imaging_session] builds
    for the session number [n]. *)
Definition session_number_is {R : Type} `{Host R}
    (specimen : value) (n : Z) (data : record) : Prop :=
  exists sid ts rnd,
    getitem specimen "specimen_id" = Ok sid /\
    lookup "session_id" data =
      Some (VStr ("IMS_" +++ py_str sid +++ "_" +++ format_0d 3 n
                    +++ "_" +++ ts +++ "_" +++ rnd)).

(** After the events [pre], an imaging session created by [e] carries the
    next number of its medium. *)
Definition session_ok {R : Type} `{Host R}
    (specimen : value) (pre : list event) (e : event) : Prop :=
  match e with
  | Called (Create imaging_session_r data) _ =>
      exists m, lookup "media_id" data = Some (VStr m) /\
                session_number_is specimen (sessions_on m pre + 1) data
  | _ => True
  end.

Fixpoint numbered {R : Type} `{Host R}
    (specimen : value) (pre ev : list event) : Prop :=
  match ev with
  | [] => True
  | e :: ev' => session_ok specimen pre e /\ numbered specimen (pre ++ [e]) ev'
  end.

(** After the events [pre], the events of the code are [numbered] and the
    value it returns satisfies [Q] with all the events so far. *)
Definition numbering {R : Type} `{Host R} (specimen : value) (pre : list event)
    {A : Type} (Q : A -> list event -> Prop)
    (r : result A) (ev : list event) : Prop :=
  numbered specimen pre ev /\ forall a, r = Ok a -> Q a (pre ++ ev).

(** [session_counters] holds, for each medium it knows, the number of
    imaging sessions created on it in [pre]. *)
Definition counts_match (d : counters) (pre : list event) : Prop :=
  forall m c, counter_get m d = Ok c -> c = sessions_on m pre.

Definition all_zero (d : counters) : Prop :=
  forall m c, counter_get m d = Ok c -> c = 0.

(** ** The media of a block *)





(** ** Rounded floats *)

Definition max_float_Z : Z := (2 ^ 53 - 1) * 2 ^ 971.

(** what a rounded result can be: its sign is the one asked for, a finite
    mantissa fits in 53 bits and its exponent is at most 971 *)
Definition rounded (s : bool) (f : spec_float) : Prop :=
  match f with
  | S754_zero s' | S754_infinity s' => s' = s
  | S754_finite s' m e => s' = s /\ Zpos m < 2 ^ 53 /\ e <= 971
  | S754_nan => False
  end.

Definition with_sign (s : bool) (f : spec_float) : spec_float :=
  match f with
  | S754_zero _ => S754_zero s
  | S754_infinity _ => S754_infinity s
  | S754_finite _ m e => S754_finite s m e
  | S754_nan => S754_nan
  end.

(** ** Decimal digits *)

Definition is_digit (c : ascii) : bool :=
  match uint_of_char c (Some Nil) with Some _ => true | None => false end.

Fixpoint all_digits (s : string) : bool :=
  match s with
  | EmptyString => true
  | String c s' => is_digit c && all_digits s'
  end.

(** * Properties *)

(** ** Binary64 arithmetic *)

Lemma digits2_iter_xO (m : positive) (k : positive) :
  Zpos (digits2_pos (Pos.iter xO m k)) = Zpos (digits2_pos m) + Zpos k.
Proof.
  induction k using Pos.peano_ind.
  - cbn. lia.
  - rewrite Pos.iter_succ. cbn [digits2_pos]. lia.
Qed.

Lemma digits2_pos_bound (m : positive) : Zpos m < 2 ^ Zpos (digits2_pos m).
Proof.
  induction m as [m IH | m IH | ]; cbn [digits2_pos].
  - rewrite Pos2Z.inj_succ, Z.pow_succ_r by lia. lia.
  - rewrite Pos2Z.inj_succ, Z.pow_succ_r by lia. lia.
  - cbn. lia.
Qed.

Lemma digits2_pos_le (m : positive) (n : Z) :
  0 <= n -> Zpos m < 2 ^ n -> Zpos (digits2_pos m) <= n.
Proof.
  revert n. induction m as [m IH | m IH | ]; intros n Hn Hlt; cbn [digits2_pos].
  - assert (n <> 0) by (intros ->; cbn in Hlt; lia).
    replace n with (Z.succ (n - 1)) in Hlt by lia.
    rewrite Z.pow_succ_r in Hlt by lia.
    specialize (IH (n - 1)). lia.
  - assert (n <> 0) by (intros ->; cbn in Hlt; lia).
    replace n with (Z.succ (n - 1)) in Hlt by lia.
    rewrite Z.pow_succ_r in Hlt by lia.
    specialize (IH (n - 1)). lia.
  - assert (n <> 0) by (intros ->; cbn in Hlt; lia). lia.
Qed.

Lemma binary_round_exact (s : bool) (m : positive) (e : Z) :
  Zpos (digits2_pos m) = 53 -> -1074 <= e <= 971 ->
  binary_round_aux 53 1024 s (Zpos m) e loc_Exact = S754_finite s m e.
Proof.
  intros Hd He.
  unfold binary_round_aux, shr_fexp, Zdigits2.
  rewrite Hd.
  replace (fexp 53 1024 (53 + e) - e) with 0 by (unfold fexp, emin; lia).
  cbn [shr shr_record_of_loc shr_m loc_of_shr_record round_nearest_even].
  rewrite Hd.
  replace (fexp 53 1024 (53 + e) - e) with 0 by (unfold fexp, emin; lia).
  cbn [shr shr_record_of_loc shr_m].
  destruct (Z.leb_spec e (1024 - 53)); [reflexivity | lia].
Qed.

Lemma of_Z_small_pos (s : bool) (m : positive) :
  Zpos m < 2 ^ 53 ->
  exists m' e', binary_round 53 1024 s m 0 = S754_finite s m' e'.
Proof.
  intros Hm.
  pose proof (digits2_pos_le m 53 ltac:(lia) Hm) as Hd.
  unfold binary_round.
  replace (fexp 53 1024 (Zpos (digits2_pos m) + 0)) with (Zpos (digits2_pos m) - 53)
    by (unfold fexp, emin; lia).
  unfold shl_align.
  destruct (Zpos (digits2_pos m) - 53 - 0) as [ | p | p] eqn:E.
  - eexists _, _. apply binary_round_exact; lia.
  - lia.
  - eexists _, _. apply binary_round_exact.
    + rewrite digits2_iter_xO. lia.
    + lia.
Qed.

Lemma float_of_int_small (z : Z) :
  Z.abs z < 2 ^ 53 -> exists f, float_of_int z = Ok f.
Proof.
  intros Hz. unfold float_of_int, F64.of_Z, binary_normalize, F64.prec, F64.emax.
  destruct z as [ | m | m].
  - eexists; reflexivity.
  - destruct (of_Z_small_pos false m) as (m' & e' & ->); [lia | eexists; reflexivity].
  - destruct (of_Z_small_pos true m) as (m' & e' & ->); [lia | eexists; reflexivity].
Qed.

(** shifting *)
Lemma shr_1_m (x : shr_record) : 0 <= shr_m x -> shr_m (shr_1 x) = shr_m x / 2.
Proof.
  destruct x as [m r s]. cbn [shr_m]. intros Hm.
  destruct m as [ | [p | p | ] | p]; cbn [shr_1 shr_m].
  - reflexivity.
  - apply Z.div_unique with (r := 1); lia.
  - apply Z.div_unique with (r := 0); lia.
  - reflexivity.
  - lia.
Qed.

Lemma shr_iter_m (p : positive) :
  forall x, 0 <= shr_m x -> shr_m (iter_pos shr_1 p x) = shr_m x / 2 ^ Zpos p.
Proof.
  induction p as [p IH | p IH | ]; intros x Hx; cbn [iter_pos].
  - assert (H1 : 0 <= shr_m (shr_1 x)) by (rewrite shr_1_m by lia; apply Z.div_pos; lia).
    assert (H2 : 0 <= shr_m (iter_pos shr_1 p (shr_1 x))).
    { rewrite IH by lia. apply Z.div_pos; lia. }
    rewrite IH, IH, shr_1_m by lia.
    replace (2 ^ Zpos p~1) with (2 * 2 ^ Zpos p * 2 ^ Zpos p).
    + rewrite <- !Z.div_div by lia. reflexivity.
    + replace (Zpos p~1) with (Zpos p + Zpos p + 1) by lia.
      rewrite !Z.pow_add_r by lia. change (2 ^ 1) with 2. ring.
  - assert (H2 : 0 <= shr_m (iter_pos shr_1 p x)).
    { rewrite IH by lia. apply Z.div_pos; lia. }
    rewrite IH, IH by lia.
    replace (2 ^ Zpos p~0) with (2 ^ Zpos p * 2 ^ Zpos p).
    + rewrite <- !Z.div_div by lia. reflexivity.
    + rewrite <- Z.pow_add_r by lia. f_equal. lia.
  - rewrite shr_1_m by lia. reflexivity.
Qed.

Lemma shr_m_spec (x : shr_record) (e n : Z) :
  0 <= shr_m x ->
  shr_m (fst (shr x e n)) = shr_m x / 2 ^ Z.max 0 n /\ snd (shr x e n) = e + Z.max 0 n.
Proof.
  intros Hx. destruct n as [ | p | p]; cbn [shr fst snd].
  - change (Z.max 0 0) with 0. change (2 ^ 0) with 1. rewrite Z.div_1_r. lia.
  - rewrite shr_iter_m by lia. replace (Z.max 0 (Zpos p)) with (Zpos p) by lia. lia.
  - change (Z.max 0 (Zneg p)) with 0. change (2 ^ 0) with 1. rewrite Z.div_1_r. lia.
Qed.

Lemma shr_record_of_loc_m (m : Z) (l : location) : shr_m (shr_record_of_loc m l) = m.
Proof. destruct l as [ | [ | | ]]; reflexivity. Qed.

Lemma Zdigits2_bound (m : Z) : 0 <= m -> m < 2 ^ Zdigits2 m /\ 0 <= Zdigits2 m.
Proof.
  intros Hm. destruct m as [ | p | p]; cbn [Zdigits2].
  - cbn. lia.
  - split; [apply digits2_pos_bound | lia].
  - lia.
Qed.

(** the mantissa that [shr_fexp] leaves fits in 53 bits *)
Lemma shr_fexp_spec (m e : Z) (l : location) :
  0 <= m ->
  let k := Z.max 0 (fexp 53 1024 (Zdigits2 m + e) - e) in
  shr_m (fst (shr_fexp 53 1024 m e l)) = m / 2 ^ k /\
  snd (shr_fexp 53 1024 m e l) = e + k /\
  0 <= m / 2 ^ k < 2 ^ 53.
Proof.
  intros Hm k. unfold shr_fexp.
  destruct (shr_m_spec (shr_record_of_loc m l) e (fexp 53 1024 (Zdigits2 m + e) - e))
    as [E1 E2]; [rewrite shr_record_of_loc_m; lia | ].
  rewrite shr_record_of_loc_m in E1. fold k in E1, E2.
  split; [exact E1 | split; [exact E2 | ]].
  destruct (Zdigits2_bound m Hm) as [Hb Hd].
  split; [apply Z.div_pos; lia | ].
  apply Z.div_lt_upper_bound; [lia | ].
  assert (Hk : Zdigits2 m - 53 <= k) by (unfold k, fexp, emin; lia).
  rewrite <- Z.pow_add_r by lia.
  eapply Z.lt_le_trans; [exact Hb | ].
  apply Z.pow_le_mono_r; lia.
Qed.

Lemma round_nearest_even_cases (m : Z) (l : location) :
  round_nearest_even m l = m \/ round_nearest_even m l = m + 1.
Proof.
  destruct l as [ | [ | | ]]; cbn [round_nearest_even]; auto.
  destruct (Z.even m); auto.
Qed.

(** shape of every rounded result *)
Lemma binary_round_aux_cases (s : bool) (m e : Z) (l : location) :
  0 <= m ->
  exists m1 m2 e2,
    let k1 := Z.max 0 (fexp 53 1024 (Zdigits2 m + e) - e) in
    let k2 := Z.max 0 (fexp 53 1024 (Zdigits2 m1 + (e + k1)) - (e + k1)) in
    (m1 = m / 2 ^ k1 \/ m1 = m / 2 ^ k1 + 1) /\
    m2 = m1 / 2 ^ k2 /\ e2 = e + k1 + k2 /\ 0 <= m2 < 2 ^ 53 /\
    binary_round_aux 53 1024 s m e l =
      match m2 with
      | Z0 => S754_zero s
      | Zpos p => if e2 <=? 1024 - 53 then S754_finite s p e2 else S754_infinity s
      | Zneg _ => S754_nan
      end.
Proof.
  intros Hm. unfold binary_round_aux.
  destruct (shr_fexp_spec m e l Hm) as (E1 & E2 & B1).
  destruct (shr_fexp 53 1024 m e l) as [mrs' e'] eqn:S1. cbn [fst snd] in E1, E2.
  set (m1 := round_nearest_even (shr_m mrs') (loc_of_shr_record mrs')).
  assert (Hm1 : m1 = m / 2 ^ Z.max 0 (fexp 53 1024 (Zdigits2 m + e) - e) \/
                m1 = m / 2 ^ Z.max 0 (fexp 53 1024 (Zdigits2 m + e) - e) + 1).
  { unfold m1. rewrite <- E1. apply round_nearest_even_cases. }
  assert (Hm1' : 0 <= m1) by lia.
  destruct (shr_fexp_spec m1 e' loc_Exact Hm1') as (F1 & F2 & B2).
  destruct (shr_fexp 53 1024 m1 e' loc_Exact) as [mrs'' e''] eqn:S2. cbn [fst snd] in F1, F2.
  exists m1, (shr_m mrs''), e''. cbn zeta. subst e'.
  repeat split; try assumption; try lia.
Qed.

Lemma digits2_pos_lower (m : positive) : 2 ^ (Zpos (digits2_pos m) - 1) <= Zpos m.
Proof.
  induction m as [m IH | m IH | ]; cbn [digits2_pos].
  - rewrite Pos2Z.inj_succ. replace (Z.succ (Zpos (digits2_pos m)) - 1)
      with (Z.succ (Zpos (digits2_pos m) - 1)) by lia.
    rewrite Z.pow_succ_r by lia. lia.
  - rewrite Pos2Z.inj_succ. replace (Z.succ (Zpos (digits2_pos m)) - 1)
      with (Z.succ (Zpos (digits2_pos m) - 1)) by lia.
    rewrite Z.pow_succ_r by lia. lia.
  - cbn. lia.
Qed.

Lemma Zdigits2_le (m n : Z) : 0 <= m -> 0 <= n -> m < 2 ^ n -> Zdigits2 m <= n.
Proof.
  intros Hm Hn Hlt. destruct m as [ | p | p]; cbn [Zdigits2]; try lia.
  now apply digits2_pos_le.
Qed.


(** every integer below the largest float converts without overflow *)
Lemma binary_round_below_max (s : bool) (m : positive) :
  Zpos m < max_float_Z ->
  exists m' e', binary_round 53 1024 s m 0 = S754_finite s m' e'.
Proof.
  intros Hlt.
  destruct (Z.lt_ge_cases (Zpos m) (2 ^ 53)) as [Hs | Hl].
  { now apply of_Z_small_pos. }
  set (d := Zpos (digits2_pos m)).
  assert (Hd1 : 54 <= d).
  { pose proof (digits2_pos_bound m) as Hb. fold d in Hb.
    destruct (Z.lt_ge_cases d 54) as [Hc | Hc]; [ | lia].
    assert (2 ^ d <= 2 ^ 53) by (apply Z.pow_le_mono_r; lia). lia. }
  assert (Hd2 : d <= 1024).
  { apply digits2_pos_le; [lia | ]. unfold max_float_Z in Hlt.
    assert (2 ^ 1024 = 2 ^ 53 * 2 ^ 971) by (rewrite <- Z.pow_add_r by lia; reflexivity).
    assert (0 < 2 ^ 971) by (apply Z.pow_pos_nonneg; lia). nia. }
  unfold binary_round.
  replace (fexp 53 1024 (Zpos (digits2_pos m) + 0)) with (d - 53)
    by (unfold fexp, emin, d; lia).
  unfold shl_align.
  destruct (d - 53 - 0) as [ | p | p] eqn:E; try lia.
  destruct (binary_round_aux_cases s (Zpos m) 0 loc_Exact ltac:(lia))
    as (m1 & m2 & e2 & Hm1 & Hm2 & He2 & Hb & ->).
  cbn [Zdigits2] in Hm1, Hm2, He2. fold d in Hm1, Hm2, He2.
  replace (Z.max 0 (fexp 53 1024 (d + 0) - 0)) with (d - 53) in *
    by (unfold fexp, emin; lia).
  set (m' := Zpos m / 2 ^ (d - 53)) in *.
  assert (Hlow : 2 ^ 52 <= m').
  { unfold m'. apply Z.div_le_lower_bound; [apply Z.pow_pos_nonneg; lia | ].
    rewrite <- Z.pow_add_r by lia. replace (d - 53 + 52) with (d - 1) by lia.
    apply digits2_pos_lower. }
  assert (Hup : m' < 2 ^ 53).
  { unfold m'. apply Z.div_lt_upper_bound; [apply Z.pow_pos_nonneg; lia | ].
    rewrite <- Z.pow_add_r by lia. replace (d - 53 + 53) with d by lia.
    apply digits2_pos_bound. }
  assert (Hm1pos : 0 < m1) by lia.
  assert (Hdm1 : Zdigits2 m1 <= 54).
  { apply Zdigits2_le; lia. }
  assert (Hk2 : Z.max 0 (fexp 53 1024 (Zdigits2 m1 + (0 + (d - 53))) - (0 + (d - 53))) <= 1)
    by (unfold fexp, emin; lia).
  assert (Hm2pos : 0 < m2).
  { subst m2. apply Z.div_str_pos. split; [apply Z.pow_pos_nonneg; lia | ].
    eapply Z.le_trans with (2 ^ 1); [apply Z.pow_le_mono_r; lia | ].
    change (2 ^ 1) with 2. change (2 ^ 52) with 4503599627370496 in Hlow. lia. }
  destruct m2 as [ | p2 | p2]; try lia.
  assert (He : e2 <= 1024 - 53).
  { destruct (Z.eq_dec d 1024) as [Ed | Ed]; [ | lia].
    assert (Hm' : m' < 2 ^ 53 - 1).
    { unfold m'. rewrite Ed. apply Z.div_lt_upper_bound; [apply Z.pow_pos_nonneg; lia | ].
      unfold max_float_Z in Hlt. replace (1024 - 53) with 971 by lia. lia. }
    assert (Hd53 : Zdigits2 m1 <= 53) by (apply Zdigits2_le; lia).
    unfold fexp, emin in He2. lia. }
  destruct (Z.leb_spec e2 (1024 - 53)); [ | lia].
  eexists _, _. reflexivity.
Qed.

Lemma float_of_int_below_max (z : Z) :
  Z.abs z < max_float_Z -> exists f, float_of_int z = Ok f.
Proof.
  intros Hz. unfold float_of_int, F64.of_Z, binary_normalize, F64.prec, F64.emax.
  destruct z as [ | m | m].
  - eexists; reflexivity.
  - destruct (binary_round_below_max false m) as (m' & e' & ->); [lia | eexists; reflexivity].
  - destruct (binary_round_below_max true m) as (m' & e' & ->); [lia | eexists; reflexivity].
Qed.


Lemma binary_round_aux_rounded (s : bool) (m e : Z) (l : location) :
  0 <= m -> rounded s (binary_round_aux 53 1024 s m e l).
Proof.
  intros Hm.
  destruct (binary_round_aux_cases s m e l Hm) as (m1 & m2 & e2 & _ & _ & _ & Hb & ->).
  destruct m2 as [ | p | p]; cbn [rounded].
  - reflexivity.
  - destruct (Z.leb_spec e2 (1024 - 53)); cbn [rounded]; [ | reflexivity].
    repeat split; lia.
  - lia.
Qed.




Lemma div_core_nonneg (m1 : positive) (e1 : Z) (m2 : positive) (e2 : Z) :
  0 <= fst (fst (SFdiv_core_binary 53 1024 (Zpos m1) e1 (Zpos m2) e2)).
Proof.
  unfold SFdiv_core_binary.
  set (s := e1 - e2 - _).
  set (m' := match s with Z0 => Zpos m1 | Zpos _ => Z.shiftl (Zpos m1) s | Zneg _ => 0 end).
  assert (Hm' : 0 <= m').
  { unfold m'. destruct s; try lia. apply Z.shiftl_nonneg. lia. }
  pose proof (Z_div_mod m' (Zpos m2) ltac:(lia)) as Hdm.
  destruct (Z.div_eucl m' (Zpos m2)) as [q r]. cbn [fst].
  destruct Hdm as [Hq Hr]. nia.
Qed.







Lemma binary_round_aux_sign (s s' : bool) (m e : Z) (l : location) :
  binary_round_aux 53 1024 s m e l = with_sign s (binary_round_aux 53 1024 s' m e l).
Proof.
  unfold binary_round_aux.
  destruct (shr_fexp 53 1024 m e l) as [mrs' e'].
  destruct (shr_fexp 53 1024 _ e' loc_Exact) as [mrs'' e''].
  destruct (shr_m mrs''); try reflexivity.
  destruct (e'' <=? 1024 - 53); reflexivity.
Qed.

Lemma float_of_int_opp (z : Z) (f : spec_float) :
  float_of_int z = Ok f -> exists f', float_of_int (- z) = Ok f'.
Proof.
  unfold float_of_int, F64.of_Z, F64.prec, F64.emax, binary_normalize, binary_round.
  destruct z as [ | m | m]; cbn [Z.opp].
  - intros _. eexists; reflexivity.
  - destruct (shl_align m 0 _) as [mz ez].
    rewrite (binary_round_aux_sign true false).
    destruct (binary_round_aux 53 1024 false (Zpos mz) ez loc_Exact);
      intros E; try discriminate E; eexists; reflexivity.
  - destruct (shl_align m 0 _) as [mz ez].
    rewrite (binary_round_aux_sign false true).
    destruct (binary_round_aux 53 1024 true (Zpos mz) ez loc_Exact);
      intros E; try discriminate E; eexists; reflexivity.
Qed.

(** a finite quotient has a 53-bit mantissa and an exponent of at most 971 *)
Lemma div_bounded (x y : spec_float) (s : bool) (m : positive) (e : Z) :
  F64.div x y = S754_finite s m e -> Zpos m < 2 ^ 53 /\ e <= 971.
Proof.
  unfold F64.div, F64.prec, F64.emax.
  destruct x as [sx | sx | | sx mx ex], y as [sy | sy | | sy my ey];
    cbn [SFdiv]; try discriminate.
  pose proof (div_core_nonneg mx ex my ey) as Hq.
  destruct (SFdiv_core_binary 53 1024 (Zpos mx) ex (Zpos my) ey) as [[mz ez] lz].
  cbn [fst] in Hq.
  pose proof (binary_round_aux_rounded (xorb sx sy) mz ez lz Hq) as Hr.
  intros E. rewrite E in Hr. cbn [rounded] in Hr. tauto.
Qed.

Lemma scale_down_bound (m : positive) (e : Z) :
  Zpos m < 2 ^ 53 -> e <= 971 -> 0 <= F64.scale_down (Zpos m) e <= max_float_Z.
Proof.
  intros Hm He. unfold max_float_Z.
  assert (H971 : 2 ^ 0 <= 2 ^ 971) by (apply Z.pow_le_mono_r; lia).
  change (2 ^ 0) with 1 in H971.
  destruct e as [ | p | p]; cbn [F64.scale_down].
  - nia.
  - assert (0 < 2 ^ Zpos p) by (apply Z.pow_pos_nonneg; lia).
    assert (2 ^ Zpos p <= 2 ^ 971) by (apply Z.pow_le_mono_r; lia).
    nia.
  - assert (0 < 2 ^ Zpos p) by (apply Z.pow_pos_nonneg; lia).
    assert (0 <= Zpos m / 2 ^ Zpos p) by (apply Z.div_pos; lia).
    assert (Zpos m / 2 ^ Zpos p <= Zpos m) by (apply Z.div_le_upper_bound; nia).
    nia.
Qed.

(** [tiles_per_side], when defined, is an integer a float can hold *)
Lemma tiles_per_side_bound (a : args) (n : Z) :
  tiles_per_side a = Ok n -> Z.abs n <= max_float_Z.
Proof.
  unfold tiles_per_side, stage_ratio, int_div_float.
  destruct (effective_tile_size (tile_size a) (overlap a)) as [y | ]; [ | discriminate].
  cbn [result_bind].
  destruct (float_of_int (stage_size a)) as [x | ]; [ | discriminate].
  cbn [result_bind].
  destruct (F64.is_zero y); [discriminate | ]. cbn [result_bind].
  destruct (F64.div x y) as [s | s | | s m e] eqn:E; cbn [py_int F64.trunc];
    try discriminate.
  - intros [= <-]. unfold max_float_Z. cbn. lia.
  - intros [= <-]. destruct (div_bounded _ _ _ _ _ E) as [Hm He].
    pose proof (scale_down_bound m e Hm He).
    destruct s; cbn [cond_Zopp]; lia.
Qed.

(** grid coordinates convert to floats *)
Lemma grid_index_float (a : args) (n c : Z) :
  tiles_per_side a = Ok n -> 0 <= c < n -> exists f, float_of_int c = Ok f.
Proof.
  intros Hn Hc. apply tiles_per_side_bound in Hn.
  apply float_of_int_below_max. lia.
Qed.




(** ** Decimal text *)

Lemma uint_of_char_digit (c : ascii) (d : uint) :
  is_digit c = true -> exists d', uint_of_char c (Some d) = Some d'.
Proof.
  unfold is_digit.
  destruct c as [[|] [|] [|] [|] [|] [|] [|] [|]]; cbn; intros E;
    try discriminate E; eexists; reflexivity.
Qed.

Lemma is_digit_not_minus (c : ascii) : is_digit c = true -> Ascii.eqb c "-" = false.
Proof.
  destruct c as [[|] [|] [|] [|] [|] [|] [|] [|]]; cbn; intros E;
    try discriminate E; reflexivity.
Qed.

Lemma all_digits_app (s t : string) :
  all_digits (s +++ t) = all_digits s && all_digits t.
Proof.
  induction s as [ | c s IH]; cbn; [reflexivity | ].
  rewrite IH. apply andb_assoc.
Qed.

Lemma uint_of_string_digits (s : string) :
  all_digits s = true -> exists d, NilEmpty.uint_of_string s = Some d.
Proof.
  induction s as [ | c s IH]; cbn [all_digits NilEmpty.uint_of_string].
  - intros _. eexists; reflexivity.
  - intros E. apply andb_prop in E. destruct E as [Ec Es].
    destruct (IH Es) as [d ->]. now apply uint_of_char_digit.
Qed.

Lemma int_of_str_digits (s : string) :
  s <> EmptyString -> all_digits s = true -> exists z, int_of_str s = Ok z.
Proof.
  intros Hne Hd. unfold int_of_str, NilZero.int_of_string.
  destruct s as [ | c s]; [congruence | ].
  pose proof Hd as Hd'. cbn [all_digits] in Hd'. apply andb_prop in Hd'.
  destruct Hd' as [Hc _]. rewrite (is_digit_not_minus c Hc).
  unfold NilZero.uint_of_string.
  destruct (uint_of_string_digits _ Hd) as [d ->]. eexists; reflexivity.
Qed.

Lemma string_of_uint_digits (d : uint) :
  all_digits (NilEmpty.string_of_uint d) = true.
Proof. induction d; cbn; auto. Qed.

Lemma str_of_Z_digits (z : Z) :
  0 <= z -> all_digits (str_of_Z z) = true /\ str_of_Z z <> EmptyString.
Proof.
  intros Hz. unfold str_of_Z, NilZero.string_of_int, NilZero.string_of_uint.
  destruct z as [ | p | p]; try lia.
  - cbn. split; [reflexivity | discriminate].
  - cbn [Z.to_int]. destruct (Pos.to_uint p) eqn:E.
    1: { split; [reflexivity | discriminate]. }
    all: split; [apply string_of_uint_digits | cbn; discriminate].
Qed.

Lemma zeros_digits (n : nat) : all_digits (zeros n) = true.
Proof. induction n; cbn; auto. Qed.

Lemma format_0d_digits (w : nat) (z : Z) : 0 <= z -> all_digits (format_0d w z) = true.
Proof.
  intros Hz. unfold format_0d. destruct (Z.ltb_spec z 0); [lia | ].
  unfold zfill. rewrite all_digits_app, zeros_digits.
  now destruct (str_of_Z_digits z Hz) as [-> _].
Qed.

Lemma append_not_empty (s t : string) : s <> EmptyString -> s +++ t <> EmptyString.
Proof. destruct s; [congruence | cbn; discriminate]. Qed.

(** the ROI id [int(f"{j+1}{k+1:03d}")] is always defined *)
Lemma roi_id_defined (j k : Z) :
  0 <= j -> 0 <= k ->
  exists z, int_of_str (str_of_Z (j + 1) +++ format_0d 3 (k + 1)) = Ok z.
Proof.
  intros Hj Hk.
  destruct (str_of_Z_digits (j + 1) ltac:(lia)) as [Hd Hne].
  apply int_of_str_digits.
  - now apply append_not_empty.
  - rewrite all_digits_app, Hd. apply format_0d_digits. lia.
Qed.

(** ** The program logic *)

Section Logic.
Context {R C : Type} `{Host R} `{Client C}.

Local Notation "'run_post'" := (post (R := R) (C := C)).

Lemma post_weaken {A} (m : M R C A) (Q Q' : result A -> list event -> Prop) :
  run_post m Q -> (forall r ev, Q r ev -> Q' r ev) -> run_post m Q'.
Proof. intros Hm Hq s. apply Hq, Hm. Qed.

Lemma post_ret {A} (a : A) (Q : result A -> list event -> Prop) :
  Q (Ok a) [] -> run_post (ret a) Q.
Proof. intros HQ s. exact HQ. Qed.

Lemma post_lift {A} (r : result A) (Q : result A -> list event -> Prop) :
  Q r [] -> run_post (lift r) Q.
Proof. intros HQ s. exact HQ. Qed.

Lemma post_print (line : string) (Q : result unit -> list event -> Prop) :
  Q (Ok tt) [Printed line] -> run_post (print line) Q.
Proof. intros HQ s. exact HQ. Qed.

Lemma post_request (c : call) (Q : result value -> list event -> Prop) :
  (forall r, Q r [Called c r]) -> run_post (request c) Q.
Proof.
  intros HQ s. unfold request. destruct (serve c (snd s)) as [r c']. apply HQ.
Qed.

Lemma post_request_ok (c : call) (Q : result value -> list event -> Prop) :
  well_behaved_client ->
  (forall v, answers c v -> Q (Ok v) [Called c (Ok v)]) -> run_post (request c) Q.
Proof.
  intros Hwb HQ s. unfold request.
  destruct (Hwb c (snd s)) as (v & Hv & Ha).
  destruct (serve c (snd s)) as [r c']. cbn [fst] in Hv. subst r. cbn. now apply HQ.
Qed.

Lemma post_randint (a b : Z) (Q : result Z -> list event -> Prop) :
  (forall v, Q (Ok v) [Drew (Randint a b) (VInt v)]) -> run_post (random_randint a b) Q.
Proof.
  intros HQ s. unfold random_randint. destruct (randint a b (fst s)). apply HQ.
Qed.

Lemma post_randint_ok (a b : Z) (Q : result Z -> list event -> Prop) :
  well_behaved_host -> a <= b ->
  (forall v, a <= v <= b -> Q (Ok v) [Drew (Randint a b) (VInt v)]) ->
  run_post (random_randint a b) Q.
Proof.
  intros Hwb Hab HQ s. unfold random_randint.
  pose proof (Hwb a b (fst s) Hab) as Hr.
  destruct (randint a b (fst s)). now apply HQ.
Qed.

Lemma post_uniform (a b : value) (Q : result spec_float -> list event -> Prop) :
  (forall v, Q (Ok v) [Drew (Uniform a b) (VFloat v)]) -> run_post (random_uniform a b) Q.
Proof.
  intros HQ s. unfold random_uniform. destruct (uniform a b (fst s)). apply HQ.
Qed.

Lemma post_gauss (mu sigma : value) (Q : result spec_float -> list event -> Prop) :
  (forall v, Q (Ok v) [Drew (Gauss mu sigma) (VFloat v)]) ->
  run_post (random_gauss mu sigma) Q.
Proof.
  intros HQ s. unfold random_gauss. destruct (gauss mu sigma (fst s)). apply HQ.
Qed.

Lemma post_choices (p : string) (k : nat) (Q : result string -> list event -> Prop) :
  (forall v, Q (Ok v) [Drew (Choices p k) (VStr v)]) -> run_post (random_choices p k) Q.
Proof.
  intros HQ s. unfold random_choices. destruct (choices p k (fst s)). apply HQ.
Qed.

Lemma post_now (Q : result Z -> list event -> Prop) :
  (forall t, Q (Ok t) [Drew Now (VInt t)]) -> run_post datetime_now Q.
Proof.
  intros HQ s. unfold datetime_now. destruct (now (fst s)). apply HQ.
Qed.

Lemma post_bind {A B} (m : M R C A) (k : A -> M R C B)
    (Q : result B -> list event -> Prop) :
  run_post m (fun r1 ev1 =>
            match r1 with
            | Ok a => run_post (k a) (fun r2 ev2 => Q r2 (ev1 ++ ev2))
            | Raise e => Q (Raise e) ev1
            end) ->
  run_post (bind m k) Q.
Proof.
  intros Hm s. unfold bind. specialize (Hm s).
  destruct (m s) as [[[a | e] s1] ev1]; cbn in Hm |- *.
  - specialize (Hm s1). destruct (k a s1) as [[r2 s2] ev2]. exact Hm.
  - exact Hm.
Qed.

(** What [post] says about one run. *)
Lemma post_run {A} (m : M R C A) (Q : result A -> list event -> Prop) (s : R * C) :
  run_post m Q -> exists r s' ev, m s = (r, s', ev) /\ Q r ev.
Proof.
  intros Hm. specialize (Hm s). destruct (m s) as [[r s'] ev].
  exists r, s', ev. split; [reflexivity | exact Hm].
Qed.

End Logic.

Lemma calls_of_app (ev1 ev2 : list event) :
  calls_of (ev1 ++ ev2) = calls_of ev1 ++ calls_of ev2.
Proof. apply flat_map_app. Qed.

Lemma draws_of_app (ev1 ev2 : list event) :
  draws_of (ev1 ++ ev2) = draws_of ev1 ++ draws_of ev2.
Proof. apply flat_map_app. Qed.

Lemma printed_of_app (ev1 ev2 : list event) :
  printed_of (ev1 ++ ev2) = printed_of ev1 ++ printed_of ev2.
Proof. apply flat_map_app. Qed.

(** ** C4: focus scores *)

Lemma ltb_leb (x y : spec_float) : F64.ltb x y = true -> F64.leb x y = true.
Proof.
  unfold F64.ltb, F64.leb, SFltb, SFleb.
  destruct (SFcompare x y) as [[ | | ] | ]; intros E; congruence.
Qed.

Lemma clamp_in_range (g : spec_float) :
  in_score_range (py_max (VInt 0) (py_min (VInt 24) (VFloat g))).
Proof.
  unfold py_min, py_max. cbn [value_gt].
  destruct (F64.ltb g (F64.of_Z 24)) eqn:E24; cbn [value_gt].
  - destruct (F64.ltb (F64.of_Z 0) g) eqn:E0; cbn.
    + split; now apply ltb_leb.
    + lia.
  - cbn. lia.
Qed.

Section FocusScore.
Context {R C : Type} `{Host R} `{Client C}.

(** C4.  Whatever the base score, the variation and the sample the Gaussian
    source returns (infinities and NaN included), [generate_focus_score]
    returns a value in the closed interval [[0, 24]]. *)
Theorem generate_focus_score_in_range (base_score variation : value) (s : R * C) :
  exists v s' ev,
    generate_focus_score base_score variation s = (Ok v, s', ev) /\
    in_score_range v.
Proof.
  unfold generate_focus_score, bind, random_gauss, ret.
  destruct (gauss base_score variation (fst s)) as [g r'].
  eexists _, _, _. split; [reflexivity | apply clamp_in_range].
Qed.

End FocusScore.

(** ** Runs that cannot fail *)

Section Total.
Context {R C : Type} `{Host R} `{Client C}.
Hypothesis client_ok : well_behaved_client.
Hypothesis host_ok : well_behaved_host.

Local Notation "'run_post'" := (post (R := R) (C := C)).

Lemma ok_ret {A} (a : A) (Q : A -> list (call * result value) -> Prop) :
  Q a [] -> run_post (ret a) (ok_with Q).
Proof. intros HQ. apply post_ret. exists a. split; [reflexivity | exact HQ]. Qed.

Lemma ok_weaken {A} (m : M R C A) (P Q : A -> list (call * result value) -> Prop) :
  run_post m (ok_with P) -> (forall a cs, P a cs -> Q a cs) -> run_post m (ok_with Q).
Proof.
  intros Hm HPQ. eapply post_weaken; [exact Hm | ].
  intros r ev (a & -> & HP). exists a. split; [reflexivity | now apply HPQ].
Qed.

Lemma ok_bind {A B} (m : M R C A) (k : A -> M R C B)
    (P : A -> list (call * result value) -> Prop)
    (Q : B -> list (call * result value) -> Prop) :
  run_post m (ok_with P) ->
  (forall a cs1, P a cs1 -> run_post (k a) (ok_with (fun b cs2 => Q b (cs1 ++ cs2)))) ->
  run_post (bind m k) (ok_with Q).
Proof.
  intros Hm Hk. apply post_bind. eapply post_weaken; [exact Hm | ].
  intros r ev1 (a & -> & HP). eapply post_weaken; [exact (Hk a _ HP) | ].
  intros r2 ev2 (b & -> & HQ). exists b. split; [reflexivity | ].
  now rewrite calls_of_app.
Qed.

Lemma ok_lift {A B} (r : result A) (a : A) (k : A -> M R C B)
    (Q : B -> list (call * result value) -> Prop) :
  r = Ok a -> run_post (k a) (ok_with Q) -> run_post (bind (lift r) k) (ok_with Q).
Proof.
  intros -> Hk. apply post_bind, post_lift. eapply post_weaken; [exact Hk | ].
  intros r2 ev2 HQ. exact HQ.
Qed.

Lemma ok_print {B} (line : string) (k : unit -> M R C B)
    (Q : B -> list (call * result value) -> Prop) :
  run_post (k tt) (ok_with Q) -> run_post (bind (print line) k) (ok_with Q).
Proof.
  intros Hk. apply post_bind, post_print. eapply post_weaken; [exact Hk | ].
  intros r2 ev2 HQ. exact HQ.
Qed.

Lemma ok_uniform {B} (a b : value) (k : spec_float -> M R C B)
    (Q : B -> list (call * result value) -> Prop) :
  (forall v, run_post (k v) (ok_with Q)) ->
  run_post (bind (random_uniform a b) k) (ok_with Q).
Proof.
  intros Hk. apply post_bind, post_uniform. intros v.
  eapply post_weaken; [exact (Hk v) | ]. intros r2 ev2 HQ. exact HQ.
Qed.

Lemma ok_gauss {B} (a b : value) (k : spec_float -> M R C B)
    (Q : B -> list (call * result value) -> Prop) :
  (forall v, run_post (k v) (ok_with Q)) ->
  run_post (bind (random_gauss a b) k) (ok_with Q).
Proof.
  intros Hk. apply post_bind, post_gauss. intros v.
  eapply post_weaken; [exact (Hk v) | ]. intros r2 ev2 HQ. exact HQ.
Qed.

Lemma ok_choices {B} (p : string) (n : nat) (k : string -> M R C B)
    (Q : B -> list (call * result value) -> Prop) :
  (forall v, run_post (k v) (ok_with Q)) ->
  run_post (bind (random_choices p n) k) (ok_with Q).
Proof.
  intros Hk. apply post_bind, post_choices. intros v.
  eapply post_weaken; [exact (Hk v) | ]. intros r2 ev2 HQ. exact HQ.
Qed.

Lemma ok_now {B} (k : Z -> M R C B) (Q : B -> list (call * result value) -> Prop) :
  (forall t, run_post (k t) (ok_with Q)) -> run_post (bind datetime_now k) (ok_with Q).
Proof.
  intros Hk. apply post_bind, post_now. intros v.
  eapply post_weaken; [exact (Hk v) | ]. intros r2 ev2 HQ. exact HQ.
Qed.

Lemma ok_randint {B} (a b : Z) (k : Z -> M R C B)
    (Q : B -> list (call * result value) -> Prop) :
  a <= b ->
  (forall v, a <= v <= b -> run_post (k v) (ok_with Q)) ->
  run_post (bind (random_randint a b) k) (ok_with Q).
Proof.
  intros Hab Hk. apply post_bind. apply (post_randint_ok a b _ host_ok Hab). intros v Hv.
  eapply post_weaken; [exact (Hk v Hv) | ]. intros r2 ev2 HQ. exact HQ.
Qed.

Lemma ok_randint_any {B} (a b : Z) (k : Z -> M R C B)
    (Q : B -> list (call * result value) -> Prop) :
  (forall v, run_post (k v) (ok_with Q)) ->
  run_post (bind (random_randint a b) k) (ok_with Q).
Proof.
  intros Hk. apply post_bind, post_randint. intros v.
  eapply post_weaken; [exact (Hk v) | ]. intros r2 ev2 HQ. exact HQ.
Qed.

Lemma ok_request {B} (c : call) (k : value -> M R C B)
    (Q : B -> list (call * result value) -> Prop) :
  (forall v, answers c v ->
             run_post (k v) (ok_with (fun b cs => Q b ((c, Ok v) :: cs)))) ->
  run_post (bind (request c) k) (ok_with Q).
Proof.
  intros Hk. apply post_bind. apply (post_request_ok c _ client_ok). intros v Hv.
  eapply post_weaken; [exact (Hk v Hv) | ]. intros r2 ev2 (b & -> & HQ).
  exists b. split; [reflexivity | exact HQ].
Qed.


(** *** Creating the records of the cutting phase *)

Ltac echoed Ha k x Hx :=
  match type of Ha with
  | echoes _ _ => destruct (Ha k _ eq_refl) as [x Hx]
  | echoes _ _ /\ _ => destruct (proj1 Ha k _ eq_refl) as [x Hx]
  end.

Ltac lift_key Hx := eapply ok_lift; [exact Hx | ].

Lemma create_specimen_ok :
  run_post create_specimen
    (ok_with (fun v cs =>
       (exists data, cs = [(Create specimen_r data, Ok v)]) /\
       has_key "specimen_id" v /\ has_key "_id" v)).
Proof.
  unfold create_specimen.
  apply ok_randint_any; intros n.
  apply ok_randint_any; intros d.
  apply ok_now; intros t.
  apply ok_request; intros v Ha; cbn [answers] in Ha.
  echoed Ha "specimen_id" x Hx.
  lift_key Hx. apply ok_print. apply ok_ret.
  split; [eexists; reflexivity | ].
  split; [eexists; exact Hx | exact (proj2 Ha)].
Qed.

Lemma create_block_ok (specimen : value) (i : Z) :
  has_key "specimen_id" specimen ->
  run_post (create_block specimen i)
    (ok_with (fun v cs =>
       (exists data, cs = [(Create block_r data, Ok v)]) /\
       has_key "block_id" v /\ has_key "_id" v)).
Proof.
  intros [sid Hsid]. unfold create_block.
  lift_key Hsid. lift_key Hsid.
  apply ok_uniform; intros res.
  apply ok_request; intros v Ha; cbn [answers] in Ha.
  echoed Ha "block_id" x Hx.
  lift_key Hx. apply ok_print. apply ok_ret.
  split; [eexists; reflexivity | ].
  split; [eexists; exact Hx | exact (proj2 Ha)].
Qed.

Lemma create_cutting_session_ok (block : value) (session_number : Z) :
  has_key "block_id" block ->
  run_post (create_cutting_session block session_number)
    (ok_with (fun p cs =>
       (exists data, cs = [(Create cutting_session_r data, Ok (fst p))] /\
                     lookup "media_id" data = Some (VStr (snd p))) /\
       has_key "cutting_session_id" (fst p))).
Proof.
  intros [bid Hbid]. unfold create_cutting_session.
  lift_key Hbid. lift_key Hbid. lift_key Hbid.
  apply ok_now; intros t.
  apply ok_randint_any; intros op.
  apply ok_request; intros v Ha; cbn [answers] in Ha.
  echoed Ha "cutting_session_id" x Hx.
  lift_key Hx. apply ok_print. apply ok_ret.
  split; [eexists; split; reflexivity | eexists; exact Hx].
Qed.

Lemma create_section_ok (cutting_session : value) (n : Z) (media_id : string) :
  has_key "cutting_session_id" cutting_session ->
  run_post (create_section cutting_session n media_id)
    (ok_with (fun v cs =>
       (exists data, cs = [(Create section_r data, Ok v)]) /\
       has_key "section_id" v /\ has_key "section_number" v)).
Proof.
  intros [cid Hcid]. unfold create_section.
  lift_key Hcid. lift_key Hcid.
  apply ok_request; intros v Ha; cbn [answers] in Ha.
  echoed Ha "section_id" x Hx.
  echoed Ha "section_number" y Hy.
  lift_key Hx. apply ok_print. apply ok_ret.
  split; [eexists; reflexivity | ].
  split; eexists; eassumption.
Qed.

Lemma int_add_float_small (z : Z) (u : spec_float) :
  Z.abs z < 2 ^ 53 -> exists f, int_add_float z u = Ok f.
Proof.
  intros Hz. unfold int_add_float.
  destruct (float_of_int_small z Hz) as [f ->]. eexists; reflexivity.
Qed.

Lemma generate_jittered_roi_ok (bx by_ bw bh : Z) :
  Z.abs bx < 2 ^ 53 -> Z.abs by_ < 2 ^ 53 -> Z.abs bw < 2 ^ 53 -> Z.abs bh < 2 ^ 53 ->
  run_post (generate_jittered_roi bx by_ bw bh 5)
    (ok_with (fun rec cs =>
       cs = [] /\ has_key "aperture_width_height" (VDict rec) /\
       has_key "aperture_centroid" (VDict rec))).
Proof.
  intros Hx Hy Hw Hh. unfold generate_jittered_roi.
  apply ok_uniform; intros u1.
  destruct (int_add_float_small bx u1 Hx) as [cx Hcx]. lift_key Hcx.
  apply ok_uniform; intros u2.
  destruct (int_add_float_small by_ u2 Hy) as [cy Hcy]. lift_key Hcy.
  apply ok_uniform; intros u3.
  destruct (int_add_float_small bw u3 Hw) as [w Hcw]. lift_key Hcw.
  apply ok_uniform; intros u4.
  destruct (int_add_float_small bh u4 Hh) as [h Hch]. lift_key Hch.
  apply ok_ret. split; [reflexivity | ]. split; eexists; reflexivity.
Qed.

Lemma create_roi_ok (section : value) (roi_id : Z) (jittered_roi : record)
    (block specimen : value) :
  has_key "section_number" section -> has_key "section_id" section ->
  has_key "aperture_width_height" (VDict jittered_roi) ->
  has_key "aperture_centroid" (VDict jittered_roi) ->
  has_key "_id" specimen -> has_key "_id" block ->
  run_post (create_roi section roi_id jittered_roi block specimen)
    (ok_with (fun v cs =>
       (exists data, cs = [(Create roi_r data, Ok v)]) /\ has_key "roi_id" v)).
Proof.
  intros [sn Hsn] [sid Hsid] [wh Hwh] [ce Hce] [sp Hsp] [bl Hbl]. unfold create_roi.
  lift_key Hsn. lift_key Hwh. lift_key Hce. lift_key Hsp. lift_key Hbl.
  apply ok_request; intros v Ha; cbn [answers] in Ha.
  echoed Ha "roi_id" x Hx.
  lift_key Hx. lift_key Hsid. apply ok_print. apply ok_ret.
  split; [eexists; reflexivity | eexists; exact Hx].
Qed.

(** *** Loops *)

Lemma ok_foldM {A S : Type} (body : S -> A -> M R C S) (Pre : S -> Prop)
    (Step : S -> A -> S -> list (call * result value) -> Prop)
    (Rel : S -> list A -> S -> list (call * result value) -> Prop) (l : list A) :
  (forall acc, Rel acc [] acc []) ->
  (forall acc x l' acc1 cs1 acc2 cs2,
      Step acc x acc1 cs1 -> Rel acc1 l' acc2 cs2 ->
      Rel acc (x :: l') acc2 (cs1 ++ cs2)) ->
  (forall acc x, In x l -> Pre acc ->
      run_post (body acc x) (ok_with (fun acc1 cs1 => Step acc x acc1 cs1 /\ Pre acc1))) ->
  forall acc, Pre acc ->
    run_post (foldM body l acc) (ok_with (fun acc' cs => Rel acc l acc' cs /\ Pre acc')).
Proof.
  intros Hnil Hcons. induction l as [ | x l IH]; intros Hbody acc Hpre; cbn [foldM].
  - apply ok_ret. split; [apply Hnil | exact Hpre].
  - eapply ok_bind; [apply Hbody; [now left | exact Hpre] | ].
    intros acc1 cs1 [Hstep Hpre1]. cbn beta.
    eapply ok_weaken; [apply IH; [ | exact Hpre1] | ].
    + intros acc' x' Hin. apply Hbody. now right.
    + intros acc2 cs2 [Hrel Hpre2]. split; [ | exact Hpre2].
      eapply Hcons; eassumption.
Qed.

Lemma ok_mapM {A B : Type} (body : A -> M R C B)
    (Step : A -> B -> list (call * result value) -> Prop) (l : list A) :
  (forall x, In x l -> run_post (body x) (ok_with (Step x))) ->
  run_post (mapM body l) (ok_with (map_rel Step l)).
Proof.
  induction l as [ | x l IH]; intros Hbody; cbn [mapM].
  - apply ok_ret. constructor.
  - eapply ok_bind; [apply Hbody; now left | ].
    intros y cs1 Hstep. cbn beta.
    eapply ok_bind; [apply IH; intros x' Hin; apply Hbody; now right | ].
    intros ys cs2 Hrel. cbn beta. apply ok_ret. rewrite app_nil_r.
    now constructor.
Qed.

Lemma In_range (n k : Z) : In k (range n) -> 0 <= k < n.
Proof.
  unfold range. rewrite in_map_iff. intros (i & <- & Hi). apply in_seq in Hi. lia.
Qed.

Lemma length_range (n : Z) : len (range n) = Z.max 0 n.
Proof. unfold len, range. rewrite length_map, length_seq. lia. Qed.

(** *** The cutting phase *)

Lemma section_body_ok (specimen block cutting_session : value) (media_id : string)
    (j bx by_ bw bh : Z) (block_rois : list (value * string)) (k : Z) :
  has_key "_id" specimen -> has_key "_id" block ->
  has_key "cutting_session_id" cutting_session ->
  Z.abs bx < 2 ^ 53 -> Z.abs by_ < 2 ^ 53 -> Z.abs bw < 2 ^ 53 -> Z.abs bh < 2 ^ 53 ->
  0 <= j -> 0 <= k ->
  run_post (section_body specimen block cutting_session media_id j bx by_ bw bh
                         block_rois k)
    (ok_with (fun brs cs =>
       (exists roi, brs = block_rois ++ [(roi, media_id)] /\
                    sections_calls [roi] cs) /\ True)).
Proof.
  intros Hsp Hbl Hcs Hx Hy Hw Hh Hj Hk. unfold section_body.
  eapply ok_bind; [now apply create_section_ok | ].
  intros section cs1 ([sdata ->] & Hsid & Hsn). cbn beta.
  eapply ok_bind; [now apply generate_jittered_roi_ok | ].
  intros jroi cs2 (-> & Hwh & Hce). cbn beta.
  destruct (roi_id_defined j k Hj Hk) as [rid Hrid]. lift_key Hrid.
  eapply ok_bind; [now apply create_roi_ok | ].
  intros roi cs3 ([rdata ->] & Hroi). cbn beta.
  apply ok_ret. split; [ | exact I].
  exists roi. split; [reflexivity | ]. cbn [app].
  constructor; [exact Hroi | constructor].
Qed.

Lemma sections_loop_ok (specimen block cutting_session : value) (media_id : string)
    (j bx by_ bw bh : Z) (ks : list Z) (block_rois : list (value * string)) :
  has_key "_id" specimen -> has_key "_id" block ->
  has_key "cutting_session_id" cutting_session ->
  Z.abs bx < 2 ^ 53 -> Z.abs by_ < 2 ^ 53 -> Z.abs bw < 2 ^ 53 -> Z.abs bh < 2 ^ 53 ->
  0 <= j -> (forall k, In k ks -> 0 <= k) ->
  run_post (foldM (section_body specimen block cutting_session media_id j bx by_ bw bh)
                  ks block_rois)
    (ok_with (fun brs cs =>
       exists rois, brs = block_rois ++ map (fun roi => (roi, media_id)) rois /\
                    List.length rois = List.length ks /\ sections_calls rois cs)).
Proof.
  intros Hsp Hbl Hcs Hx Hy Hw Hh Hj Hks.
  eapply ok_weaken.
  - apply (ok_foldM _ (fun _ => True)
             (fun brs (_ : Z) brs1 cs1 =>
                exists roi, brs1 = brs ++ [(roi, media_id)] /\ sections_calls [roi] cs1)
             (fun brs ks brs' cs =>
                exists rois, brs' = brs ++ map (fun roi => (roi, media_id)) rois /\
                             List.length rois = List.length ks /\ sections_calls rois cs)).
    + intros acc. exists []. cbn. rewrite app_nil_r. repeat split. constructor.
    + intros acc x l' acc1 cs1 acc2 cs2 (roi & -> & Hs1) (rois & -> & Hlen & Hs2).
      exists (roi :: rois). cbn [map List.length]. rewrite <- app_assoc. cbn [app].
      split; [reflexivity | ]. split; [now rewrite Hlen | ].
      inversion Hs1 as [ | sdata sec rdata roi' rois' rest Hk Hnil]; subst.
      inversion Hnil; subst. cbn [app]. now constructor.
    + intros acc x Hin _. apply section_body_ok; auto.
    + exact I.
  - intros brs cs [Hrel _]. exact Hrel.
Qed.

Lemma counter_get_set_same (k : string) (v : Z) (d : counters) :
  counter_get k (counter_set k v d) = Ok v.
Proof.
  induction d as [ | [k' v'] d IH]; cbn [counter_set counter_get].
  - now rewrite String.eqb_refl.
  - destruct (String.eqb k k') eqn:E; cbn [counter_get]; rewrite E; [reflexivity | exact IH].
Qed.

Lemma has_counter_set (m k : string) (v : Z) (d : counters) :
  has_counter m d -> has_counter m (counter_set k v d).
Proof.
  unfold has_counter. induction d as [ | [k' v'] d IH]; cbn [counter_set counter_get].
  - intros [c Hc]. discriminate Hc.
  - intros [c Hc]. destruct (String.eqb k k') eqn:E; cbn [counter_get].
    + destruct (String.eqb m k'); [eexists; reflexivity | eexists; exact Hc].
    + destruct (String.eqb m k'); [eexists; reflexivity | apply IH; eexists; exact Hc].
Qed.

Lemma has_counter_init_same (k : string) (d : counters) :
  has_counter k (counter_init k d).
Proof.
  unfold counter_init, has_counter. destruct (counter_get k d) as [c | e] eqn:E.
  - eexists; exact E.
  - eexists. apply counter_get_set_same.
Qed.

Lemma has_counter_init (m k : string) (d : counters) :
  has_counter m d -> has_counter m (counter_init k d).
Proof.
  intros Hm. unfold counter_init. destruct (counter_get k d); [exact Hm | ].
  now apply has_counter_set.
Qed.

Lemma cutting_session_body_ok (a : args) (specimen block : value)
    (acc : counters * list (value * string)) (j : Z) :
  has_key "_id" specimen -> has_key "_id" block -> has_key "block_id" block ->
  0 <= j -> counted acc ->
  run_post (cutting_session_body a specimen block acc j)
    (ok_with (fun acc' cs =>
       (exists media_id rois data session rest,
           snd acc' = snd acc ++ map (fun roi => (roi, media_id)) rois /\
           len rois = Z.max 0 (sections_per_session a) /\
           cs = (Create cutting_session_r data, Ok session) :: rest /\
           lookup "media_id" data = Some (VStr media_id) /\
           sections_calls rois rest) /\
       counted acc')).
Proof.
  intros Hsp Hbl Hbid Hj Hacc. unfold cutting_session_body.
  eapply ok_bind; [now apply create_cutting_session_ok | ].
  intros [session media_id] cs1 ((data & -> & Hmid) & Hcid). cbn [fst snd] in *.
  cbn beta.
  apply ok_randint; [lia | intros bx Hbx].
  apply ok_randint; [lia | intros by_ Hby].
  apply ok_randint; [lia | intros bw Hbw].
  apply ok_randint; [lia | intros bh Hbh].
  eapply ok_bind.
  { apply sections_loop_ok; try assumption; try lia.
    intros k Hk. apply In_range in Hk. lia. }
  intros brs cs2 (rois & -> & Hlen & Hsec). cbn beta.
  apply ok_ret. cbn [fst snd]. split.
  - exists media_id, rois, data, session, cs2. rewrite app_nil_r.
    repeat split; try assumption; try reflexivity.
    pose proof (length_range (sections_per_session a)) as Hr. unfold len in *. lia.
  - intros roi m Hin. cbn [fst snd] in *. apply in_app_or in Hin.
    destruct Hin as [Hin | Hin].
    + apply has_counter_init. eapply Hacc. exact Hin.
    + apply in_map_iff in Hin. destruct Hin as (r & [= _ <-] & _).
      apply has_counter_init_same.
Qed.

Lemma cutting_loop_ok (a : args) (specimen block : value) (js : list Z)
    (acc : counters * list (value * string)) :
  has_key "_id" specimen -> has_key "_id" block -> has_key "block_id" block ->
  (forall j, In j js -> 0 <= j) -> counted acc ->
  run_post (foldM (cutting_session_body a specimen block) js acc)
    (ok_with (fun acc' cs =>
       (exists brs, snd acc' = snd acc ++ brs /\
                    cutting_calls (sections_per_session a) (List.length js) brs cs) /\
       counted acc')).
Proof.
  intros Hsp Hbl Hbid Hjs Hacc.
  apply (ok_foldM _ counted
           (fun acc (_ : Z) acc' cs =>
              exists media_id rois data session rest,
                snd acc' = snd acc ++ map (fun roi => (roi, media_id)) rois /\
                len rois = Z.max 0 (sections_per_session a) /\
                cs = (Create cutting_session_r data, Ok session) :: rest /\
                lookup "media_id" data = Some (VStr media_id) /\
                sections_calls rois rest)
           (fun acc js acc' cs =>
              exists brs, snd acc' = snd acc ++ brs /\
                          cutting_calls (sections_per_session a) (List.length js) brs cs)).
  - intros acc0. exists []. rewrite app_nil_r. split; [reflexivity | constructor].
  - intros acc0 x l' acc1 cs1 acc2 cs2
      (media_id & rois & data & session & rest & E1 & Hlen & -> & Hmid & Hsec)
      (brs & E2 & Hcut).
    exists (map (fun roi => (roi, media_id)) rois ++ brs).
    split; [rewrite E2, E1; now rewrite app_assoc | ].
    cbn [List.length app]. now constructor.
  - intros acc0 x Hin Hpre. apply cutting_session_body_ok; auto.
  - exact Hacc.
Qed.

(** *** Tiles *)

Lemma float_of_int_max (z : Z) :
  Z.abs z <= max_float_Z -> exists f, float_of_int z = Ok f.
Proof.
  intros Hz. destruct (Z.eq_dec (Z.abs z) max_float_Z) as [E | E].
  - destruct (Z.abs_eq_or_opp z) as [E' | E'].
    + rewrite E' in E. subst z. eexists. vm_compute. reflexivity.
    + assert (z = - max_float_Z) by lia. subst z. eexists. vm_compute. reflexivity.
  - apply float_of_int_below_max. lia.
Qed.

Lemma int_mul_float_ok (z : Z) (x f : spec_float) :
  float_of_int z = Ok x -> int_mul_float z f = Ok (F64.mul x f).
Proof. intros E. unfold int_mul_float. now rewrite E. Qed.

Lemma tiles_per_side_parts (a : args) (n : Z) :
  tiles_per_side a = Ok n ->
  exists eff t, effective_tile_size (tile_size a) (overlap a) = Ok eff /\
                float_of_int (tile_size a) = Ok t.
Proof.
  unfold tiles_per_side, stage_ratio.
  destruct (effective_tile_size (tile_size a) (overlap a)) as [eff | e] eqn:E;
    [ | discriminate].
  intros _. exists eff. unfold effective_tile_size, int_sub_float, int_mul_float in E.
  destruct (float_of_int 1); [ | discriminate]. cbn [result_bind] in E.
  destruct (float_of_int (tile_size a)) as [t | ]; [ | discriminate].
  exists t. split; reflexivity.
Qed.

Lemma grid_coordinates (n k : Z) :
  0 <= k < n * n -> n <> 0 /\ Z.abs (k / n) <= Z.abs n /\ Z.abs (k mod n) <= Z.abs n.
Proof.
  intros Hk. assert (Hn : n <> 0) by nia. split; [exact Hn | ].
  pose proof (Z.div_mod k n Hn) as Hdm.
  destruct (Z.lt_ge_cases 0 n) as [Hpos | Hneg].
  - pose proof (Z.mod_pos_bound k n Hpos). nia.
  - assert (Hn' : n < 0) by lia. pose proof (Z.mod_neg_bound k n Hn'). nia.
Qed.

Lemma calculate_stage_position_ok (a : args) (n row col : Z) :
  tiles_per_side a = Ok n -> Z.abs row <= Z.abs n -> Z.abs col <= Z.abs n ->
  run_post (calculate_stage_position row col (tile_size a) (overlap a))
    (ok_with (fun _ cs => cs = [])).
Proof.
  intros Hn Hrow Hcol. unfold calculate_stage_position.
  destruct (tiles_per_side_parts a n Hn) as (eff & t & Heff & Ht).
  pose proof (tiles_per_side_bound a n Hn) as Hb.
  destruct (float_of_int_max row ltac:(lia)) as [fr Hfr].
  destruct (float_of_int_max col ltac:(lia)) as [fc Hfc].
  destruct (float_of_int_opp _ _ Ht) as [t' Ht'].
  lift_key Heff.
  eapply ok_lift; [apply int_mul_float_ok; exact Hfc | ].
  eapply ok_lift; [apply int_mul_float_ok; exact Hfr | ].
  eapply ok_lift; [apply int_mul_float_ok; exact Ht' | ].
  eapply ok_lift; [apply int_mul_float_ok; exact Ht | ].
  apply ok_uniform; intros jx.
  eapply ok_lift; [apply int_mul_float_ok; exact Ht' | ].
  eapply ok_lift; [apply int_mul_float_ok; exact Ht | ].
  apply ok_uniform; intros jy.
  now apply ok_ret.
Qed.

Lemma generate_focus_score_ok (base variation : value) :
  run_post (generate_focus_score base variation) (ok_with (fun _ cs => cs = [])).
Proof.
  unfold generate_focus_score. apply ok_gauss; intros g. now apply ok_ret.
Qed.

Lemma uniform_list_ok (a b : value) :
  run_post (uniform_list a b) (ok_with (fun _ cs => cs = [])).
Proof.
  unfold uniform_list. do 4 (apply ok_uniform; intros ?). now apply ok_ret.
Qed.

Lemma generate_matcher_data_ok (row col : Z) :
  run_post (generate_matcher_data row col) (ok_with (fun _ cs => cs = [])).
Proof.
  unfold generate_matcher_data. do 7 (apply ok_uniform; intros ?).
  do 4 (eapply ok_bind; [apply uniform_list_ok | intros ? ? ->; cbn beta]).
  now apply ok_ret.
Qed.

Lemma create_tile_ok (acquisition : value) (media_id : string) (a : args)
    (base : spec_float) (n k : Z) (aid : value) :
  getitem acquisition "acquisition_id" = Ok aid ->
  tiles_per_side a = Ok n -> 0 <= k < n * n ->
  run_post (create_tile acquisition media_id a base n k)
    (ok_with (fun v cs => exists tile, cs = [(AddTile aid tile, Ok v)])).
Proof.
  intros Haid Hn Hk. unfold create_tile.
  destruct (grid_coordinates n k Hk) as (Hn0 & Hrow & Hcol).
  eapply ok_lift.
  { unfold floordiv. destruct (Z.eqb_spec n 0); [contradiction | reflexivity]. }
  eapply ok_lift.
  { unfold pymod. destruct (Z.eqb_spec n 0); [contradiction | reflexivity]. }
  eapply ok_bind; [apply generate_focus_score_ok | intros ? ? ->; cbn beta].
  eapply ok_bind; [now apply (calculate_stage_position_ok a n) | intros ? ? ->; cbn beta].
  lift_key Haid. lift_key Haid.
  apply ok_randint_any; intros ?.
  apply ok_randint_any; intros ?.
  apply ok_randint_any; intros ?.
  apply ok_uniform; intros ?.
  lift_key Haid.
  do 4 (eapply ok_bind; [apply generate_matcher_data_ok | intros ? ? ->; cbn beta]).
  lift_key Haid.
  apply ok_request; intros resp Ha; cbn [answers] in Ha.
  destruct (Ha "tile_id" _ eq_refl) as [tid Htid].
  lift_key Htid. apply ok_print. apply ok_ret. eexists; reflexivity.
Qed.

Lemma map_rel_tile_calls (aid : value) (ks : list Z) (vs : list value)
    (cs : list (call * result value)) :
  map_rel (fun (_ : Z) v cs => exists tile, cs = [(AddTile aid tile, Ok v)]) ks vs cs ->
  List.length cs = List.length ks /\
  Forall (fun cr => exists tile v, cr = (AddTile aid tile, Ok v)) cs.
Proof.
  induction 1 as [ | x y l ys cs1 cs2 [tile ->] _ [IH1 IH2]]; cbn.
  - split; [reflexivity | constructor].
  - split; [now rewrite IH1 | constructor; [now exists tile, y | exact IH2]].
Qed.

Lemma create_tiles_ok (acquisition : value) (media_id : string) (a : args)
    (n : Z) (aid : value) :
  getitem acquisition "acquisition_id" = Ok aid ->
  tiles_per_side a = Ok n ->
  run_post (create_tiles acquisition media_id a)
    (ok_with (fun _ cs => tile_calls aid n cs)).
Proof.
  intros Haid Hn. unfold create_tiles.
  apply ok_uniform; intros base. lift_key Hn.
  eapply ok_weaken.
  - apply ok_mapM with
      (Step := fun (_ : Z) v cs => exists tile, cs = [(AddTile aid tile, Ok v)]).
    intros k Hk. apply In_range in Hk. now apply create_tile_ok.
  - intros vs cs Hrel. apply map_rel_tile_calls in Hrel. destruct Hrel as [Hlen Hall].
    split; [ | exact Hall].
    pose proof (length_range (n * n)) as Hr. unfold len in *. nia.
Qed.

(** *** The imaging phase *)

Lemma create_imaging_session_ok (specimen block : value) (media_id : string) (c : Z) :
  has_key "specimen_id" specimen -> has_key "block_id" block ->
  run_post (create_imaging_session specimen block media_id c)
    (ok_with (fun v cs =>
       (exists data, cs = [(Create imaging_session_r data, Ok v)]) /\
       has_key "session_id" v)).
Proof.
  intros [sp Hsp] [bl Hbl]. unfold create_imaging_session.
  apply ok_now; intros t. apply ok_choices; intros rid.
  lift_key Hsp. apply ok_print. lift_key Hsp. lift_key Hbl.
  apply ok_now; intros t'.
  apply ok_request; intros v Ha; cbn [answers] in Ha.
  echoed Ha "session_id" x Hx.
  lift_key Hx. apply ok_print. apply ok_ret.
  split; [eexists; reflexivity | eexists; exact Hx].
Qed.

Lemma create_acquisition_ok (imaging_session roi : value) (a : args) (sid rid : value) :
  getitem imaging_session "session_id" = Ok sid -> getitem roi "roi_id" = Ok rid ->
  run_post (create_acquisition imaging_session roi a)
    (ok_with (fun v cs =>
       (exists data, cs = [(Create acquisition_r data, Ok v)] /\
                     lookup "roi_id" data = Some rid /\
                     lookup "imaging_session_id" data = Some sid) /\
       has_key "acquisition_id" v)).
Proof.
  intros Hsid Hrid. unfold create_acquisition.
  lift_key Hsid. lift_key Hrid. lift_key Hrid. lift_key Hsid. lift_key Hsid.
  lift_key Hrid. apply ok_now; intros t.
  apply ok_request; intros v Ha; cbn [answers] in Ha.
  echoed Ha "acquisition_id" x Hx.
  lift_key Hx. apply ok_print. apply ok_ret.
  split; [eexists; repeat split; reflexivity | eexists; exact Hx].
Qed.

Lemma attach_roi_ok (a : args) (n : Z) (imaging_session : value) (media_id : string)
    (roi : value) :
  tiles_per_side a = Ok n ->
  has_key "session_id" imaging_session -> has_key "roi_id" roi ->
  run_post (attach_roi a imaging_session media_id tt roi)
    (ok_with (fun _ cs => roi_calls n imaging_session [roi] cs /\ True)).
Proof.
  intros Hn [sid Hsid] [rid Hrid]. unfold attach_roi.
  lift_key Hsid. lift_key Hrid.
  apply ok_request; intros x _.
  lift_key Hrid. lift_key Hsid. apply ok_print.
  eapply ok_bind; [now apply (create_acquisition_ok _ _ _ sid rid) | ].
  intros acq cs1 ((data & -> & Hr & Hs) & [aid Haid]). cbn beta.
  eapply ok_bind; [now apply (create_tiles_ok _ _ _ n aid) | ].
  intros tiles cs2 Htiles. cbn beta.
  apply ok_ret. split; [ | exact I].
  apply (roi_calls_cons n imaging_session roi [] sid rid x data acq aid cs2 []);
    try assumption.
  constructor.
Qed.

Lemma roi_loop_ok (a : args) (n : Z) (imaging_session : value) (media_id : string)
    (rois : list value) :
  tiles_per_side a = Ok n ->
  has_key "session_id" imaging_session -> Forall (has_key "roi_id") rois ->
  run_post (foldM (attach_roi a imaging_session media_id) rois tt)
    (ok_with (fun _ cs => roi_calls n imaging_session rois cs)).
Proof.
  intros Hn Hsid Hrois.
  eapply ok_weaken.
  - apply (ok_foldM _ (fun _ => True)
             (fun (_ : unit) roi (_ : unit) cs => roi_calls n imaging_session [roi] cs)
             (fun (_ : unit) rois (_ : unit) cs => roi_calls n imaging_session rois cs)).
    + intros _. constructor.
    + intros _ x l' _ cs1 _ cs2 H1 H2.
      inversion H1 as [ | roi rois' sid rid y data acq aid tiles rest
                          E1 E2 E3 E4 E5 E6 E7]; subst.
      inversion E7; subst. rewrite app_nil_r.
      apply (roi_calls_cons n imaging_session x l' sid rid y data acq aid tiles cs2);
        assumption.
    + intros [] roi Hin _. apply attach_roi_ok; try assumption.
      rewrite Forall_forall in Hrois. now apply Hrois.
    + exact I.
  - intros [] cs [Hrel _]. exact Hrel.
Qed.

Lemma In_firstn {A} (x : A) (n : nat) (l : list A) : In x (firstn n l) -> In x l.
Proof.
  intros Hx. rewrite <- (firstn_skipn n l). apply in_or_app. now left.
Qed.

Lemma In_skipn {A} (x : A) (n : nat) (l : list A) : In x (skipn n l) -> In x l.
Proof.
  intros Hx. rewrite <- (firstn_skipn n l). apply in_or_app. now right.
Qed.

Lemma Forall_slice {A} (P : A -> Prop) (l : list A) (i j : Z) :
  Forall P l -> Forall P (slice l i j).
Proof.
  intros Hl. unfold slice. rewrite Forall_forall in *. intros x Hx.
  apply Hl. eapply In_skipn, In_firstn, Hx.
Qed.

Lemma imaging_session_body_ok (a : args) (n : Z) (specimen block : value)
    (media_id : string) (media_rois : list value) (d0 : counters)
    (acc : counters * Z) (i : Z) :
  tiles_per_side a = Ok n ->
  has_key "specimen_id" specimen -> has_key "block_id" block ->
  Forall (has_key "roi_id") media_rois ->
  has_counter media_id d0 -> counters_extend d0 (fst acc) ->
  run_post (imaging_session_body a specimen block media_id media_rois acc i)
    (ok_with (fun acc' cs =>
       session_calls n
         [slice media_rois (i * rois_per_imaging_session a)
                (i * rois_per_imaging_session a + rois_per_imaging_session a)] cs /\
       counters_extend d0 (fst acc'))).
Proof.
  intros Hn Hsp Hbl Hrois Hm Hext. unfold imaging_session_body.
  destruct (Hext _ Hm) as [c Hc]. lift_key Hc.
  eapply ok_lift; [apply counter_get_set_same | ].
  apply ok_print.
  eapply ok_lift; [apply counter_get_set_same | ].
  eapply ok_bind; [now apply create_imaging_session_ok | ].
  intros session cs1 ([data ->] & Hsid). cbn beta.
  eapply ok_bind; [apply (roi_loop_ok a n); try assumption; now apply Forall_slice | ].
  intros [] cs2 Hrc. cbn beta. apply ok_ret. cbn [fst snd]. split.
  - rewrite app_nil_r.
    apply (session_calls_cons n _ [] data session cs2 []) in Hrc; [ | constructor].
    rewrite app_nil_r in Hrc. exact Hrc.
  - intros m' Hm'. apply has_counter_set. now apply Hext.
Qed.

Lemma session_calls_app (n : Z) (bs1 bs2 : list (list value))
    (cs1 cs2 : list (call * result value)) :
  session_calls n bs1 cs1 -> session_calls n bs2 cs2 ->
  session_calls n (bs1 ++ bs2) (cs1 ++ cs2).
Proof.
  induction 1 as [ | batch batches data session cs rest Hr _ IH]; intros H2.
  - exact H2.
  - rewrite <- !app_comm_cons, <- app_assoc. constructor; [exact Hr | now apply IH].
Qed.

Lemma sessions_loop_ok (a : args) (n : Z) (specimen block : value)
    (media_id : string) (media_rois : list value) (d0 : counters)
    (is_ : list Z) (acc : counters * Z) :
  tiles_per_side a = Ok n ->
  has_key "specimen_id" specimen -> has_key "block_id" block ->
  Forall (has_key "roi_id") media_rois ->
  has_counter media_id d0 -> counters_extend d0 (fst acc) ->
  run_post (foldM (imaging_session_body a specimen block media_id media_rois) is_ acc)
    (ok_with (fun acc' cs =>
       session_calls n
         (map (fun i => slice media_rois (i * rois_per_imaging_session a)
                          (i * rois_per_imaging_session a + rois_per_imaging_session a))
              is_) cs /\
       counters_extend d0 (fst acc'))).
Proof.
  intros Hn Hsp Hbl Hrois Hm Hext.
  apply (ok_foldM _ (fun acc => counters_extend d0 (fst acc))
           (fun (_ : counters * Z) i (_ : counters * Z) cs =>
              session_calls n
                [slice media_rois (i * rois_per_imaging_session a)
                   (i * rois_per_imaging_session a + rois_per_imaging_session a)] cs)
           (fun (_ : counters * Z) is_ (_ : counters * Z) cs =>
              session_calls n
                (map (fun i => slice media_rois (i * rois_per_imaging_session a)
                          (i * rois_per_imaging_session a + rois_per_imaging_session a))
                     is_) cs)).
  - intros _. constructor.
  - intros _ x l' _ cs1 _ cs2 H1 H2. cbn [map].
    now apply (session_calls_app n [_] _ cs1 cs2).
  - intros acc0 x _ Hpre. now apply imaging_session_body_ok.
  - exact Hext.
Qed.

Lemma media_group_body_ok (a : args) (n : Z) (specimen block : value)
    (d0 : counters) (acc : counters * Z) (group : string * list value) :
  tiles_per_side a = Ok n -> rois_per_imaging_session a <> 0 ->
  has_key "specimen_id" specimen -> has_key "block_id" block ->
  Forall (has_key "roi_id") (snd group) ->
  has_counter (fst group) d0 -> counters_extend d0 (fst acc) ->
  run_post (media_group_body a specimen block acc group)
    (ok_with (fun acc' cs =>
       session_calls n (batches (rois_per_imaging_session a) (snd group)) cs /\
       counters_extend d0 (fst acc'))).
Proof.
  intros Hn Hb Hsp Hbl Hrois Hm Hext. unfold media_group_body.
  eapply ok_lift.
  { unfold floordiv. destruct (Z.eqb_spec (rois_per_imaging_session a) 0);
      [contradiction | reflexivity]. }
  destruct Hbl as [bid Hbid]. lift_key Hbid.
  do 3 apply ok_print.
  apply sessions_loop_ok; try assumption. eexists; exact Hbid.
Qed.

Lemma groups_loop_ok (a : args) (n : Z) (specimen block : value)
    (d0 : counters) (groups : list (string * list value)) (acc : counters * Z) :
  tiles_per_side a = Ok n -> rois_per_imaging_session a <> 0 ->
  has_key "specimen_id" specimen -> has_key "block_id" block ->
  Forall (fun g => Forall (has_key "roi_id") (snd g) /\ has_counter (fst g) d0) groups ->
  counters_extend d0 (fst acc) ->
  run_post (foldM (media_group_body a specimen block) groups acc)
    (ok_with (fun acc' cs =>
       groups_calls n (rois_per_imaging_session a) groups cs /\
       counters_extend d0 (fst acc'))).
Proof.
  intros Hn Hb Hsp Hbl Hgroups Hext.
  apply (ok_foldM _ (fun acc => counters_extend d0 (fst acc))
           (fun (_ : counters * Z) g (_ : counters * Z) cs =>
              session_calls n (batches (rois_per_imaging_session a) (snd g)) cs)
           (fun (_ : counters * Z) gs (_ : counters * Z) cs =>
              groups_calls n (rois_per_imaging_session a) gs cs)).
  - intros _. constructor.
  - intros _ x l' _ cs1 _ cs2 H1 H2. now constructor.
  - intros acc0 g Hin Hpre. rewrite Forall_forall in Hgroups.
    destruct (Hgroups g Hin) as [Hr Hc]. now apply media_group_body_ok.
  - exact Hext.
Qed.

(** *** Blocks *)

Lemma group_add_grouped (m : string) (roi : value)
    (groups : list (string * list value)) (brs : list (value * string)) :
  grouped groups brs -> grouped (group_add m roi groups) (brs ++ [(roi, m)]).
Proof.
  unfold grouped. induction groups as [ | [m' rs'] groups IH]; intros Hg m0 rs0 Hin;
    cbn [group_add] in Hin.
  - destruct Hin as [[= <- <-] | []]. split; [discriminate | ].
    intros r [<- | []]. apply in_or_app. right. now left.
  - destruct (String.eqb_spec m m') as [-> | Hne].
    + destruct Hin as [[= <- <-] | Hin].
      * destruct (Hg m' rs' (or_introl eq_refl)) as [_ Hrs].
        split; [now destruct rs' | ].
        intros r Hr. apply in_app_or in Hr. apply in_or_app.
        destruct Hr as [Hr | [<- | []]]; [left; now apply Hrs | right; now left].
      * destruct (Hg m0 rs0 (or_intror Hin)) as [Hne Hrs].
        split; [exact Hne | ]. intros r Hr. apply in_or_app. left. now apply Hrs.
    + destruct Hin as [[= <- <-] | Hin].
      * destruct (Hg m' rs' (or_introl eq_refl)) as [Hne' Hrs].
        split; [exact Hne' | ]. intros r Hr. apply in_or_app. left. now apply Hrs.
      * apply IH; [ | exact Hin]. intros m1 rs1 Hin1. apply Hg. now right.
Qed.

Lemma grouped_weaken (groups : list (string * list value))
    (brs brs' : list (value * string)) :
  grouped groups brs -> (forall p, In p brs -> In p brs') -> grouped groups brs'.
Proof.
  intros Hg Hincl m rs Hin. destruct (Hg m rs Hin) as [Hne Hrs].
  split; [exact Hne | ]. intros r Hr. apply Hincl. now apply Hrs.
Qed.

Lemma fold_group_add_grouped (brs done : list (value * string))
    (groups : list (string * list value)) :
  grouped groups done ->
  grouped (fold_left (fun groups p => group_add (snd p) (fst p) groups) brs groups)
          (done ++ brs).
Proof.
  revert done groups. induction brs as [ | [roi m] brs IH]; intros done groups Hg;
    cbn [fold_left].
  - now rewrite app_nil_r.
  - cbn [fst snd]. replace (done ++ (roi, m) :: brs) with ((done ++ [(roi, m)]) ++ brs)
      by now rewrite <- app_assoc.
    apply IH. now apply group_add_grouped.
Qed.

Lemma rois_by_media_grouped (brs : list (value * string)) :
  grouped (rois_by_media brs) brs.
Proof.
  unfold rois_by_media. apply (fold_group_add_grouped brs [] []).
  intros m rs [].
Qed.

Lemma sections_calls_keys (rois : list value) (cs : list (call * result value)) :
  sections_calls rois cs -> Forall (has_key "roi_id") rois.
Proof. induction 1; constructor; assumption. Qed.

Lemma cutting_calls_keys (s : Z) (count : nat) (brs : list (value * string))
    (cs : list (call * result value)) :
  cutting_calls s count brs cs -> Forall (fun p => has_key "roi_id" (fst p)) brs.
Proof.
  induction 1 as [ | count data session media_id rois cs brs rest _ _ Hs _ IH].
  - constructor.
  - apply Forall_app. split; [ | exact IH].
    apply sections_calls_keys in Hs. rewrite Forall_forall in *.
    intros p Hp. apply in_map_iff in Hp. destruct Hp as (r & <- & Hr). now apply Hs.
Qed.

Lemma block_body_ok (a : args) (n : Z) (specimen : value) (acc : Z * Z) (block : value) :
  tiles_per_side a = Ok n -> rois_per_imaging_session a <> 0 ->
  has_key "specimen_id" specimen -> has_key "_id" specimen ->
  has_key "block_id" block -> has_key "_id" block ->
  run_post (block_body a specimen acc block)
    (ok_with (fun _ cs => block_calls a n cs /\ True)).
Proof.
  intros Hn Hb Hsid Hsp Hbid Hbl. unfold block_body.
  eapply ok_bind.
  { apply cutting_loop_ok; try assumption.
    - intros j Hj. apply In_range in Hj. lia.
    - intros roi m []. }
  intros [d brs] cs1 ((brs' & E & Hcut) & Hcounted). cbn [fst snd] in *.
  change (brs = brs') in E. subst brs'. cbn beta.
  eapply ok_bind.
  { apply (groups_loop_ok a n specimen block d); try assumption.
    - rewrite Forall_forall. intros [m rs] Hin. cbn [fst snd].
      destruct (rois_by_media_grouped brs m rs Hin) as [Hne Hrs].
      pose proof (cutting_calls_keys _ _ _ _ Hcut) as Hkeys.
      rewrite Forall_forall in Hkeys. split.
      + rewrite Forall_forall. intros r Hr. exact (Hkeys _ (Hrs r Hr)).
      + destruct rs as [ | r rs]; [congruence | ].
        apply (Hcounted r m). cbn [snd]. apply Hrs. now left.
    - intros m Hm. exact Hm. }
  intros acc' cs2 [Hgroups _]. cbn beta. apply ok_ret. split; [ | exact I].
  rewrite app_nil_r. exists brs, cs1, cs2. split; [reflexivity | ]. split; [ | exact Hgroups].
  replace (Z.to_nat (cutting_sessions_per_block a))
    with (List.length (range (cutting_sessions_per_block a))); [exact Hcut | ].
  unfold range. now rewrite length_map, length_seq.
Qed.

Lemma blocks_loop_ok (a : args) (n : Z) (specimen : value) (blocks : list value)
    (acc : Z * Z) :
  tiles_per_side a = Ok n -> rois_per_imaging_session a <> 0 ->
  has_key "specimen_id" specimen -> has_key "_id" specimen ->
  Forall (fun b => has_key "block_id" b /\ has_key "_id" b) blocks ->
  run_post (foldM (block_body a specimen) blocks acc)
    (ok_with (fun _ cs =>
       exists per_block, cs = List.concat per_block /\
                         List.length per_block = List.length blocks /\
                         Forall (block_calls a n) per_block)).
Proof.
  intros Hn Hb Hsid Hsp Hblocks.
  eapply ok_weaken.
  - apply (ok_foldM _ (fun _ => True)
             (fun (_ : Z * Z) (_ : value) (_ : Z * Z) cs => block_calls a n cs)
             (fun (_ : Z * Z) bs (_ : Z * Z) cs =>
                exists per_block, cs = List.concat per_block /\
                                  List.length per_block = List.length bs /\
                                  Forall (block_calls a n) per_block)).
    + intros _. exists []. repeat split. constructor.
    + intros _ x l' _ cs1 _ cs2 H1 (pb & -> & Hlen & Hall).
      exists (cs1 :: pb). cbn [List.concat List.length].
      repeat split; [now rewrite Hlen | now constructor].
    + intros acc0 b Hin _. rewrite Forall_forall in Hblocks.
      destruct (Hblocks b Hin). now apply block_body_ok.
    + exact I.
  - intros acc' cs [Hrel _]. exact Hrel.
Qed.

Lemma create_blocks_ok (specimen : value) (num_blocks : Z) :
  has_key "specimen_id" specimen ->
  run_post (create_blocks specimen num_blocks)
    (ok_with (fun blocks cs =>
       len cs = Z.max 0 num_blocks /\
       List.length cs = List.length blocks /\
       Forall (fun cr => exists data v, cr = (Create block_r data, Ok v)) cs /\
       Forall (fun b => has_key "block_id" b /\ has_key "_id" b) blocks)).
Proof.
  intros Hsid. unfold create_blocks.
  eapply ok_weaken.
  - apply ok_mapM with
      (Step := fun (_ : Z) v cs =>
                 (exists data, cs = [(Create block_r data, Ok v)]) /\
                 has_key "block_id" v /\ has_key "_id" v).
    intros i _. now apply create_block_ok.
  - intros blocks cs Hrel. rewrite <- length_range. unfold len. generalize (range num_blocks) Hrel.
    clear. intros l Hrel.
    induction Hrel as [ | x y l ys cs1 cs2 ([data ->] & Hk) _ (IH1 & IH2 & IH3 & IH4)].
    + repeat split; constructor.
    + split; [rewrite length_app; cbn [List.length]; lia | ].
      split; [rewrite length_app; cbn [List.length]; lia | ].
      split; constructor; try assumption. now exists data, y.
Qed.

(** *** The whole walk *)

Lemma ok_then {A B} (m : M R C A) (k : A -> M R C B)
    (P : A -> list (call * result value) -> Prop)
    (Q : result B -> list (call * result value) -> Prop) :
  run_post m (ok_with P) ->
  (forall a cs1, P a cs1 -> run_post (k a) (fun r ev => Q r (cs1 ++ calls_of ev))) ->
  run_post (bind m k) (fun r ev => Q r (calls_of ev)).
Proof.
  intros Hm Hk. apply post_bind. eapply post_weaken; [exact Hm | ].
  intros r ev1 (a & -> & HP). eapply post_weaken; [exact (Hk a _ HP) | ].
  intros r2 ev2 HQ. cbn beta in HQ. now rewrite calls_of_app.
Qed.

Lemma summary_calls (a : args) (blocks : list value) (totals : Z * Z) :
  run_post (summary a blocks totals) (fun _ ev => calls_of ev = []).
Proof.
  unfold summary.
  do 4 (apply post_bind, post_print).
  apply post_bind, post_lift.
  destruct (summary_tiles_per_acquisition a); [ | reflexivity].
  apply post_print. reflexivity.
Qed.

Lemma walk_shape (a : args) (n : Z) :
  tiles_per_side a = Ok n -> rois_per_imaging_session a <> 0 ->
  run_post (walk a) (fun _ ev => walk_calls a n (calls_of ev)).
Proof.
  intros Hn Hb. unfold walk.
  apply (ok_then _ _ _ (fun _ cs => walk_calls a n cs) create_specimen_ok).
  intros specimen cs1 ([sdata ->] & Hsid & Hsp). cbn beta.
  apply (ok_then _ _ _ (fun _ cs => walk_calls a n ([(Create specimen_r sdata, Ok specimen)] ++ cs))
           (create_blocks_ok specimen (num_blocks a) Hsid)).
  intros blocks cs2 (Hlen & Hlen2 & Hcreated & Hkeys). cbn beta.
  apply (ok_then _ _ _
           (fun _ cs => walk_calls a n ([(Create specimen_r sdata, Ok specimen)] ++ cs2 ++ cs))
           (blocks_loop_ok a n specimen blocks (0, 0) Hn Hb Hsid Hsp Hkeys)).
  intros totals cs3 (per_block & -> & Hpb & Hall). cbn beta.
  eapply post_weaken; [apply summary_calls | ].
  intros r ev ->. rewrite app_nil_r.
  exists sdata, specimen, cs2, per_block.
  split; [reflexivity | ]. split; [exact Hlen | ]. split; [exact Hcreated | ].
  split; [ | exact Hall]. congruence.
Qed.

End Total.

(** ** Batches *)

Lemma firstn_plus {A} (a b : nat) (l : list A) :
  firstn (a + b) l = firstn a l ++ firstn b (skipn a l).
Proof.
  revert l. induction a as [ | a IH]; intros l; cbn [Nat.add firstn skipn app].
  - reflexivity.
  - destruct l as [ | x l]; cbn [firstn skipn app].
    + now rewrite firstn_nil.
    + now rewrite IH.
Qed.

Lemma slice_full_batch {A} (l : list A) (b i : Z) :
  0 < b -> 0 <= i -> i * b + b <= len l ->
  slice l (i * b) (i * b + b) = firstn (Z.to_nat b) (skipn (Z.to_nat (i * b)) l).
Proof.
  intros Hb Hi Hle. unfold slice, clamp_index. fold (len l).
  destruct (Z.ltb_spec (i * b) 0); [nia | ].
  destruct (Z.ltb_spec (i * b + b) 0); [nia | ].
  rewrite !Z.min_l by nia. f_equal. f_equal. lia.
Qed.

Lemma concat_batches_seq {A} (l : list A) (b : Z) (k : nat) :
  0 < b -> Z.of_nat k * b <= len l ->
  List.concat (map (fun i => slice l (i * b) (i * b + b)) (map Z.of_nat (seq 0 k)))
  = firstn (Z.to_nat (Z.of_nat k * b)) l.
Proof.
  intros Hb. induction k as [ | k IH]; intros Hle.
  - reflexivity.
  - rewrite seq_S, !map_app, concat_app. cbn [map List.concat Nat.add].
    rewrite app_nil_r, IH by nia.
    rewrite slice_full_batch by nia.
    replace (Z.to_nat (Z.of_nat (S k) * b))
      with (Z.to_nat (Z.of_nat k * b) + Z.to_nat b)%nat by nia.
    now rewrite firstn_plus.
Qed.

Lemma batches_facts (b : Z) (rois : list value) :
  0 < b ->
  len (batches b rois) = len rois / b /\
  Forall (fun batch => len batch = b) (batches b rois) /\
  List.concat (batches b rois) = firstn (Z.to_nat (len rois / b * b)) rois /\
  rois = List.concat (batches b rois) ++ skipn (Z.to_nat (len rois / b * b)) rois /\
  len (skipn (Z.to_nat (len rois / b * b)) rois) = len rois mod b.
Proof.
  intros Hb. unfold batches.
  assert (Hr : 0 <= len rois) by (unfold len; lia).
  pose proof (Z.div_pos (len rois) b Hr Hb) as Hq.
  pose proof (Z.div_mod (len rois) b ltac:(lia)) as Hdm.
  pose proof (Z.mod_pos_bound (len rois) b Hb) as Hm.
  assert (Hconcat :
            List.concat (map (fun i => slice rois (i * b) (i * b + b)) (range (len rois / b)))
            = firstn (Z.to_nat (len rois / b * b)) rois).
  { unfold range. rewrite concat_batches_seq by nia. f_equal. nia. }
  split; [ | split; [ | split; [exact Hconcat | split]]].
  - unfold len at 1. rewrite length_map. fold (len (range (len rois / b))).
    rewrite length_range. lia.
  - rewrite Forall_forall. intros batch Hin. apply in_map_iff in Hin.
    destruct Hin as (i & <- & Hi). apply In_range in Hi.
    rewrite slice_full_batch by nia. unfold len.
    rewrite length_firstn, length_skipn. unfold len in *. nia.
  - rewrite Hconcat. now rewrite firstn_skipn.
  - unfold len. rewrite length_skipn. unfold len in *. nia.
Qed.

(** ** Counting calls *)

Lemma kinds_of_app (cs1 cs2 : list (call * result value)) :
  kinds_of (cs1 ++ cs2) = kinds_of cs1 ++ kinds_of cs2.
Proof. apply map_app. Qed.

Lemma count_kind_app (k : kind) (cs1 cs2 : list (call * result value)) :
  count_kind k (cs1 ++ cs2) = count_kind k cs1 + count_kind k cs2.
Proof.
  unfold count_kind, len. rewrite kinds_of_app, filter_app, length_app. lia.
Qed.

Lemma count_kind_nil (k : kind) : count_kind k [] = 0.
Proof. reflexivity. Qed.

Lemma count_kind_cons (k : kind) (c : call) (r : result value)
    (cs : list (call * result value)) :
  count_kind k ((c, r) :: cs) =
  (if kind_eqb k (kind_of c) then 1 else 0) + count_kind k cs.
Proof.
  unfold count_kind, len, kinds_of. cbn [map filter fst].
  destruct (kind_eqb k (kind_of c)); cbn [List.length]; lia.
Qed.

Lemma count_kind_tiles (k : kind) (aid : value) (n : Z)
    (cs : list (call * result value)) :
  tile_calls aid n cs ->
  count_kind k cs = if kind_eqb k KAddTile then n * n else 0.
Proof.
  intros [Hlen Hall]. rewrite <- Hlen. clear Hlen.
  induction Hall as [ | cr cs (tile & v & ->) _ IH].
  - now destruct (kind_eqb k KAddTile).
  - rewrite count_kind_cons, IH. cbn [kind_of]. unfold len. cbn [List.length].
    destruct (kind_eqb k KAddTile); lia.
Qed.

Lemma count_kind_rois (k : kind) (n : Z) (session : value) (rois : list value)
    (cs : list (call * result value)) :
  roi_calls n session rois cs -> count_kind k cs = len rois * per_roi k n.
Proof.
  induction 1 as [ | roi rois sid rid x data acq aid tiles rest _ _ _ _ _ Ht _ IH].
  - reflexivity.
  - rewrite !count_kind_cons, count_kind_app, (count_kind_tiles k aid n tiles Ht), IH.
    cbn [kind_of]. unfold per_roi, len. cbn [List.length]. lia.
Qed.

Lemma count_kind_sessions (k : kind) (n : Z) (bs : list (list value))
    (cs : list (call * result value)) :
  session_calls n bs cs ->
  count_kind k cs =
  (if kind_eqb k (KCreate imaging_session_r) then len bs else 0)
  + len (List.concat bs) * per_roi k n.
Proof.
  induction 1 as [ | batch batches data session cs rest Hr _ IH].
  - cbn. now destruct (kind_eqb k (KCreate imaging_session_r)).
  - rewrite count_kind_cons, count_kind_app, (count_kind_rois k n _ _ _ Hr), IH.
    cbn [kind_of List.concat]. unfold len. rewrite length_app. cbn [List.length].
    destruct (kind_eqb k (KCreate imaging_session_r)); lia.
Qed.






(** ** The collaborators used in examples behave well *)

Lemma lookup_app_some (k : string) (d d' : record) (x : value) :
  lookup k d = Some x -> lookup k (d ++ d') = Some x.
Proof.
  induction d as [ | [k' v] d IH]; cbn [lookup List.app]; [discriminate | ].
  destruct (String.eqb k k'); [trivial | exact IH].
Qed.

Lemma lookup_app_none (k : string) (d d' : record) :
  lookup k d = None -> lookup k (d ++ d') = lookup k d'.
Proof.
  induction d as [ | [k' v] d IH]; cbn [lookup List.app]; [reflexivity | ].
  destruct (String.eqb k k'); [discriminate | exact IH].
Qed.

Lemma echo_well_behaved : well_behaved_client (C := Z).
Proof.
  intros c s. destruct c as [res data | aid tile | sid rid]; cbn.
  - eexists. split; [reflexivity | ]. split.
    + intros k x Hk. exists x. cbn. now rewrite (lookup_app_some _ _ _ _ Hk).
    + assert (Hid : has_key "_id" (VDict (data ++ [("_id", VInt s)]))).
      { unfold has_key. cbn. destruct (lookup "_id" data) as [x | ] eqn:E.
        - exists x. now rewrite (lookup_app_some _ _ _ _ E).
        - exists (VInt s). now rewrite (lookup_app_none _ _ _ E). }
      destruct res; trivial.
  - eexists. split; [reflexivity | ]. intros k x Hk. exists x. cbn. now rewrite Hk.
  - eexists. split; [reflexivity | exact I].
Defined.

Lemma tick_well_behaved : well_behaved_host (R := Z).
Proof.
  intros a b r Hab. cbn. unfold tick_randint. cbn [fst].
  pose proof (Z.mod_pos_bound r (b - a + 1) ltac:(lia)). lia.
Defined.

(** ** C2: tiles per acquisition *)



(** ** C1: batching ROIs into imaging sessions *)

Lemma generate_data_calls {R C : Type} `{Host R} `{Client C} (a : args) (s : R * C) :
  calls_of (snd (generate_data a s)) = calls_of (snd (walk a s)).
Proof.
  unfold generate_data, try_except.
  destruct (walk a s) as [[[u | e] s1] ev1]; [reflexivity | ].
  destruct e; try reflexivity; cbn [snd]; rewrite calls_of_app; cbn; apply app_nil_r.
Qed.



(** ** C7: the end-to-end scenario *)

Lemma count_kind_sections (k : kind) (rois : list value)
    (cs : list (call * result value)) :
  sections_calls rois cs -> count_kind k cs = len rois * per_section k.
Proof.
  induction 1 as [ | sdata sec rdata roi rois rest _ _ IH].
  - reflexivity.
  - rewrite !count_kind_cons, IH. cbn [kind_of]. unfold per_section, len.
    cbn [List.length]. lia.
Qed.

Lemma count_kind_blocks (k : kind) (cs : list (call * result value)) :
  Forall (fun cr => exists data v, cr = (Create block_r data, Ok v)) cs ->
  count_kind k cs = if kind_eqb k (KCreate block_r) then len cs else 0.
Proof.
  induction 1 as [ | cr cs (data & v & ->) _ IH].
  - now destruct (kind_eqb k (KCreate block_r)).
  - rewrite count_kind_cons, IH. cbn [kind_of]. unfold len. cbn [List.length].
    destruct (kind_eqb k (KCreate block_r)); lia.
Qed.

Lemma fold_group_add_same (media_id : string) (rois done : list value) :
  fold_left (fun groups p => group_add (snd p) (fst p) groups)
            (map (fun roi => (roi, media_id)) rois) [(media_id, done)]
  = [(media_id, done ++ rois)].
Proof.
  revert done. induction rois as [ | roi rois IH]; intros done; cbn [map fold_left].
  - now rewrite app_nil_r.
  - cbn [fst snd group_add]. rewrite String.eqb_refl, IH, <- app_assoc. reflexivity.
Qed.

Lemma rois_by_media_one_session (media_id : string) (rois : list value) :
  rois <> [] ->
  rois_by_media (map (fun roi => (roi, media_id)) rois) = [(media_id, rois)].
Proof.
  destruct rois as [ | roi rois]; [congruence | intros _].
  unfold rois_by_media. cbn [map fold_left fst snd group_add].
  apply (fold_group_add_same media_id rois [roi]).
Qed.

Lemma length_one {A} (l : list A) : len l = 1 -> exists x, l = [x].
Proof.
  unfold len. destruct l as [ | x [ | y l]]; cbn [List.length]; try lia.
  intros _. now exists x.
Qed.

(** C7.  With one block, one cutting session, five sections and batches of
    five ROIs, against collaborators that behave and with a defined tile
    grid of side [n], [generate_data] makes exactly 1 specimen create,
    1 block create, 1 cutting-session create, 5 section creates, 5 ROI
    creates, 1 imaging-session create, 5 [add_rois] calls, 5 acquisition
    creates and [n * n * 5] [add_tile] calls. *)
Theorem generate_data_scenario {R C : Type} `{Host R} `{Client C}
    (a : args) (n : Z) (s : R * C) :
  well_behaved_client -> well_behaved_host ->
  tiles_per_side a = Ok n ->
  num_blocks a = 1 -> cutting_sessions_per_block a = 1 ->
  sections_per_session a = 5 -> rois_per_imaging_session a = 5 ->
  let cs := calls_of (snd (generate_data a s)) in
  count_kind (KCreate specimen_r) cs = 1 /\
  count_kind (KCreate block_r) cs = 1 /\
  count_kind (KCreate cutting_session_r) cs = 1 /\
  count_kind (KCreate section_r) cs = 5 /\
  count_kind (KCreate roi_r) cs = 5 /\
  count_kind (KCreate imaging_session_r) cs = 1 /\
  count_kind KAddRois cs = 5 /\
  count_kind (KCreate acquisition_r) cs = 5 /\
  count_kind KAddTile cs = n * n * 5.
Proof.
  intros Hcli Hhost Hn Hnb Hcs Hsec Hb cs.
  assert (Hcount : forall k, count_kind k cs =
            (if kind_eqb k (KCreate specimen_r) then 1 else 0)
            + (if kind_eqb k (KCreate block_r) then 1 else 0)
            + (if kind_eqb k (KCreate cutting_session_r) then 1 else 0)
            + 5 * per_section k
            + (if kind_eqb k (KCreate imaging_session_r) then 1 else 0)
            + 5 * per_roi k n).
  { intros k. subst cs. rewrite generate_data_calls.
    destruct (post_run _ _ s (walk_shape Hcli Hhost a n Hn ltac:(lia)))
      as (r & s' & ev & -> & Hshape). cbn [snd].
    destruct Hshape as (sdata & specimen & blocks & per_block & -> & Hlen & Hblocks
                        & Hpb & Hall).
    rewrite Hnb in Hlen. change (Z.max 0 1) with 1 in Hlen.
    destruct (length_one _ Hlen) as [b ->]. cbn [List.length] in Hpb.
    destruct per_block as [ | pb [ | pb' per_block]]; try discriminate Hpb.
    inversion Hall as [ | ? ? Hblock _]; subst.
    destruct Hblock as (brs & cut & grp & -> & Hcut & Hgrp).
    rewrite Hcs, Hsec in Hcut. change (Z.to_nat 1) with 1%nat in Hcut.
    inversion Hcut as [ | count data session media_id rois secs brs' rest
                          Hmid Hrois Hsecs Hrest]; subst.
    inversion Hrest; subst. rewrite app_nil_r in Hgrp.
    change (Z.max 0 5) with 5 in Hrois.
    assert (Hne : rois <> []) by (intros ->; discriminate Hrois).
    rewrite (rois_by_media_one_session media_id rois Hne), Hb in Hgrp.
    inversion Hgrp as [ | g gs scs rest' Hses Hnil]; subst.
    inversion Hnil; subst. cbn [snd] in Hses.
    destruct (batches_facts 5 rois ltac:(lia)) as (F1 & _ & F3 & _ & _).
    rewrite Hrois in F1, F3. change (5 / 5) with 1 in F1. change (5 / 5 * 5) with 5 in F3.
    assert (Hc5 : len (List.concat (batches 5 rois)) = 5).
    { rewrite F3. unfold len in *. rewrite length_firstn. lia. }
    cbn [List.concat]. rewrite !app_nil_r.
    rewrite count_kind_cons, count_kind_app, (count_kind_blocks k _ Hblocks).
    rewrite count_kind_app, count_kind_cons, (count_kind_sections k rois secs Hsecs).
    rewrite (count_kind_sessions k n _ _ Hses), F1, Hc5, Hrois.
    cbn [kind_of]. unfold len. cbn [List.length].
    destruct (kind_eqb k (KCreate block_r)), (kind_eqb k (KCreate imaging_session_r));
      lia. }
  rewrite !Hcount. unfold per_section, per_roi. cbn [kind_eqb].
  repeat split; lia.
Qed.

Lemma generate_data_scenario_witness :
  count_kind (KCreate imaging_session_r)
    (calls_of (snd (generate_data (with_volume default_args 1 1 5 5) (0, 0)))) = 1 /\
  count_kind KAddTile
    (calls_of (snd (generate_data (with_volume default_args 1 1 5 5) (0, 0)))) = 4 * 4 * 5.
Proof.
  pose proof (generate_data_scenario (R := Z) (C := Z) (with_volume default_args 1 1 5 5)
                4 (0, 0) echo_well_behaved tick_well_behaved) as W.
  cbv zeta in W.
  split; apply W; reflexivity || (vm_compute; reflexivity).
Defined.

(** ** Runs against any client *)

Section AnyClient.
Context {R C : Type} `{Host R} `{Client C}.

Local Notation "'run_post'" := (post (R := R) (C := C)).

Lemma silent_ret {A} (a : A) (P : A -> Prop) : P a -> run_post (ret a) (silent P).
Proof. intros HP. apply post_ret. split; [reflexivity | now intros ? [= <-]]. Qed.

Lemma silent_bind {A B} (m : M R C A) (k : A -> M R C B) (P : A -> Prop)
    (Q : B -> Prop) :
  run_post m (silent P) -> (forall a, P a -> run_post (k a) (silent Q)) ->
  run_post (bind m k) (silent Q).
Proof.
  intros Hm Hk. apply post_bind. eapply post_weaken; [exact Hm | ].
  intros [a | e] ev1 [Hc HP].
  - eapply post_weaken; [exact (Hk a (HP a eq_refl)) | ].
    intros r2 ev2 [Hc2 HQ]. split; [ | exact HQ].
    now rewrite calls_of_app, Hc, Hc2.
  - split; [exact Hc | discriminate].
Qed.

Lemma silent_lift {A} (r : result A) : run_post (lift r) (silent (fun a => r = Ok a)).
Proof. apply post_lift. split; [reflexivity | trivial]. Qed.

Lemma silent_print (line : string) : run_post (print line) (silent (fun _ => True)).
Proof. apply post_print. split; [reflexivity | trivial]. Qed.

Lemma silent_uniform (a b : value) :
  run_post (random_uniform a b) (silent (fun _ => True)).
Proof. apply post_uniform. intros v. split; [reflexivity | trivial]. Qed.

Lemma silent_randint (a b : Z) : run_post (random_randint a b) (silent (fun _ => True)).
Proof. apply post_randint. intros v. split; [reflexivity | trivial]. Qed.

Lemma silent_gauss (a b : value) : run_post (random_gauss a b) (silent (fun _ => True)).
Proof. apply post_gauss. intros v. split; [reflexivity | trivial]. Qed.

Lemma silent_then {A B} (m : M R C A) (k : A -> M R C B) (P : A -> Prop)
    (Q : result B -> list (call * result value) -> Prop) :
  run_post m (silent P) -> (forall e, Q (Raise e) []) ->
  (forall a, P a -> run_post (k a) (fun r ev => Q r (calls_of ev))) ->
  run_post (bind m k) (fun r ev => Q r (calls_of ev)).
Proof.
  intros Hm Hraise Hk. apply post_bind. eapply post_weaken; [exact Hm | ].
  intros [a | e] ev1 [Hc HP].
  - eapply post_weaken; [exact (Hk a (HP a eq_refl)) | ].
    intros r2 ev2 HQ. cbn beta in HQ. now rewrite calls_of_app, Hc.
  - rewrite Hc. apply Hraise.
Qed.

Ltac silent_steps :=
  repeat first
    [ apply silent_ret
    | eapply silent_bind;
      [ first [ apply silent_lift | apply silent_print | apply silent_uniform
              | apply silent_randint | apply silent_gauss ]
      | intros ? ? ] ].

Lemma generate_focus_score_silent (base variation : value) :
  run_post (generate_focus_score base variation) (silent (fun _ => True)).
Proof. unfold generate_focus_score. silent_steps. exact I. Qed.

Lemma calculate_stage_position_silent (row col tile_size : Z) (overlap : spec_float) :
  run_post (calculate_stage_position row col tile_size overlap) (silent (fun _ => True)).
Proof. unfold calculate_stage_position. silent_steps. exact I. Qed.

Lemma uniform_list_silent (a b : value) :
  run_post (uniform_list a b) (silent (fun _ => True)).
Proof. unfold uniform_list. silent_steps. exact I. Qed.

Lemma generate_matcher_data_silent (row col : Z) :
  run_post (generate_matcher_data row col) (silent (fun m => matcher_at m row col)).
Proof.
  unfold generate_matcher_data.
  do 7 (eapply silent_bind; [apply silent_uniform | intros ? _]).
  do 4 (eapply silent_bind; [apply uniform_list_silent | intros ? _]).
  apply silent_ret. split; reflexivity.
Qed.

Lemma one_tile_raise (n k : Z) {A} (e : exn) : one_tile n k (A := A) (Raise e) [].
Proof. left. split; [reflexivity | now exists e]. Qed.

Lemma create_tile_one (acquisition : value) (media_id : string) (a : args)
    (base : spec_float) (n k : Z) :
  run_post (create_tile acquisition media_id a base n k)
    (fun r ev => one_tile n k r (calls_of ev)).
Proof.
  unfold create_tile.
  eapply silent_then; [apply silent_lift | apply one_tile_raise | intros row Hrow].
  eapply silent_then; [apply silent_lift | apply one_tile_raise | intros col Hcol].
  assert (Er : row = k / n).
  { unfold floordiv in Hrow. destruct (n =? 0); [discriminate | now injection Hrow]. }
  assert (Ec : col = k mod n).
  { unfold pymod in Hcol. destruct (n =? 0); [discriminate | now injection Hcol]. }
  subst row col.
  eapply silent_then;
    [apply generate_focus_score_silent | apply one_tile_raise | intros focus _].
  eapply silent_then;
    [apply calculate_stage_position_silent | apply one_tile_raise | intros pos _].
  eapply silent_then; [apply silent_lift | apply one_tile_raise | intros a1 _].
  eapply silent_then; [apply silent_lift | apply one_tile_raise | intros a2 _].
  eapply silent_then; [apply silent_randint | apply one_tile_raise | intros minv _].
  eapply silent_then; [apply silent_randint | apply one_tile_raise | intros maxv _].
  eapply silent_then; [apply silent_randint | apply one_tile_raise | intros meanv _].
  eapply silent_then; [apply silent_uniform | apply one_tile_raise | intros stdv _].
  eapply silent_then; [apply silent_lift | apply one_tile_raise | intros a3 _].
  eapply silent_then;
    [apply generate_matcher_data_silent | apply one_tile_raise | intros m1 Hm1].
  eapply silent_then;
    [apply generate_matcher_data_silent | apply one_tile_raise | intros m2 Hm2].
  eapply silent_then;
    [apply generate_matcher_data_silent | apply one_tile_raise | intros m3 Hm3].
  eapply silent_then;
    [apply generate_matcher_data_silent | apply one_tile_raise | intros m4 Hm4].
  eapply silent_then; [apply silent_lift | apply one_tile_raise | intros a4 _].
  apply post_bind, post_request. intros [created | e].
  - apply post_bind, post_lift. destruct (getitem created "tile_id") as [tid | e].
    + apply post_bind, post_print. apply post_ret.
      right. eexists _, _, _. split; [reflexivity | ].
      split; [reflexivity | ]. split; [reflexivity | ].
      exists m1, m2, m3, m4. repeat split; try reflexivity; assumption || apply Hm1
        || apply Hm2 || apply Hm3 || apply Hm4.
    + right. eexists _, _, _. split; [reflexivity | ].
      split; [reflexivity | ]. split; [reflexivity | ].
      exists m1, m2, m3, m4. repeat split; try reflexivity; assumption || apply Hm1
        || apply Hm2 || apply Hm3 || apply Hm4.
  - right. eexists _, _, _. split; [reflexivity | ].
    split; [reflexivity | ]. split; [reflexivity | ].
    exists m1, m2, m3, m4. repeat split; try reflexivity; assumption || apply Hm1
      || apply Hm2 || apply Hm3 || apply Hm4.
Qed.

Lemma tile_run_cons (n k0 : Z) (count : nat) (c : call * result value)
    (cs : list (call * result value)) :
  (exists aid tile, fst c = AddTile aid tile /\ tile_shape n k0 tile) ->
  tile_run n (k0 + 1) count cs -> tile_run n k0 (S count) (c :: cs).
Proof.
  intros Hc [Hlen Hcs]. split; [cbn [List.length]; lia | ].
  intros [ | i] c' resp Hi; cbn [nth_error] in Hi.
  - injection Hi as ->. destruct Hc as (aid & tile & Hc & Hs). cbn [fst] in Hc.
    exists aid, tile. split; [exact Hc | ]. now replace (k0 + Z.of_nat 0) with k0 by lia.
  - destruct (Hcs i c' resp Hi) as (aid & tile & -> & Hs). exists aid, tile.
    split; [reflexivity | ].
    now replace (k0 + Z.of_nat (S i)) with (k0 + 1 + Z.of_nat i) by lia.
Qed.

Lemma tile_run_nil (n k0 : Z) (count : nat) : tile_run n k0 count [].
Proof.
  split; [cbn; lia | ]. intros [ | i] c resp Hi; discriminate Hi.
Qed.

Lemma create_tiles_loop_run (acquisition : value) (media_id : string) (a : args)
    (base : spec_float) (n : Z) (count start : nat) :
  run_post (mapM (create_tile acquisition media_id a base n)
                 (map Z.of_nat (seq start count)))
    (fun r ev => tile_run n (Z.of_nat start) count (calls_of ev)).
Proof.
  revert start. induction count as [ | count IH]; intros start; cbn [seq map mapM].
  - apply post_ret. apply tile_run_nil.
  - apply post_bind. eapply post_weaken; [apply create_tile_one | ].
    intros [v | e] ev1 Hone; cbn beta in Hone.
    + destruct Hone as [[_ [e He]] | (aid & tile & resp & Hcs & Hshape)];
        [discriminate He | ].
      apply post_bind. eapply post_weaken; [apply (IH (S start)) | ].
      intros r2 ev2 Hrun.
      assert (Hall : tile_run n (Z.of_nat start) (S count) (calls_of (ev1 ++ ev2))).
      { rewrite calls_of_app, Hcs. apply tile_run_cons.
        - now exists aid, tile.
        - now replace (Z.of_nat start + 1) with (Z.of_nat (S start)) by lia. }
      destruct r2 as [vs | e]; [ | exact Hall].
      apply post_ret. now rewrite !app_nil_r.
    + destruct Hone as [[-> _] | (aid & tile & resp & -> & Hshape)].
      * apply tile_run_nil.
      * apply tile_run_cons; [now exists aid, tile | apply tile_run_nil].
Qed.

(** Every tile [create_tiles] sends is the next one of the grid. *)
Lemma create_tiles_run (acquisition : value) (media_id : string) (a : args) :
  run_post (create_tiles acquisition media_id a)
    (fun r ev =>
       forall i c resp, nth_error (calls_of ev) i = Some (c, resp) ->
         exists n aid tile,
           tiles_per_side a = Ok n /\ 0 <= Z.of_nat i < n * n /\
           c = AddTile aid tile /\ tile_shape n (Z.of_nat i) tile).
Proof.
  unfold create_tiles. apply post_bind, post_uniform. intros base.
  apply post_bind, post_lift.
  destruct (tiles_per_side a) as [n | e]; [ | intros [ | i] c resp Hi; discriminate Hi].
  eapply post_weaken; [apply (create_tiles_loop_run _ _ _ _ n (Z.to_nat (n * n)) 0) | ].
  intros r ev [Hlen Hrun] i c resp Hi.
  change (nth_error (calls_of ev) i = Some (c, resp)) in Hi.
  destruct (Hrun i c resp Hi) as (aid & tile & -> & Hshape).
  exists n, aid, tile. split; [reflexivity | ].
  assert (Hi' : (i < List.length (calls_of ev))%nat).
  { apply nth_error_Some. congruence. }
  split; [lia | ]. split; [reflexivity | exact Hshape].
Qed.
End AnyClient.

(** ** C3: raster order *)

(** C3.  Against any client, the [k]-th [add_tile] call of [create_tiles]
    (counting from 0) is for a tile of the [n * n] grid, [n] being
    [tiles_per_side]: its raster position is row [k / n], column [k mod n]
    (row-major order), and its raster index is [row * n + col + 1], which
    is [k + 1]: it starts at 1 and grows by one with each tile. *)
Theorem create_tiles_raster {R C : Type} `{Host R} `{Client C}
    (acquisition : value) (media_id : string) (a : args) (s : R * C)
    (k : nat) (c : call) (resp : result value) :
  nth_error (calls_of (snd (create_tiles acquisition media_id a s))) k = Some (c, resp) ->
  exists n aid tile,
    tiles_per_side a = Ok n /\ 0 <= Z.of_nat k < n * n /\
    c = AddTile aid tile /\
    lookup "raster_position" tile
      = Some (VDict [("row", VInt (Z.of_nat k / n)); ("col", VInt (Z.of_nat k mod n))]) /\
    lookup "raster_index" tile
      = Some (VInt (Z.of_nat k / n * n + Z.of_nat k mod n + 1)) /\
    Z.of_nat k / n * n + Z.of_nat k mod n + 1 = Z.of_nat k + 1 /\
    (0 < n -> 0 <= Z.of_nat k / n < n /\ 0 <= Z.of_nat k mod n < n).
Proof.
  intros Hk.
  destruct (create_tiles_run acquisition media_id a s k c resp Hk)
    as (n & aid & tile & Hn & Hrange & -> & Hpos & Hidx & _).
  assert (Hn0 : n <> 0) by nia.
  pose proof (Z.div_mod (Z.of_nat k) n Hn0) as Hdm.
  exists n, aid, tile. repeat split; try assumption; try lia.
  - rewrite Hidx. do 2 f_equal. lia.
  - apply Z.div_pos; lia.
  - apply Z.div_lt_upper_bound; lia.
  - apply Z.mod_pos_bound; lia.
  - apply Z.mod_pos_bound; lia.
Qed.

Lemma create_tiles_raster_witness :
  exists n aid tile,
    tiles_per_side default_args = Ok n /\ 0 <= 6 < n * n /\
    fst (nth 6 (calls_of (snd (create_tiles (VDict [("acquisition_id", VStr "ACQ1")])
                                  "TAPE1" default_args (0, 0))))
               (AddRois VNone VNone, Ok VNone)) = AddTile aid tile /\
    lookup "raster_position" tile = Some (VDict [("row", VInt 1); ("col", VInt 2)]) /\
    lookup "raster_index" tile = Some (VInt 7).
Proof.
  destruct (create_tiles_raster (R := Z) (C := Z) (VDict [("acquisition_id", VStr "ACQ1")])
              "TAPE1" default_args (0, 0) 6
              (fst (nth 6 (calls_of (snd (create_tiles (VDict [("acquisition_id", VStr "ACQ1")])
                                  "TAPE1" default_args (0, 0))))
                        (AddRois VNone VNone, Ok VNone)))
              (snd (nth 6 (calls_of (snd (create_tiles (VDict [("acquisition_id", VStr "ACQ1")])
                                  "TAPE1" default_args (0, 0))))
                        (AddRois VNone VNone, Ok VNone))))
    as (n & aid & tile & Hn & Hr & Hc & Hpos & Hidx & _).
  - vm_compute. reflexivity.
  - exists n, aid, tile.
    assert (En : n = 4) by (vm_compute in Hn; congruence). subst n.
    repeat split; try assumption; lia.
Defined.

(** ** C10: matcher records *)

(** C10.  Against any client, every tile [create_tiles] sends carries a
    list of exactly four matcher records; with (row, col) the tile's raster
    position, their [row] and [col] fields are (row, col), (row, col + 1)
    for the right neighbour, (row + 1, col) for the one below and
    (row + 1, col + 1) for the diagonal one. *)
Theorem create_tiles_matchers {R C : Type} `{Host R} `{Client C}
    (acquisition : value) (media_id : string) (a : args) (s : R * C)
    (k : nat) (c : call) (resp : result value) :
  nth_error (calls_of (snd (create_tiles acquisition media_id a s))) k = Some (c, resp) ->
  exists n aid tile m1 m2 m3 m4,
    tiles_per_side a = Ok n /\ c = AddTile aid tile /\
    lookup "matcher" tile = Some (VList [m1; m2; m3; m4]) /\
    List.length [m1; m2; m3; m4] = 4%nat /\
    matcher_at m1 (Z.of_nat k / n) (Z.of_nat k mod n) /\
    matcher_at m2 (Z.of_nat k / n) (Z.of_nat k mod n + 1) /\
    matcher_at m3 (Z.of_nat k / n + 1) (Z.of_nat k mod n) /\
    matcher_at m4 (Z.of_nat k / n + 1) (Z.of_nat k mod n + 1).
Proof.
  intros Hk.
  destruct (create_tiles_run acquisition media_id a s k c resp Hk)
    as (n & aid & tile & Hn & _ & -> & _ & _ & m1 & m2 & m3 & m4 & Hm & H1' & H2' & H3' & H4').
  exists n, aid, tile, m1, m2, m3, m4. repeat split; try assumption; try reflexivity;
    try apply H1'; try apply H2'; try apply H3'; try apply H4'.
Qed.

Lemma create_tiles_matchers_witness :
  exists aid tile m1 m2 m3 m4,
    fst (nth 6 (calls_of (snd (create_tiles (VDict [("acquisition_id", VStr "ACQ1")])
                                  "TAPE1" default_args (0, 0))))
               (AddRois VNone VNone, Ok VNone)) = AddTile aid tile /\
    lookup "matcher" tile = Some (VList [m1; m2; m3; m4]) /\
    matcher_at m1 1 2 /\ matcher_at m2 1 3 /\ matcher_at m3 2 2 /\ matcher_at m4 2 3.
Proof.
  destruct (create_tiles_matchers (R := Z) (C := Z) (VDict [("acquisition_id", VStr "ACQ1")])
              "TAPE1" default_args (0, 0) 6
              (fst (nth 6 (calls_of (snd (create_tiles (VDict [("acquisition_id", VStr "ACQ1")])
                                  "TAPE1" default_args (0, 0))))
                        (AddRois VNone VNone, Ok VNone)))
              (snd (nth 6 (calls_of (snd (create_tiles (VDict [("acquisition_id", VStr "ACQ1")])
                                  "TAPE1" default_args (0, 0))))
                        (AddRois VNone VNone, Ok VNone))))
    as (n & aid & tile & m1 & m2 & m3 & m4 & Hn & Hc & Hm & _ & H1' & H2' & H3' & H4').
  - vm_compute. reflexivity.
  - assert (En : n = 4) by (vm_compute in Hn; congruence). subst n.
    exists aid, tile, m1, m2, m3, m4. repeat split; try assumption;
      try apply H1'; try apply H2'; try apply H3'; try apply H4'.
Defined.

(** ** C8: error handling *)


Section Discipline.
Context {R C : Type} `{Host R} `{Client C}.

Local Notation "'run_post'" := (post (R := R) (C := C)).




























End Discipline.




(** A store that fails on its fourth call with a client error: the run
    stops there, prints one line and returns normally. *)
Example generate_data_client_error :
  let run := generate_data (with_volume default_args 1 1 5 5)
               (0, {| budget := 3; fault := TEMdbClientError "boom"; stored := 0 |}) in
  fst (fst run) = Ok tt /\
  map (fun cr => is_ok (snd cr)) (calls_of (snd run)) = [true; true; true; false] /\
  last (snd run) (Printed "") = Printed "An error occurred: boom".
Proof. vm_compute. repeat split. Qed.

(** The same store failing with another exception: it propagates. *)
Example generate_data_other_error :
  let run := generate_data (with_volume default_args 1 1 5 5)
               (0, {| budget := 3; fault := OtherError "ConnectionError"; stored := 0 |}) in
  fst (fst run) = Raise (OtherError "ConnectionError") /\
  map (fun cr => is_ok (snd cr)) (calls_of (snd run)) = [true; true; true; false] /\
  last (snd run) (Printed "") = Called
    (Create section_r
       [("section_id", VStr "SECCUTBLK_SPEC1000_0011001"); ("section_number", VInt 1);
        ("cutting_session_id", VStr "CUTBLK_SPEC1000_0011"); ("media_type", VStr "tape");
        ("media_id", VStr "TAPEBLK_SPEC1000_0011"); ("relative_position", VInt 1)])
    (Raise (OtherError "ConnectionError")).
Proof. vm_compute. repeat split. Qed.

(** ** C6: the summary against the tiles created *)

(** C6.  With the default sizes the two figures differ: [create_tiles]
    makes [int(ratio) ** 2 = 16] tiles per acquisition, the summary prints
    [int(ratio ** 2) = 24]; in a run with one imaging session of five ROIs
    80 [add_tile] calls are made and "120 total tiles" is printed. *)
Theorem summary_overstates_tiles :
  let a := with_volume default_args 1 1 5 5 in
  let run := generate_data a (0, 0) in
  tiles_per_side a = Ok 4 /\
  summary_tiles_per_acquisition a = Ok 24 /\
  count_kind KAddTile (calls_of (snd run)) = 80 /\
  count_kind (KCreate acquisition_r) (calls_of (snd run)) = 5 /\
  last (printed_of (snd run)) "" = "Created 120 total tiles (24 tiles per acquisition)".
Proof. vm_compute. repeat split. Qed.

(** ** C5: ROIs jittered around a base rectangle *)






Section Jitter.
Context {R C : Type} `{Host R} `{Client C}.

Local Notation "'run_post'" := (post (R := R) (C := C)).

(** *** Code that creates no ROI *)


















(** *** Code whose ROIs are jittered around their session's rectangle *)











End Jitter.



(** ** C9: parents before children *)

Lemma returned_app (cs1 cs2 : list (call * result value)) :
  returned (cs1 ++ cs2) = returned cs1 ++ returned cs2.
Proof. apply flat_map_app. Qed.

Lemma resolved_incl (seen seen' : store) (ref : resource * string * option value) :
  incl seen seen' -> resolved seen ref -> resolved seen' ref.
Proof.
  intros Hi (parent & v & Hin & Hg & Hf). exists parent, v.
  split; [now apply Hi | now split].
Qed.

Lemma causal_from_incl (cs : list (call * result value)) (seen seen' : store) :
  incl seen seen' -> causal_from seen cs -> causal_from seen' cs.
Proof.
  revert seen seen'. induction cs as [ | cr cs IH]; intros seen seen' Hi; [trivial | ].
  cbn [causal_from]. intros [Hr Hc]. split.
  - eapply Forall_impl; [ | exact Hr]. intros ref. now apply resolved_incl.
  - apply (IH (seen ++ returned_by (fst cr) (snd cr))); [ | exact Hc].
    apply incl_app; [now apply incl_appl | apply incl_appr, incl_refl].
Qed.

Lemma causal_from_app (cs1 cs2 : list (call * result value)) (seen : store) :
  causal_from seen cs1 -> causal_from (seen ++ returned cs1) cs2 ->
  causal_from seen (cs1 ++ cs2).
Proof.
  revert seen. induction cs1 as [ | cr cs1 IH]; intros seen H1 H2.
  - cbn in H2 |- *. now rewrite app_nil_r in H2.
  - cbn [List.app causal_from] in H1 |- *. destruct H1 as [Hr H1].
    split; [exact Hr | ]. apply IH; [exact H1 | ].
    cbn [returned flat_map] in H2. fold (returned cs1) in H2.
    now rewrite app_assoc in H2.
Qed.

Lemma causal_from_split (pre post : list (call * result value)) (c : call)
    (r : result value) (seen : store) :
  causal_from seen (pre ++ (c, r) :: post) ->
  Forall (resolved (seen ++ returned pre)) (references c).
Proof.
  revert seen. induction pre as [ | cr pre IH]; intros seen.
  - cbn. intros [Hr _]. now rewrite app_nil_r.
  - cbn [List.app causal_from]. intros [_ Hc]. apply IH in Hc.
    cbn [returned flat_map]. fold (returned pre). now rewrite app_assoc.
Qed.

Section Causal.
Context {R C : Type} `{Host R} `{Client C}.

Local Notation "'run_post'" := (post (R := R) (C := C)).

(** *** Rules *)

Lemma causal_ret {A} (a : A) (known : store) (Q : A -> store -> Prop) :
  Q a known -> run_post (ret a) (causal known Q).
Proof.
  intros HQ. apply post_ret. split; [exact I | ].
  intros ? [= <-]. cbn. now rewrite app_nil_r.
Qed.

Lemma causal_weaken {A} (m : M R C A) (known : store) (Q Q' : A -> store -> Prop) :
  run_post m (causal known Q) -> (forall a k, Q a k -> Q' a k) ->
  run_post m (causal known Q').
Proof.
  intros Hm HQ. eapply post_weaken; [exact Hm | ].
  intros r ev [Hc Hq]. split; [exact Hc | ]. intros a E. now apply HQ, Hq.
Qed.

Lemma causal_bind {A B} (m : M R C A) (k : A -> M R C B) (known : store)
    (Q : A -> store -> Prop) (Q' : B -> store -> Prop) :
  run_post m (causal known Q) ->
  (forall a known', incl known known' -> Q a known' ->
                    run_post (k a) (causal known' Q')) ->
  run_post (bind m k) (causal known Q').
Proof.
  intros Hm Hk. apply post_bind. eapply post_weaken; [exact Hm | ].
  intros [a | e] ev1 [Hc1 Hq1].
  - eapply post_weaken;
      [exact (Hk a _ (incl_appl _ (incl_refl known)) (Hq1 a eq_refl)) | ].
    intros r2 ev2 [Hc2 Hq2]. unfold causal. rewrite calls_of_app. split.
    + now apply causal_from_app.
    + intros b E. rewrite returned_app, app_assoc. now apply Hq2.
  - split; [exact Hc1 | discriminate].
Qed.

(** Code that makes no call refers to nothing. *)
Lemma causal_bind_silent {A B} (m : M R C A) (k : A -> M R C B) (P : A -> Prop)
    (known : store) (Q : B -> store -> Prop) :
  run_post m (silent P) ->
  (forall a, P a -> run_post (k a) (causal known Q)) ->
  run_post (bind m k) (causal known Q).
Proof.
  intros Hm Hk. apply post_bind. eapply post_weaken; [exact Hm | ].
  intros [a | e] ev1 [Hc HP].
  - eapply post_weaken; [exact (Hk a (HP a eq_refl)) | ].
    intros r2 ev2 HQ. unfold causal in HQ |- *. now rewrite calls_of_app, Hc.
  - unfold causal. rewrite Hc. split; [exact I | discriminate].
Qed.

Lemma causal_silent {A} (m : M R C A) (P : A -> Prop) (known : store) :
  run_post m (silent P) -> run_post m (causal known (fun _ _ => True)).
Proof.
  intros Hm. eapply post_weaken; [exact Hm | ].
  intros r ev [Hc _]. unfold causal. rewrite Hc. split; [exact I | trivial].
Qed.

Lemma causal_bind_lift {A B} (r : result A) (k : A -> M R C B)
    (known : store) (Q : B -> store -> Prop) :
  (forall a, r = Ok a -> run_post (k a) (causal known Q)) ->
  run_post (bind (lift r) k) (causal known Q).
Proof. intros Hk. eapply causal_bind_silent; [apply silent_lift | exact Hk]. Qed.

(** A call must refer to what is known; the record it returns is known
    afterwards. *)
Lemma causal_bind_request {B} (c : call) (k : value -> M R C B)
    (known : store) (Q : B -> store -> Prop) :
  Forall (resolved known) (references c) ->
  (forall v, run_post (k v) (causal (known ++ returned_by c (Ok v)) Q)) ->
  run_post (bind (request c) k) (causal known Q).
Proof.
  intros Hr Hk. apply post_bind, post_request. intros [v | e].
  - eapply post_weaken; [exact (Hk v) | ].
    intros r2 ev2 [Hc2 Hq2]. split.
    + cbn [List.app calls_of flat_map causal_from fst snd]. split; [exact Hr | ].
      exact Hc2.
    + intros b E. cbn [List.app calls_of flat_map returned fst snd].
      fold (calls_of ev2). fold (returned (calls_of ev2)).
      rewrite app_assoc. now apply Hq2.
  - split; [ | discriminate]. cbn. split; [exact Hr | exact I].
Qed.

Lemma causal_foldM {A S} (body : S -> A -> M R C S) (l : list A) (known : store)
    (Inv : S -> store -> Prop) :
  (forall acc x known', In x l -> incl known known' -> Inv acc known' ->
                        run_post (body acc x) (causal known' Inv)) ->
  forall acc, Inv acc known -> run_post (foldM body l acc) (causal known Inv).
Proof.
  intros Hbody.
  enough (Hgen : forall l', incl l' l -> forall acc known', incl known known' ->
             Inv acc known' -> run_post (foldM body l' acc) (causal known' Inv)).
  { intros acc. apply (Hgen l (incl_refl l)), incl_refl. }
  induction l' as [ | x l' IH]; intros Hl acc known' Hi Hinv; cbn [foldM].
  - now apply causal_ret.
  - eapply causal_bind.
    + apply Hbody; [apply Hl; now left | exact Hi | exact Hinv].
    + intros acc' known'' Hi' Hinv'. apply IH; [ | | exact Hinv'].
      * intros y Hy. apply Hl. now right.
      * now apply (incl_tran Hi).
Qed.

Lemma causal_mapM {A B} (body : A -> M R C B) (l : list A) (known : store)
    (E : B -> store -> Prop) :
  (forall y k k', incl k k' -> E y k -> E y k') ->
  (forall x known', incl known known' -> run_post (body x) (causal known' E)) ->
  run_post (mapM body l) (causal known (fun ys k => Forall (fun y => E y k) ys)).
Proof.
  intros Hmono Hbody.
  enough (Hgen : forall known', incl known known' ->
             run_post (mapM body l)
               (causal known' (fun ys k => Forall (fun y => E y k) ys))).
  { apply Hgen, incl_refl. }
  induction l as [ | x l IH]; intros known' Hi; cbn [mapM].
  - apply causal_ret. constructor.
  - eapply causal_bind; [now apply Hbody | ].
    intros y k1 Hi1 Hy. eapply causal_bind; [apply IH, (incl_tran Hi Hi1) | ].
    intros ys k2 Hi2 Hys. apply causal_ret. constructor; [ | exact Hys].
    now apply (Hmono y k1 k2).
Qed.

Lemma generate_jittered_roi_silent (bx by_ bw bh j : Z) :
  run_post (generate_jittered_roi bx by_ bw bh j) (silent (fun _ => True)).
Proof.
  unfold generate_jittered_roi.
  do 4 (eapply silent_bind; [apply silent_uniform | intros ? _];
        eapply silent_bind; [apply silent_lift | intros ? _]).
  now apply silent_ret.
Qed.

Lemma silent_now : run_post datetime_now (silent (fun _ => True)).
Proof. apply post_now. intros t. split; [reflexivity | trivial]. Qed.

Lemma silent_choices (p : string) (n : nat) :
  run_post (random_choices p n) (silent (fun _ => True)).
Proof. apply post_choices. intros v. split; [reflexivity | trivial]. Qed.

(** A record is known: it was known, or has been returned since. *)
Ltac known :=
  first
    [ assumption
    | apply in_or_app; right; left; reflexivity
    | apply in_or_app; left; known
    | match goal with
      | Hi : incl ?k _ |- In _ _ => apply Hi; clear Hi; known
      end ].

(** A reference resolves against a known record, by a key read from it. *)
Ltac resolve :=
  match goal with
  | Hg : getitem ?p ?key = Ok ?v |- resolved _ (_, ?key, _) =>
      solve [exists p, v; split; [cbn [fst snd]; known
                                  | split; [exact Hg | reflexivity]]]
  end.

Ltac causal_step :=
  first
    [ apply causal_ret
    | apply causal_bind_lift; intros ? ?
    | eapply causal_bind_silent;
      [ first [ apply silent_print | apply silent_uniform | apply silent_randint
              | apply silent_gauss | apply silent_now | apply silent_choices
              | apply generate_focus_score_silent
              | apply calculate_stage_position_silent
              | apply generate_matcher_data_silent
              | apply generate_jittered_roi_silent ]
      | intros ? _ ]
    | apply causal_bind_request; [repeat constructor; resolve | intros ?] ].

(** *** The generator, function by function *)

Lemma create_specimen_causal (known : store) :
  run_post create_specimen (causal known (fun sp k => In (specimen_r, sp) k)).
Proof. unfold create_specimen. repeat causal_step. known. Qed.

Lemma create_block_causal (specimen : value) (i : Z) (known : store) :
  In (specimen_r, specimen) known ->
  run_post (create_block specimen i) (causal known (fun b k => In (block_r, b) k)).
Proof. intros Hs. unfold create_block. repeat causal_step. known. Qed.

Lemma create_blocks_causal (specimen : value) (nb : Z) (known : store) :
  In (specimen_r, specimen) known ->
  run_post (create_blocks specimen nb)
    (causal known (fun bs k => Forall (fun b => In (block_r, b) k) bs)).
Proof.
  intros Hs. unfold create_blocks. apply causal_mapM.
  - intros b k k' Hi Hb. now apply Hi.
  - intros i known' Hi. apply create_block_causal. known.
Qed.

Lemma create_cutting_session_causal (block : value) (n : Z) (known : store) :
  In (block_r, block) known ->
  run_post (create_cutting_session block n)
    (causal known (fun cm k => In (cutting_session_r, fst cm) k)).
Proof. intros Hb. unfold create_cutting_session. repeat causal_step. cbn [fst]. known. Qed.

Lemma create_section_causal (cutting_session : value) (n : Z) (media_id : string)
    (known : store) :
  In (cutting_session_r, cutting_session) known ->
  run_post (create_section cutting_session n media_id)
    (causal known (fun section k => In (section_r, section) k)).
Proof. intros Hc. unfold create_section. repeat causal_step. known. Qed.

Lemma create_roi_causal (section : value) (id : Z) (jittered_roi : record)
    (block specimen : value) (known : store) :
  In (section_r, section) known -> In (block_r, block) known ->
  In (specimen_r, specimen) known ->
  run_post (create_roi section id jittered_roi block specimen)
    (causal known (fun roi k => In (roi_r, roi) k)).
Proof. intros Hs Hb Hp. unfold create_roi. repeat causal_step. known. Qed.

Lemma create_imaging_session_causal (specimen block : value) (media_id : string)
    (n : Z) (known : store) :
  In (specimen_r, specimen) known -> In (block_r, block) known ->
  run_post (create_imaging_session specimen block media_id n)
    (causal known (fun session k => In (imaging_session_r, session) k)).
Proof. intros Hp Hb. unfold create_imaging_session. repeat causal_step. known. Qed.

Lemma create_acquisition_causal (imaging_session roi : value) (a : args)
    (known : store) :
  In (imaging_session_r, imaging_session) known -> In (roi_r, roi) known ->
  run_post (create_acquisition imaging_session roi a)
    (causal known (fun acquisition k => In (acquisition_r, acquisition) k)).
Proof. intros Hs Hr. unfold create_acquisition. repeat causal_step. known. Qed.

Lemma create_tile_causal (acquisition : value) (media_id : string) (a : args)
    (base : spec_float) (n k : Z) (known : store) :
  In (acquisition_r, acquisition) known ->
  run_post (create_tile acquisition media_id a base n k)
    (causal known (fun _ _ => True)).
Proof. intros Ha. unfold create_tile. repeat causal_step. exact I. Qed.

Lemma create_tiles_causal (acquisition : value) (media_id : string) (a : args)
    (known : store) :
  In (acquisition_r, acquisition) known ->
  run_post (create_tiles acquisition media_id a) (referring known).
Proof.
  intros Ha. unfold create_tiles. do 2 causal_step.
  eapply causal_weaken; [apply (causal_mapM _ _ _ (fun _ _ => True)) | trivial].
  - trivial.
  - intros k known' Hi. apply create_tile_causal. known.
Qed.

(** *** The loops *)

Lemma section_body_causal (specimen block cutting_session : value) (media_id : string)
    (j bx by_ bw bh : Z) (block_rois : list (value * string)) (k : Z) (known : store) :
  In (specimen_r, specimen) known -> In (block_r, block) known ->
  In (cutting_session_r, cutting_session) known -> rois_known block_rois known ->
  run_post (section_body specimen block cutting_session media_id j bx by_ bw bh
                         block_rois k)
    (causal known rois_known).
Proof.
  intros Hp Hb Hc Hrois. unfold section_body.
  eapply causal_bind; [now apply create_section_causal | ].
  intros section k1 Hi1 Hs.
  do 2 causal_step.
  eapply causal_bind; [apply create_roi_causal; known | ].
  intros roi k2 Hi2 Hr. apply causal_ret.
  apply Forall_app. split.
  - eapply Forall_impl; [ | exact Hrois]. intros p Hin. cbn beta in Hin. known.
  - constructor; [exact Hr | constructor].
Qed.

Lemma cutting_session_body_causal (a : args) (specimen block : value)
    (acc : counters * list (value * string)) (j : Z) (known : store) :
  In (specimen_r, specimen) known -> In (block_r, block) known ->
  rois_known (snd acc) known ->
  run_post (cutting_session_body a specimen block acc j)
    (causal known (fun acc' k => rois_known (snd acc') k)).
Proof.
  intros Hp Hb Hrois. unfold cutting_session_body.
  eapply causal_bind; [now apply create_cutting_session_causal | ].
  intros cm k1 Hi1 Hc.
  do 4 causal_step.
  eapply causal_bind.
  - apply (causal_foldM _ _ _ rois_known).
    + intros brs k k2 _ Hi2 Hbrs. apply section_body_causal; [known | known | known | exact Hbrs].
    + eapply Forall_impl; [ | exact Hrois]. intros p Hin. cbn beta in Hin. known.
  - intros brs k3 Hi3 Hbrs. apply causal_ret. exact Hbrs.
Qed.

Lemma attach_roi_causal (a : args) (imaging_session : value) (media_id : string)
    (u : unit) (roi : value) (known : store) :
  In (imaging_session_r, imaging_session) known -> In (roi_r, roi) known ->
  run_post (attach_roi a imaging_session media_id u roi) (causal known (fun _ _ => True)).
Proof.
  intros Hs Hr. unfold attach_roi.
  do 5 causal_step. causal_step.
  eapply causal_bind; [apply create_acquisition_causal; known | ].
  intros acquisition k1 Hi1 Ha.
  eapply causal_bind; [now apply create_tiles_causal | ].
  intros tiles k2 Hi2 _. now apply causal_ret.
Qed.

Lemma imaging_session_body_causal (a : args) (specimen block : value)
    (media_id : string) (media_rois : list value) (acc : counters * Z) (i : Z)
    (known : store) :
  In (specimen_r, specimen) known -> In (block_r, block) known ->
  Forall (fun roi => In (roi_r, roi) known) media_rois ->
  run_post (imaging_session_body a specimen block media_id media_rois acc i)
    (causal known (fun _ _ => True)).
Proof.
  intros Hp Hb Hrois. unfold imaging_session_body.
  do 4 causal_step.
  eapply causal_bind; [now apply create_imaging_session_causal | ].
  intros session k1 Hi1 Hs.
  eapply causal_bind.
  - apply (causal_foldM _ _ _ (fun _ _ => True)); [ | exact I].
    intros u roi k2 Hin Hi2 _. apply attach_roi_causal; [known | ].
    apply Hi2, Hi1.
    apply (proj1 (Forall_forall _ _) (Forall_slice _ _ _ _ Hrois) roi Hin).
  - intros u k3 Hi3 _. now apply causal_ret.
Qed.

Lemma media_group_body_causal (a : args) (specimen block : value)
    (acc : counters * Z) (g : string * list value) (known : store) :
  In (specimen_r, specimen) known -> In (block_r, block) known ->
  Forall (fun roi => In (roi_r, roi) known) (snd g) ->
  run_post (media_group_body a specimen block acc g) (causal known (fun _ _ => True)).
Proof.
  intros Hp Hb Hrois. unfold media_group_body.
  do 5 causal_step.
  apply (causal_foldM _ _ _ (fun _ _ => True)); [ | exact I].
  intros acc' i k1 _ Hi1 _. apply imaging_session_body_causal; [known | known | ].
  eapply Forall_impl; [ | exact Hrois]. intros roi Hin. cbn beta in Hin. known.
Qed.

Lemma block_body_causal (a : args) (specimen : value) (acc : Z * Z) (block : value)
    (known : store) :
  In (specimen_r, specimen) known -> In (block_r, block) known ->
  run_post (block_body a specimen acc block) (causal known (fun _ _ => True)).
Proof.
  intros Hp Hb. unfold block_body.
  eapply causal_bind.
  - apply (causal_foldM _ _ _ (fun acc' k => rois_known (snd acc') k)); [ | constructor].
    intros acc' j k1 _ Hi1 Hrois. apply cutting_session_body_causal; [known | known | exact Hrois].
  - intros cr k2 Hi2 Hrois. eapply causal_bind.
    + apply (causal_foldM _ _ _ (fun _ _ => True)); [ | exact I].
      intros acc' g k3 Hg Hi3 _. apply media_group_body_causal; [known | known | ].
      apply Forall_forall. intros roi Hroi. apply Hi3.
      destruct g as [m rs].
      destruct (rois_by_media_grouped (snd cr) m rs Hg) as [_ Hin].
      apply (proj1 (Forall_forall _ _) Hrois (roi, m)), Hin, Hroi.
    + intros it k4 Hi4 _. now apply causal_ret.
Qed.

Lemma walk_causal (a : args) : run_post (walk a) (causal [] (fun _ _ => True)).
Proof.
  unfold walk.
  eapply causal_bind; [apply create_specimen_causal | ].
  intros specimen k1 Hi1 Hp.
  eapply causal_bind; [now apply create_blocks_causal | ].
  intros blocks k2 Hi2 Hbs.
  eapply causal_bind.
  - apply (causal_foldM _ _ _ (fun _ _ => True)); [ | exact I].
    intros acc block k3 Hin Hi3 _. apply block_body_causal; [known | ].
    apply Hi3. apply (proj1 (Forall_forall _ _) Hbs block Hin).
  - intros totals k4 Hi4 _. unfold summary.
    do 5 causal_step. eapply causal_silent, silent_print.
Qed.

End Causal.

(** A block sent before any specimen was returned refers to nothing. *)
Example orphan_block_unresolved :
  ~ causal_from [] [(Create block_r [("specimen_id", VStr "SPEC1000")], Ok VNone)].
Proof.
  cbn. intros [Hr _]. inversion Hr as [ | ? ? (parent & v & [] & _) _].
Qed.

(** C9.  In every run of [generate_data], error-free or not and against any
    client: each parent reference of each call made (the [specimen_id] of a
    block or imaging session, the [block_id] of a cutting session or
    imaging session, the [cutting_session_id] of a section, the
    [specimen_id], [block_id] and [section_number] of a ROI, the first two
    being the [_id] the store assigned, the [roi_id] and
    [imaging_session_id] of an acquisition, both arguments of [add_rois],
    the acquisition id of [add_tile] and of the tile it sends) is present
    and is the identifier read from a record of the parent's kind that an
    earlier create call of the run returned. *)
Theorem generate_data_parents_first {R C : Type} `{Host R} `{Client C}
    (a : args) (s : R * C) :
  forall pre c r post,
    calls_of (snd (generate_data a s)) = pre ++ (c, r) :: post ->
    Forall (resolved (returned pre)) (references c).
Proof.
  intros pre c r post E. rewrite generate_data_calls in E.
  destruct (walk_causal a s) as [Hc _]. rewrite E in Hc.
  exact (causal_from_split pre post c r [] Hc).
Qed.

Lemma generate_data_parents_first_witness :
  let cs := calls_of (snd (generate_data (with_volume default_args 1 1 1 1) (0, 0))) in
  let cr := nth 4 cs (AddRois VNone VNone, Ok VNone) in
  cs = firstn 4 cs ++ (fst cr, snd cr) :: skipn 5 cs /\
  kind_of (fst cr) = KCreate roi_r /\
  Forall (resolved (returned (firstn 4 cs))) (references (fst cr)).
Proof.
  cbv zeta.
  assert (E : calls_of (snd (generate_data (with_volume default_args 1 1 1 1) (0, 0))) =
              firstn 4 (calls_of (snd (generate_data (with_volume default_args 1 1 1 1)
                                         (0, 0)))) ++
              (fst (nth 4 (calls_of (snd (generate_data (with_volume default_args 1 1 1 1)
                                            (0, 0))))
                        (AddRois VNone VNone, Ok VNone)),
               snd (nth 4 (calls_of (snd (generate_data (with_volume default_args 1 1 1 1)
                                            (0, 0))))
                        (AddRois VNone VNone, Ok VNone))) ::
              skipn 5 (calls_of (snd (generate_data (with_volume default_args 1 1 1 1)
                                        (0, 0))))).
  { vm_compute. reflexivity. }
  split; [exact E | ]. split; [vm_compute; reflexivity | ].
  exact (generate_data_parents_first (R := Z) (C := Z)
           (with_volume default_args 1 1 1 1) (0, 0) _ _ _ _ E).
Defined.

(** ** Properties of every event of a run *)

Lemma post_conj {R C : Type} `{Host R} `{Client C} {A} (m : M R C A)
    (P Q : result A -> list event -> Prop) :
  post m P -> post m Q -> post m (fun r ev => P r ev /\ Q r ev).
Proof. intros HP HQ s. split; [apply HP | apply HQ]. Qed.

Section Every.
Context {R C : Type} `{Host R} `{Client C}.
Variable p : event -> Prop.

Local Notation "'run_post'" := (post (R := R) (C := C)).

Lemma every_ret {A} (a : A) : run_post (ret a) (every p).
Proof. apply post_ret. constructor. Qed.

Lemma every_lift {A} (r : result A) : run_post (lift r) (every p).
Proof. apply post_lift. constructor. Qed.

Lemma every_print (line : string) : p (Printed line) -> run_post (print line) (every p).
Proof. intros Hp. apply post_print. now repeat constructor. Qed.

Lemma every_uniform (a b : value) :
  (forall v, p (Drew (Uniform a b) (VFloat v))) -> run_post (random_uniform a b) (every p).
Proof. intros Hp. apply post_uniform. intros v. now repeat constructor. Qed.

Lemma every_randint (a b : Z) :
  (forall v, p (Drew (Randint a b) (VInt v))) -> run_post (random_randint a b) (every p).
Proof. intros Hp. apply post_randint. intros v. now repeat constructor. Qed.

Lemma every_gauss (a b : value) :
  (forall v, p (Drew (Gauss a b) (VFloat v))) -> run_post (random_gauss a b) (every p).
Proof. intros Hp. apply post_gauss. intros v. now repeat constructor. Qed.

Lemma every_choices (s : string) (n : nat) :
  (forall v, p (Drew (Choices s n) (VStr v))) -> run_post (random_choices s n) (every p).
Proof. intros Hp. apply post_choices. intros v. now repeat constructor. Qed.

Lemma every_now : (forall t, p (Drew Now (VInt t))) -> run_post datetime_now (every p).
Proof. intros Hp. apply post_now. intros v. now repeat constructor. Qed.

Lemma every_request (c : call) :
  (forall r, p (Called c r)) -> run_post (request c) (every p).
Proof. intros Hp. apply post_request. intros r. now repeat constructor. Qed.

Lemma every_bind {A B} (m : M R C A) (k : A -> M R C B) :
  run_post m (every p) -> (forall a, run_post (k a) (every p)) ->
  run_post (bind m k) (every p).
Proof.
  intros Hm Hk. apply post_bind. eapply post_weaken; [exact Hm | ].
  intros [a | e] ev1 H1; [ | exact H1].
  eapply post_weaken; [exact (Hk a) | ].
  intros r2 ev2 H2. apply Forall_app. now split.
Qed.

Lemma every_bind_lift {A B} (r : result A) (k : A -> M R C B) :
  (forall a, r = Ok a -> run_post (k a) (every p)) ->
  run_post (bind (lift r) k) (every p).
Proof.
  intros Hk. apply post_bind, post_lift. destruct r as [a | e].
  - eapply post_weaken; [exact (Hk a eq_refl) | ]. now intros r2 ev2 H2.
  - constructor.
Qed.

Lemma every_foldM {A S} (body : S -> A -> M R C S) (l : list A) :
  (forall acc x, In x l -> run_post (body acc x) (every p)) ->
  forall acc, run_post (foldM body l acc) (every p).
Proof.
  induction l as [ | x l IH]; intros Hbody acc; cbn [foldM].
  - apply every_ret.
  - apply every_bind; [apply Hbody; now left | ].
    apply IH. intros acc' y Hy. apply Hbody. now right.
Qed.

Lemma every_mapM {A B} (body : A -> M R C B) (l : list A) :
  (forall x, In x l -> run_post (body x) (every p)) -> run_post (mapM body l) (every p).
Proof.
  induction l as [ | x l IH]; intros Hbody; cbn [mapM].
  - apply every_ret.
  - apply every_bind; [apply Hbody; now left | intros y].
    apply every_bind; [ | intros ys; apply every_ret].
    apply IH. intros z Hz. apply Hbody. now right.
Qed.

End Every.

(** One step through code whose events all satisfy a property; [tac]
    shows the property of a single event. *)
Ltac every_step tac :=
  first
    [ apply every_ret | apply every_lift
    | apply every_print; tac
    | apply every_uniform; intros ?; tac
    | apply every_randint; intros ?; tac
    | apply every_gauss; intros ?; tac
    | apply every_choices; intros ?; tac
    | apply every_now; intros ?; tac
    | apply every_request; intros ?; tac
    | apply every_foldM; intros ? ? _
    | apply every_mapM; intros ? _
    | apply every_bind; [ | intros ? ] ].

Ltac unfold_generator :=
  unfold walk, block_body, cutting_session_body, section_body, media_group_body,
    imaging_session_body, attach_roi, summary, create_specimen, create_blocks,
    create_block, create_cutting_session, create_section, generate_jittered_roi,
    create_roi, create_imaging_session, create_acquisition, create_tiles, create_tile,
    generate_matcher_data, uniform_list, generate_focus_score,
    calculate_stage_position.

Section Edges.
Context {R C : Type} `{Host R} `{Client C}.

Local Notation "'run_post'" := (post (R := R) (C := C)).

(** *** A batch size that is not positive *)

Lemma range_nonpositive (n : Z) : n <= 0 -> range n = [].
Proof. intros Hn. unfold range. now replace (Z.to_nat n) with 0%nat by lia. Qed.

Lemma media_group_body_no_batch (a : args) (specimen block : value)
    (acc : counters * Z) (g : string * list value) :
  rois_per_imaging_session a <= 0 ->
  run_post (media_group_body a specimen block acc g) (every before_imaging).
Proof.
  intros Hb. unfold media_group_body.
  apply every_bind_lift. intros num_sessions Hn.
  assert (Hle : num_sessions <= 0).
  { unfold floordiv in Hn.
    destruct (Z.eqb_spec (rois_per_imaging_session a) 0); [discriminate | ].
    injection Hn as <-. unfold len.
    pose proof (Z.div_mod (Z.of_nat (List.length (snd g))) (rois_per_imaging_session a)
                  ltac:(assumption)).
    pose proof (Z.mod_neg_bound (Z.of_nat (List.length (snd g)))
                  (rois_per_imaging_session a) ltac:(lia)).
    nia. }
  rewrite (range_nonpositive _ Hle). cbn [foldM].
  repeat every_step ltac:(exact I).
Qed.

Lemma walk_no_batch (a : args) :
  rois_per_imaging_session a <= 0 -> run_post (walk a) (every before_imaging).
Proof.
  intros Hb.
  unfold walk, block_body, cutting_session_body, section_body, summary, create_specimen,
    create_blocks, create_block, create_cutting_session, create_section,
    generate_jittered_roi, create_roi.
  repeat first [ apply (media_group_body_no_batch _ _ _ _ _ Hb)
               | every_step ltac:(first [exact I | reflexivity]) ].
Qed.

Lemma every_calls (q : call -> Prop) (ev : list event) :
  Forall (fun e => match e with Called c _ => q c | _ => True end) ev ->
  Forall (fun cr => q (fst cr)) (calls_of ev).
Proof.
  induction 1 as [ | e ev He _ IH]; [constructor | ].
  destruct e as [d v | c r | line]; cbn; try exact IH. now constructor.
Qed.

(** *** The summary is printed after a clean walk only *)










End Edges.

(** Whatever the client does, a batch size of zero or less keeps
    [generate_data] out of the imaging phase: it creates no imaging
    session, attaches no ROI, creates no acquisition and sends no tile. *)
Theorem generate_data_no_batch {R C : Type} `{Host R} `{Client C}
    (a : args) (s : R * C) :
  rois_per_imaging_session a <= 0 ->
  Forall (fun cr => imaging_phase (fst cr) = false)
         (calls_of (snd (generate_data a s))).
Proof.
  intros Hb. rewrite generate_data_calls.
  apply (every_calls (fun c => imaging_phase c = false)).
  apply (walk_no_batch a Hb s).
Qed.

Lemma generate_data_no_batch_witness :
  rois_per_imaging_session (with_volume default_args 1 2 3 (-2)) <= 0 /\
  Forall (fun cr => imaging_phase (fst cr) = false)
         (calls_of (snd (generate_data (with_volume default_args 1 2 3 (-2)) (0, 0)))).
Proof.
  split; [cbn; lia | ].
  apply (generate_data_no_batch (R := Z) (C := Z)). cbn. lia.
Defined.



(** The base focus score of an acquisition is the first thing
    [create_tiles] draws, by [random.uniform(20.5, 21.5)], and every focus
    score of the acquisition's tiles is then drawn by
    [random.gauss(base, 0.5)] around that one base. *)
Theorem create_tiles_focus_base {R C : Type} `{Host R} `{Client C}
    (acquisition : value) (media_id : string) (a : args) (s : R * C) :
  exists base rest,
    snd (create_tiles acquisition media_id a s)
      = Drew base_focus_draw (VFloat base) :: rest /\
    Forall (focus_around base) rest.
Proof.
  revert s.
  change (post (create_tiles acquisition media_id a)
            (fun _ ev => exists base rest,
                 ev = Drew base_focus_draw (VFloat base) :: rest /\
                 Forall (focus_around base) rest)).
  unfold create_tiles. apply post_bind, post_uniform. intros base.
  eapply post_weaken.
  - apply (every_bind_lift (focus_around base)). intros n _.
    unfold create_tile, generate_matcher_data, uniform_list, generate_focus_score,
      calculate_stage_position.
    repeat every_step ltac:(first [exact I | split; reflexivity]).
  - intros r ev Hall. exists base, ev. split; [reflexivity | exact Hall].
Qed.

(** ** Exceptions of the generator's own *)

Lemma own_result_bind {A B} (r : result A) (k : A -> result B) :
  own_error r -> (forall a, own_error (k a)) -> own_error (result_bind r k).
Proof.
  intros Hr Hk e. destruct r as [a | e']; cbn.
  - apply Hk.
  - intros [= ->]. now apply Hr.
Qed.

Lemma own_getitem (v : value) (k : string) : own_error (getitem v k).
Proof.
  intros e. unfold getitem. destruct v; try (intros [= <-]; exact I).
  destruct (lookup k d); [discriminate | intros [= <-]; exact I].
Qed.

Lemma own_floordiv (x y : Z) : own_error (floordiv x y).
Proof. intros e. unfold floordiv. destruct (y =? 0); [intros [= <-]; exact I | discriminate]. Qed.

Lemma own_pymod (x y : Z) : own_error (pymod x y).
Proof. intros e. unfold pymod. destruct (y =? 0); [intros [= <-]; exact I | discriminate]. Qed.

Lemma own_int_of_str (s : string) : own_error (int_of_str s).
Proof.
  intros e. unfold int_of_str.
  destruct (NilZero.int_of_string s); [discriminate | intros [= <-]; exact I].
Qed.

Lemma own_counter_get (k : string) (d : counters) : own_error (counter_get k d).
Proof.
  intros e. induction d as [ | [k' v] d IH]; cbn.
  - intros [= <-]. exact I.
  - destruct (String.eqb k k'); [discriminate | exact IH].
Qed.

Lemma own_float_of_int (z : Z) : own_error (float_of_int z).
Proof.
  intros e. unfold float_of_int.
  destruct (F64.of_Z z); try discriminate. intros [= <-]. exact I.
Qed.

Lemma own_ok {A} (a : A) : own_error (Ok a).
Proof. intros e. discriminate. Qed.

Lemma own_int_sub_float (z : Z) (f : spec_float) : own_error (int_sub_float z f).
Proof. apply own_result_bind; [apply own_float_of_int | intros x; apply own_ok]. Qed.

Lemma own_int_mul_float (z : Z) (f : spec_float) : own_error (int_mul_float z f).
Proof. apply own_result_bind; [apply own_float_of_int | intros x; apply own_ok]. Qed.

Lemma own_int_add_float (z : Z) (f : spec_float) : own_error (int_add_float z f).
Proof. apply own_result_bind; [apply own_float_of_int | intros x; apply own_ok]. Qed.

Lemma own_int_div_float (z : Z) (f : spec_float) : own_error (int_div_float z f).
Proof.
  apply own_result_bind; [apply own_float_of_int | intros x e].
  destruct (F64.is_zero f); [intros [= <-]; exact I | discriminate].
Qed.

Lemma own_effective_tile_size (t : Z) (o : spec_float) :
  own_error (effective_tile_size t o).
Proof.
  apply own_result_bind; [apply own_int_sub_float | intros x; apply own_int_mul_float].
Qed.

Lemma own_stage_ratio (a : args) : own_error (stage_ratio a).
Proof.
  apply own_result_bind; [apply own_effective_tile_size | intros x; apply own_int_div_float].
Qed.

Lemma own_py_int (x : spec_float) : own_error (py_int x).
Proof.
  intros e. unfold py_int. destruct x; try (intros [= <-]; exact I).
  all: destruct (F64.trunc _); [discriminate | intros [= <-]; exact I].
Qed.

Lemma own_float_sqr (x : spec_float) : own_error (float_sqr x).
Proof.
  intros e. unfold float_sqr.
  destruct (_ && _); [intros [= <-]; exact I | discriminate].
Qed.

Lemma own_tiles_per_side (a : args) : own_error (tiles_per_side a).
Proof. apply own_result_bind; [apply own_stage_ratio | intros x; apply own_py_int]. Qed.

Lemma own_summary_tiles (a : args) : own_error (summary_tiles_per_acquisition a).
Proof.
  apply own_result_bind; [ | intros x; apply own_py_int].
  apply own_result_bind; [apply own_stage_ratio | intros x; apply own_float_sqr].
Qed.

Create HintDb own_errors.
#[export] Hint Resolve own_getitem own_floordiv own_pymod own_int_of_str own_counter_get
  own_int_sub_float own_int_mul_float own_int_add_float own_int_div_float
  own_effective_tile_size own_stage_ratio own_py_int own_tiles_per_side
  own_summary_tiles : own_errors.

Section Escapes.
Context {R C : Type} `{Host R} `{Client C}.

Local Notation "'run_post'" := (post (R := R) (C := C)).

Lemma esc_ok {A} (m : M R C A) :
  run_post m (fun r _ => exists a, r = Ok a) -> run_post m escapes.
Proof.
  intros Hm. eapply post_weaken; [exact Hm | ].
  intros r ev [a ->] e. discriminate.
Qed.

Lemma esc_ret {A} (a : A) : run_post (ret a) escapes.
Proof. apply post_ret. intros e. discriminate. Qed.

Lemma esc_lift {A} (r : result A) : own_error r -> run_post (lift r) escapes.
Proof. intros Hr. apply post_lift. intros e He. left. now apply Hr. Qed.

Lemma esc_print (line : string) : run_post (print line) escapes.
Proof. apply post_print. intros e. discriminate. Qed.

Lemma esc_uniform (a b : value) : run_post (random_uniform a b) escapes.
Proof. apply post_uniform. intros v e. discriminate. Qed.

Lemma esc_randint (a b : Z) : run_post (random_randint a b) escapes.
Proof. apply post_randint. intros v e. discriminate. Qed.

Lemma esc_gauss (a b : value) : run_post (random_gauss a b) escapes.
Proof. apply post_gauss. intros v e. discriminate. Qed.

Lemma esc_choices (p : string) (n : nat) : run_post (random_choices p n) escapes.
Proof. apply post_choices. intros v e. discriminate. Qed.

Lemma esc_now : run_post datetime_now escapes.
Proof. apply post_now. intros v e. discriminate. Qed.

Lemma esc_request (c : call) : run_post (request c) escapes.
Proof.
  apply post_request. intros r e ->. right. now exists [], c.
Qed.

Lemma esc_bind {A B} (m : M R C A) (k : A -> M R C B) :
  run_post m escapes -> (forall a, run_post (k a) escapes) ->
  run_post (bind m k) escapes.
Proof.
  intros Hm Hk. apply post_bind. eapply post_weaken; [exact Hm | ].
  intros [a | e] ev1 H1.
  - eapply post_weaken; [exact (Hk a) | ].
    intros r2 ev2 H2 e He. destruct (H2 e He) as [Hb | (pre & c & ->)]; [now left | ].
    right. exists (ev1 ++ pre), c. now rewrite app_assoc.
  - intros e' [= <-]. now apply H1.
Qed.

Lemma esc_foldM {A S} (body : S -> A -> M R C S) (l : list A) :
  (forall acc x, run_post (body acc x) escapes) ->
  forall acc, run_post (foldM body l acc) escapes.
Proof.
  intros Hbody. induction l as [ | x l IH]; intros acc; cbn [foldM].
  - apply esc_ret.
  - apply esc_bind; [apply Hbody | exact IH].
Qed.

Lemma esc_mapM {A B} (body : A -> M R C B) (l : list A) :
  (forall x, run_post (body x) escapes) -> run_post (mapM body l) escapes.
Proof.
  intros Hbody. induction l as [ | x l IH]; cbn [mapM].
  - apply esc_ret.
  - apply esc_bind; [apply Hbody | intros y].
    apply esc_bind; [exact IH | intros ys; apply esc_ret].
Qed.

Ltac esc_step :=
  first
    [ apply esc_ret | apply esc_lift; auto with own_errors | apply esc_print
    | apply esc_uniform | apply esc_randint | apply esc_gauss | apply esc_choices
    | apply esc_now | apply esc_request
    | apply esc_foldM; intros ? ?
    | apply esc_mapM; intros ?
    | apply esc_bind; [ | intros ? ] ].

Lemma walk_escapes (a : args) : run_post (walk a) escapes.
Proof. unfold_generator. repeat esc_step. Qed.

End Escapes.

(** Whatever the client does, an exception that leaves [generate_data] is
    one of Python's [KeyError], [TypeError], [ValueError], [OverflowError]
    and [ZeroDivisionError], or it is an exception foreign to the client
    library that the last client call of the run raised. *)
Theorem generate_data_escapes {R C : Type} `{Host R} `{Client C}
    (a : args) (s : R * C) (e : exn) :
  fst (fst (generate_data a s)) = Raise e ->
  builtin_error e \/
  exists name pre c,
    e = OtherError name /\ snd (generate_data a s) = pre ++ [Called c (Raise e)].
Proof.
  pose proof (walk_escapes a s) as Hw. unfold generate_data, try_except.
  destruct (walk a s) as [[r0 s0] ev0]. cbn [fst snd] in Hw.
  destruct r0 as [u | e0]; [discriminate | ].
  specialize (Hw e0 eq_refl).
  destruct e0; cbn [fst snd]; try discriminate; intros [= <-];
    try (left; exact I).
  destruct Hw as [[] | (pre & c & ->)]. right. now exists name, pre, c.
Qed.

Lemma generate_data_escapes_witness :
  fst (fst (generate_data (with_volume default_args 1 1 5 5)
              (0, {| budget := 3; fault := OtherError "ConnectionError"; stored := 0 |})))
    = Raise (OtherError "ConnectionError") /\
  (builtin_error (OtherError "ConnectionError") \/
   exists name pre c,
     OtherError "ConnectionError" = OtherError name /\
     snd (generate_data (with_volume default_args 1 1 5 5)
            (0, {| budget := 3; fault := OtherError "ConnectionError"; stored := 0 |}))
       = pre ++ [Called c (Raise (OtherError "ConnectionError"))]).
Proof.
  assert (E : fst (fst (generate_data (with_volume default_args 1 1 5 5)
              (0, {| budget := 3; fault := OtherError "ConnectionError"; stored := 0 |})))
    = Raise (OtherError "ConnectionError")) by (vm_compute; reflexivity).
  split; [exact E | ].
  exact (generate_data_escapes (R := Z) (C := flaky) _ _ _ E).
Defined.

(** ** Records returned without their id *)

Lemma id_missing_builtin (x : event) (e : exn) :
  id_missing x = Some e -> builtin_error e.
Proof.
  destruct x as [d v | c [v | e'] | line]; cbn; try discriminate.
  destruct (id_key c) as [k | ]; [ | discriminate].
  destruct (getitem v k) as [y | e''] eqn:E; [discriminate | ].
  intros [= <-]. exact (own_getitem v k e'' E).
Qed.

Lemma id_missing_last (pre0 pre post : list event) (x y : event) :
  Forall (fun e => id_missing e = None) pre0 ->
  pre0 ++ [x] = pre ++ y :: post -> id_missing y <> None ->
  pre = pre0 /\ y = x /\ post = [].
Proof.
  revert pre. induction pre0 as [ | z pre0 IH]; intros pre Hgood E Hy.
  - destruct pre as [ | z pre]; cbn in E.
    + injection E as -> <-. now repeat split.
    + injection E as _ E. now destruct pre.
  - inversion Hgood as [ | ? ? Hz Hgood']; subst.
    destruct pre as [ | z' pre]; cbn in E.
    + injection E as -> _. congruence.
    + injection E as <- E. destruct (IH pre Hgood' E Hy) as (-> & -> & ->).
      now repeat split.
Qed.

Section IdChecked.
Context {R C : Type} `{Host R} `{Client C}.

Local Notation "'run_post'" := (post (R := R) (C := C)).

Lemma ic_every {A} (m : M R C A) :
  run_post m (every (fun e => id_missing e = None)) -> run_post m id_checked.
Proof. intros Hm. eapply post_weaken; [exact Hm | ]. intros r ev Hall. now left. Qed.

Lemma ic_bind {A B} (m : M R C A) (k : A -> M R C B) :
  run_post m id_checked -> (forall a, run_post (k a) id_checked) ->
  run_post (bind m k) id_checked.
Proof.
  intros Hm Hk. apply post_bind. eapply post_weaken; [exact Hm | ].
  intros [a | e] ev1 H1.
  - destruct H1 as [Hg | (pre & x & e & _ & _ & He & _)]; [ | discriminate He].
    eapply post_weaken; [exact (Hk a) | ].
    intros r2 ev2 [Hg2 | (pre & x & e & -> & Hx & -> & Hpre)].
    + left. apply Forall_app. now split.
    + right. exists (ev1 ++ pre), x, e. rewrite app_assoc.
      repeat split; [exact Hx | ]. apply Forall_app. now split.
  - destruct H1 as [Hg | (pre & x & e' & -> & Hx & [= ->] & Hpre)].
    + now left.
    + right. now exists pre, x, e'.
Qed.

(** A call whose answer is not read. *)
Lemma ic_request (c : call) : id_key c = None -> run_post (request c) id_checked.
Proof.
  intros Hc. apply post_request. intros r. left.
  constructor; [ | constructor]. cbn. destruct r; [now rewrite Hc | reflexivity].
Qed.

(** A call followed by reading the id of the record it returns. *)
Lemma ic_request_id {B} (c : call) (key : string) (k : value -> value -> M R C B) :
  id_key c = Some key ->
  (forall v x, run_post (k v x) id_checked) ->
  run_post (bind (request c) (fun v => bind (lift (getitem v key)) (k v))) id_checked.
Proof.
  intros Hc Hk. apply post_bind, post_request. intros [v | e].
  - apply post_bind, post_lift. destruct (getitem v key) as [x | e] eqn:Eg.
    + eapply post_weaken; [exact (Hk v x) | ].
      assert (Hgood : id_missing (Called c (Ok v)) = None).
      { cbn. now rewrite Hc, Eg. }
      intros r2 ev2 [Hg2 | (pre & y & e & -> & Hy & -> & Hpre)].
      * left. cbn. now constructor.
      * right. exists (Called c (Ok v) :: pre), y, e.
        repeat split; [exact Hy | now constructor].
    + right. exists [], (Called c (Ok v)), e. repeat split; [ | constructor].
      cbn. now rewrite Hc, Eg.
  - left. now repeat constructor.
Qed.

Lemma ic_foldM {A S} (body : S -> A -> M R C S) (l : list A) :
  (forall acc x, run_post (body acc x) id_checked) ->
  forall acc, run_post (foldM body l acc) id_checked.
Proof.
  intros Hbody. induction l as [ | x l IH]; intros acc; cbn [foldM].
  - apply ic_every, every_ret.
  - apply ic_bind; [apply Hbody | exact IH].
Qed.

Lemma ic_mapM {A B} (body : A -> M R C B) (l : list A) :
  (forall x, run_post (body x) id_checked) -> run_post (mapM body l) id_checked.
Proof.
  intros Hbody. induction l as [ | x l IH]; cbn [mapM].
  - apply ic_every, every_ret.
  - apply ic_bind; [apply Hbody | intros y].
    apply ic_bind; [exact IH | intros ys; apply ic_every, every_ret].
Qed.

Ltac ic_quiet :=
  apply ic_every;
  first [ apply every_ret | apply every_lift | apply every_print; reflexivity
        | apply every_uniform; intros ?; reflexivity
        | apply every_randint; intros ?; reflexivity
        | apply every_gauss; intros ?; reflexivity
        | apply every_choices; intros ?; reflexivity
        | apply every_now; intros ?; reflexivity ].

Ltac ic_step :=
  first
    [ ic_quiet
    | apply ic_request; reflexivity
    | apply ic_request_id; [reflexivity | intros ? ?]
    | apply ic_foldM; intros ? ?
    | apply ic_mapM; intros ?
    | apply ic_bind; [ | intros ? ] ].

Lemma walk_id_checked (a : args) : run_post (walk a) id_checked.
Proof. unfold_generator. repeat ic_step. Qed.

End IdChecked.

(** Whatever the client does: when a record it returns lacks the id that
    [generate_data] reads from it next (or is no dict), the run stops
    there, with nothing after the call, and the [KeyError] (or
    [TypeError]) leaves [generate_data] uncaught. *)
Theorem generate_data_id_missing {R C : Type} `{Host R} `{Client C}
    (a : args) (s : R * C) (pre post : list event) (c : call) (v : value)
    (key : string) (e : exn) :
  snd (generate_data a s) = pre ++ Called c (Ok v) :: post ->
  id_key c = Some key -> getitem v key = Raise e ->
  post = [] /\ fst (fst (generate_data a s)) = Raise e.
Proof.
  intros E Hkey Hget.
  assert (Hbad : id_missing (Called c (Ok v)) = Some e).
  { cbn. now rewrite Hkey, Hget. }
  pose proof (walk_id_checked a s) as Hw. unfold generate_data, try_except in E |- *.
  destruct (walk a s) as [[r0 s0] ev0]. cbn [fst snd] in Hw.
  assert (Hnot : forall ev, Forall (fun x => id_missing x = None) ev ->
                            ev <> pre ++ Called c (Ok v) :: post).
  { intros ev Hall ->. apply Forall_app in Hall. destruct Hall as [_ Hall].
    inversion Hall as [ | ? ? Hx _]. congruence. }
  destruct Hw as [Hg | (pre0 & x & e0 & -> & Hx & -> & Hpre)].
  - exfalso. destruct r0 as [u | e0]; [now apply (Hnot ev0) | ].
    assert (Hg' : forall l, Forall (fun x => id_missing x = None) (ev0 ++ [Printed l])).
    { intros l. apply Forall_app. split; [exact Hg | now repeat constructor]. }
    destruct e0; cbn [snd] in E;
      first [exact (Hnot ev0 Hg E) | exact (Hnot _ (Hg' _) E)].
  - pose proof (id_missing_builtin x e0 Hx) as Hb.
    destruct e0; try contradiction Hb; cbn [fst snd] in E |- *.
    all: destruct (id_missing_last pre0 pre post x _ Hpre E ltac:(congruence))
      as (-> & <- & ->).
    all: split; [reflexivity | congruence].
Qed.

Lemma generate_data_id_missing_witness :
  exists pre c,
    snd (generate_data default_args (0, tt)) = pre ++ Called c (Ok (VDict [])) :: [] /\
    id_key c = Some "specimen_id" /\
    getitem (VDict []) "specimen_id" = Raise (KeyError "specimen_id") /\
    [] = @nil event /\
    fst (fst (generate_data default_args (0, tt))) = Raise (KeyError "specimen_id").
Proof.
  exists [Drew (Randint 1000 9999) (VInt 1000); Drew (Randint 1 100) (VInt 2);
          Drew Now (VInt 2)],
         (Create specimen_r [("specimen_id", VStr "SPEC1000");
                             ("description", VStr "Test specimen 2");
                             ("created_at", VStr "T2")]).
  assert (E : snd (generate_data (R := Z) (C := unit) default_args (0, tt)) =
              [Drew (Randint 1000 9999) (VInt 1000); Drew (Randint 1 100) (VInt 2);
               Drew Now (VInt 2)] ++
              Called (Create specimen_r [("specimen_id", VStr "SPEC1000");
                                         ("description", VStr "Test specimen 2");
                                         ("created_at", VStr "T2")])
                     (Ok (VDict [])) :: []) by (vm_compute; reflexivity).
  split; [exact E | ]. split; [reflexivity | ]. split; [reflexivity | ].
  exact (generate_data_id_missing (R := Z) (C := unit) _ _ _ _ _ _ _ _ E
           eq_refl eq_refl).
Defined.

(** ** Runs with nothing to do *)

Section Empty.
Context {R C : Type} `{Host R} `{Client C}.

Local Notation "'run_post'" := (post (R := R) (C := C)).

(** One step through a sequence of primitive operations, keeping the
    events explicit. *)
Ltac run_step :=
  first
    [ apply post_bind
    | apply post_ret; cbn beta iota
    | apply post_lift; cbn beta;
      lazymatch goal with
      | |- match ?r with Ok _ => _ | Raise _ => _ end => destruct r eqn:?
      end
    | apply post_print; cbn beta iota
    | apply post_uniform; intro; cbn beta iota
    | apply post_randint; intro; cbn beta iota
    | apply post_now; intro; cbn beta iota
    | apply post_request; intros [? | ?]; cbn beta iota ].

Lemma walk_no_blocks (a : args) :
  num_blocks a <= 0 ->
  run_post (walk a)
    (fun r ev =>
       (exists data resp, calls_of ev = [(Create specimen_r data, resp)]) /\
       (r = Ok tt ->
        exists sid t,
          summary_tiles_per_acquisition a = Ok t /\
          printed_of ev =
            ["Created specimen: " +++ sid; summary_header;
             "Created 0 blocks"; "Created 0 ROIs"; "Created 0 imaging sessions";
             "Created 0 total tiles (" +++ str_of_Z t +++ " tiles per acquisition)"])).
Proof.
  intros Hn. unfold walk, create_specimen, create_blocks, summary.
  rewrite (range_nonpositive _ Hn). cbn [mapM foldM].
  repeat run_step.
  all: split; [eexists _, _; reflexivity | ].
  all: try discriminate.
  intros _. eexists _, _. split; [reflexivity | reflexivity].
Qed.

(** The grid size cannot be computed: no tile is sent. *)
Lemma create_tiles_raise (acquisition : value) (media_id : string) (a : args)
    (e : exn) :
  tiles_per_side a = Raise e ->
  run_post (create_tiles acquisition media_id a)
    (fun r ev => r = Raise e /\ calls_of ev = []).
Proof.
  intros Hn. unfold create_tiles. rewrite Hn.
  apply post_bind, post_uniform. intros base.
  apply post_bind, post_lift. split; reflexivity.
Qed.

End Empty.

(** With [--num-blocks] zero or less, and whatever the client does,
    [generate_data] makes one client call, the creation of the specimen.
    If it returns normally without a client error, it has printed the
    specimen, the summary header and a summary of zeros; the tile formula
    is still evaluated. *)
Theorem generate_data_no_blocks {R C : Type} `{Host R} `{Client C}
    (a : args) (s : R * C) :
  num_blocks a <= 0 ->
  (exists data resp,
      calls_of (snd (generate_data a s)) = [(Create specimen_r data, resp)]) /\
  (fst (fst (generate_data a s)) = Ok tt -> clean (snd (generate_data a s)) ->
   exists sid t,
     summary_tiles_per_acquisition a = Ok t /\
     printed_of (snd (generate_data a s)) =
       ["Created specimen: " +++ sid; summary_header;
        "Created 0 blocks"; "Created 0 ROIs"; "Created 0 imaging sessions";
        "Created 0 total tiles (" +++ str_of_Z t +++ " tiles per acquisition)"]).
Proof.
  intros Hn. rewrite generate_data_calls.
  pose proof (walk_no_blocks a Hn s) as [Hcalls Hprinted].
  pose proof (walk_escapes a s) as Hesc.
  split; [exact Hcalls | ].
  unfold generate_data, try_except.
  destruct (walk a s) as [[r0 s0] ev0]. cbn [fst snd] in *.
  destruct r0 as [[] | e0]; [intros _ _; now apply Hprinted | ].
  assert (Hdirty : forall l, (exists pre c, ev0 = pre ++ [Called c (Raise e0)]) ->
                             ~ clean (ev0 ++ [Printed l])).
  { intros l (pre & c & ->) Hc. apply Forall_app in Hc. destruct Hc as [Hc _].
    apply Forall_app in Hc. destruct Hc as [_ Hc].
    inversion Hc as [ | ? ? Hx _]. discriminate Hx. }
  destruct (Hesc e0 eq_refl) as [Hb | Hcall].
  - destruct e0; try contradiction Hb; discriminate.
  - destruct e0; cbn [fst snd]; try discriminate; intros _ Hc;
      now destruct (Hdirty _ Hcall Hc).
Qed.

Lemma generate_data_no_blocks_witness :
  num_blocks (with_volume default_args 0 1 10 5) <= 0 /\
  (exists data resp,
      calls_of (snd (generate_data (with_volume default_args 0 1 10 5) (0, 0)))
        = [(Create specimen_r data, resp)]) /\
  printed_of (snd (generate_data (with_volume default_args 0 1 10 5) (0, 0))) =
    ["Created specimen: SPEC1000"; summary_header;
     "Created 0 blocks"; "Created 0 ROIs"; "Created 0 imaging sessions";
     "Created 0 total tiles (24 tiles per acquisition)"].
Proof.
  split; [cbn; lia | ].
  split; [ | vm_compute; reflexivity].
  apply (generate_data_no_blocks (R := Z) (C := Z)
           (with_volume default_args 0 1 10 5) (0, 0)).
  cbn. lia.
Defined.

(** When the effective tile size [tile_size * (1 - overlap)] is zero
    (a tile size of 0, or an overlap of 1.0), [create_tiles] raises
    [ZeroDivisionError] after drawing the base focus score, without
    sending a tile. *)
Theorem create_tiles_zero_tile {R C : Type} `{Host R} `{Client C}
    (acquisition : value) (media_id : string) (a : args) (s : R * C)
    (eff stage : spec_float) :
  effective_tile_size (tile_size a) (overlap a) = Ok eff ->
  F64.is_zero eff = true ->
  float_of_int (stage_size a) = Ok stage ->
  fst (fst (create_tiles acquisition media_id a s)) = Raise ZeroDivisionError /\
  calls_of (snd (create_tiles acquisition media_id a s)) = [].
Proof.
  intros Heff Hzero Hstage.
  apply (create_tiles_raise acquisition media_id a ZeroDivisionError).
  unfold tiles_per_side, stage_ratio, int_div_float.
  rewrite Heff. cbn [result_bind]. rewrite Hstage. cbn [result_bind].
  now rewrite Hzero.
Qed.

Lemma create_tiles_zero_tile_witness :
  exists eff stage,
    effective_tile_size (tile_size (with_tile_size default_args 0))
                        (overlap (with_tile_size default_args 0)) = Ok eff /\
    F64.is_zero eff = true /\
    float_of_int (stage_size (with_tile_size default_args 0)) = Ok stage /\
    fst (fst (create_tiles (VDict [("acquisition_id", VStr "ACQ1")]) "TAPE1"
                (with_tile_size default_args 0) (0, 0))) = Raise ZeroDivisionError /\
    calls_of (snd (create_tiles (VDict [("acquisition_id", VStr "ACQ1")]) "TAPE1"
                     (with_tile_size default_args 0) (0, 0))) = [].
Proof.
  exists (S754_zero false), (F64.of_Z 100000).
  assert (E1 : effective_tile_size (tile_size (with_tile_size default_args 0))
                 (overlap (with_tile_size default_args 0)) = Ok (S754_zero false))
    by (vm_compute; reflexivity).
  assert (E2 : float_of_int (stage_size (with_tile_size default_args 0))
               = Ok (F64.of_Z 100000)) by (vm_compute; reflexivity).
  split; [exact E1 | ]. split; [reflexivity | ]. split; [exact E2 | ].
  exact (create_tiles_zero_tile (R := Z) (C := Z) _ _ _ _ _ _ E1 eq_refl E2).
Defined.

(** ** Grouping ROIs by media *)

Lemma rois_of_media_snoc (m m0 : string) (roi : value) (brs : list (value * string)) :
  rois_of_media m (brs ++ [(roi, m0)])
  = rois_of_media m brs ++ (if String.eqb m0 m then [roi] else []).
Proof.
  unfold rois_of_media. rewrite filter_app, map_app. cbn.
  now destruct (String.eqb m0 m).
Qed.

Lemma group_add_keys (m : string) (roi : value) (g : list (string * list value)) :
  (In m (map fst g) -> map fst (group_add m roi g) = map fst g) /\
  (~ In m (map fst g) -> map fst (group_add m roi g) = map fst g ++ [m]).
Proof.
  induction g as [ | [m' rs] g [IH1 IH2]]; cbn [group_add map fst].
  - split; [intros [] | reflexivity].
  - destruct (String.eqb_spec m m') as [-> | Hne]; cbn [map fst].
    + split; [reflexivity | ]. intros Hn. exfalso. apply Hn. now left.
    + split.
      * intros [E | Hin]; [congruence | ]. now rewrite IH1.
      * intros Hn. rewrite IH2; [reflexivity | ]. intros Hin. apply Hn. now right.
Qed.

Lemma group_add_in (m : string) (roi : value) (g : list (string * list value))
    (m' : string) (rs' : list value) :
  NoDup (map fst g) ->
  In (m', rs') (group_add m roi g) <->
  (m' <> m /\ In (m', rs') g) \/
  (m' = m /\ ((exists rs, In (m, rs) g /\ rs' = rs ++ [roi]) \/
              (~ In m (map fst g) /\ rs' = [roi]))).
Proof.
  induction g as [ | [m1 rs1] g IH]; intros Hnd; cbn [group_add].
  - cbn. split.
    + intros [[= <- <-] | []]. right. split; [reflexivity | ]. right. now split.
    + intros [[_ []] | [-> [(rs & [] & _) | [_ ->]]]]. now left.
  - inversion Hnd as [ | ? ? Hfresh Hnd']; subst. specialize (IH Hnd').
    destruct (String.eqb_spec m m1) as [-> | Hne].
    + split.
      * intros [[= <- <-] | Hin].
        -- right. split; [reflexivity | ]. left. exists rs1. split; [now left | reflexivity].
        -- left. split; [ | now right]. intros ->. apply Hfresh.
           change m1 with (fst (m1, rs')). now apply in_map.
      * intros [[Hne [[= E _] | Hin]] | [-> [(rs & [[= <-] | Hin] & ->) | [Hn _]]]].
        -- congruence.
        -- now right.
        -- now left.
        -- exfalso. apply Hfresh. change m1 with (fst (m1, rs)). now apply in_map.
        -- exfalso. apply Hn. now left.
    + split.
      * intros [[= <- <-] | Hin].
        -- left. split; [congruence | now left].
        -- apply IH in Hin.
           destruct Hin as [[Hne' Hin] | [-> [(rs & Hin & ->) | [Hn ->]]]].
           ++ left. split; [exact Hne' | now right].
           ++ right. split; [reflexivity | ]. left. exists rs. split; [now right | reflexivity].
           ++ right. split; [reflexivity | ]. right. split; [ | reflexivity].
              cbn. intros [E | Hin]; [congruence | contradiction].
      * intros [[Hne' [E | Hin]] | [-> [(rs & [[= E _] | Hin] & ->) | [Hn ->]]]].
        -- now left.
        -- right. apply IH. left. now split.
        -- congruence.
        -- right. apply IH. right. split; [reflexivity | ]. left. now exists rs.
        -- right. apply IH. right. split; [reflexivity | ]. right. split; [ | reflexivity].
           intros Hin. apply Hn. now right.
Qed.

Lemma group_add_nodup (m : string) (roi : value) (g : list (string * list value)) :
  NoDup (map fst g) -> NoDup (map fst (group_add m roi g)).
Proof.
  intros Hnd. destruct (in_dec string_dec m (map fst g)) as [Hin | Hn].
  - now rewrite (proj1 (group_add_keys m roi g) Hin).
  - rewrite (proj2 (group_add_keys m roi g) Hn).
    apply NoDup_app; [exact Hnd | repeat constructor; intros [] | ].
    intros x Hx [<- | []]. contradiction.
Qed.

(** [rois_by_media] partitions the collected ROIs by media id: the keys
    are distinct, every group is not empty, and the group of a media id
    holds exactly the ROIs collected with it, in the order collected. *)
Theorem rois_by_media_partition (block_rois : list (value * string)) :
  NoDup (map fst (rois_by_media block_rois)) /\
  forall m rs,
    In (m, rs) (rois_by_media block_rois) <->
    rs <> [] /\ rs = rois_of_media m block_rois.
Proof.
  induction block_rois as [ | [roi m0] brs IH] using rev_ind.
  - split; [constructor | ]. intros m rs. cbn. split; [intros [] | ].
    intros [Hne ->]. now apply Hne.
  - destruct IH as [Hnd IH]. unfold rois_by_media in *.
    rewrite fold_left_app. cbn [fold_left fst snd].
    split; [now apply group_add_nodup | ].
    intros m rs. rewrite (group_add_in m0 roi _ m rs Hnd), rois_of_media_snoc.
    assert (Hkey : In m0 (map fst (fold_left
                     (fun groups p => group_add (snd p) (fst p) groups) brs []))
                   <-> rois_of_media m0 brs <> []).
    { split.
      - intros Hin. apply in_map_iff in Hin. destruct Hin as ([m1 rs1] & E & Hin).
        cbn in E. subst m1. apply IH in Hin. destruct Hin as [Hne <-]. exact Hne.
      - intros Hne. change m0 with (fst (m0, rois_of_media m0 brs)).
        apply in_map. apply IH. now split. }
    split.
    + intros [[Hne Hin] | [-> [(rs0 & Hin & ->) | [Hn ->]]]].
      * apply IH in Hin. destruct Hin as [Hrs ->].
        destruct (String.eqb_spec m0 m) as [E | _]; [congruence | ].
        now rewrite app_nil_r.
      * apply IH in Hin. destruct Hin as [Hrs ->]. rewrite String.eqb_refl.
        split; [ | reflexivity]. now destruct (rois_of_media m0 brs).
      * rewrite String.eqb_refl.
        destruct (rois_of_media m0 brs) as [ | x l] eqn:E.
        -- split; [discriminate | reflexivity].
        -- exfalso. apply Hn, Hkey. discriminate.
    + intros [Hne ->]. destruct (String.eqb_spec m0 m) as [-> | Hdiff].
      * right. split; [reflexivity | ].
        destruct (rois_of_media m brs) as [ | x l] eqn:E.
        -- right. split; [ | reflexivity]. intros Hin. apply Hkey in Hin. now apply Hin.
        -- left. exists (x :: l). split; [ | reflexivity]. apply IH.
           split; [discriminate | now symmetry].
      * left. split; [congruence | ]. rewrite app_nil_r in Hne |- *.
        apply IH. now split.
Qed.

(** ** Decimal text as numbers *)

Lemma of_uint_acc_value (d : uint) (p : positive) :
  Zpos (Pos.of_uint_acc d p) = digits_value d (Zpos p).
Proof.
  revert p. induction d; intros p; cbn [Pos.of_uint_acc digits_value];
    [reflexivity | rewrite IHd; f_equal; lia ..].
Qed.

Lemma of_uint_value (d : uint) : Z.of_uint d = digits_value d 0.
Proof.
  unfold Z.of_uint. induction d; cbn [Pos.of_uint digits_value];
    [reflexivity | exact IHd | cbn [Z.of_N]; apply of_uint_acc_value ..].
Qed.

Lemma digits_value_app (d e : uint) (acc : Z) :
  digits_value (digits_app d e) acc = digits_value e (digits_value d acc).
Proof. revert acc. induction d; intros acc; cbn; [reflexivity | apply IHd ..]. Qed.

Lemma digits_value_shift (d : uint) (acc : Z) :
  digits_value d acc = acc * 10 ^ Z.of_nat (nb_digits d) + digits_value d 0.
Proof.
  revert acc. induction d; intros acc; cbn [digits_value nb_digits].
  1: { cbn. lia. }
  all: rewrite IHd, (IHd (10 * 0 + _)) || rewrite IHd, (IHd (10 * 0)).
  all: rewrite Nat2Z.inj_succ, Z.pow_succ_r by lia; ring.
Qed.

Lemma uint_of_char_app (c : ascii) (d d' e : uint) :
  uint_of_char c (Some d) = Some d' ->
  uint_of_char c (Some (digits_app d e)) = Some (digits_app d' e).
Proof.
  destruct c as [[|] [|] [|] [|] [|] [|] [|] [|]]; cbn; intros E;
    try discriminate E; injection E as <-; reflexivity.
Qed.

Lemma uint_of_char_none (c : ascii) : uint_of_char c None = None.
Proof. destruct c as [[|] [|] [|] [|] [|] [|] [|] [|]]; reflexivity. Qed.

Lemma uint_of_string_app (s1 s2 : string) (d1 d2 : uint) :
  NilEmpty.uint_of_string s1 = Some d1 -> NilEmpty.uint_of_string s2 = Some d2 ->
  NilEmpty.uint_of_string (s1 +++ s2) = Some (digits_app d1 d2).
Proof.
  revert d1. induction s1 as [ | c s1 IH]; intros d1 E1 E2.
  - cbn in E1 |- *. injection E1 as <-. exact E2.
  - cbn [String.append NilEmpty.uint_of_string] in E1 |- *.
    destruct (NilEmpty.uint_of_string s1) as [d | ].
    + rewrite (IH d eq_refl E2). now apply uint_of_char_app.
    + now rewrite uint_of_char_none in E1.
Qed.

Lemma uint_of_char_length (c : ascii) (d d' : uint) :
  uint_of_char c (Some d) = Some d' -> nb_digits d' = S (nb_digits d).
Proof.
  destruct c as [[|] [|] [|] [|] [|] [|] [|] [|]]; cbn; intros E;
    try discriminate E; injection E as <-; reflexivity.
Qed.

Lemma uint_of_string_length (s : string) (d : uint) :
  NilEmpty.uint_of_string s = Some d -> nb_digits d = String.length s.
Proof.
  revert d. induction s as [ | c s IH]; intros d E.
  - cbn in E. injection E as <-. reflexivity.
  - cbn [NilEmpty.uint_of_string String.length] in E |- *.
    destruct (NilEmpty.uint_of_string s) as [d0 | ].
    + rewrite (uint_of_char_length c d0 d E). f_equal. now apply IH.
    + now rewrite uint_of_char_none in E.
Qed.

Lemma str_of_Z_uint (z : Z) :
  0 <= z ->
  exists d, NilEmpty.uint_of_string (str_of_Z z) = Some d /\ digits_value d 0 = z.
Proof.
  intros Hz. destruct z as [ | p | p]; [ | | lia].
  - exists (D0 Nil). split; reflexivity.
  - exists (Pos.to_uint p). unfold str_of_Z. cbn [Z.to_int NilZero.string_of_int].
    unfold NilZero.string_of_uint.
    pose proof (DecimalPos.Unsigned.to_uint_nonnil p) as Hnn.
    split.
    + destruct (Pos.to_uint p) eqn:E; [congruence | rewrite <- E; apply NilEmpty.usu ..].
    + rewrite <- of_uint_value. unfold Z.of_uint.
      now rewrite DecimalPos.Unsigned.of_to.
Qed.

Lemma zeros_uint (n : nat) :
  exists d, NilEmpty.uint_of_string (zeros n) = Some d /\
            forall acc, digits_value d acc = acc * 10 ^ Z.of_nat n.
Proof.
  induction n as [ | n (d & E & Hd)].
  - exists Nil. split; [reflexivity | ]. intros acc. cbn. lia.
  - exists (D0 d). split.
    + cbn [zeros NilEmpty.uint_of_string]. now rewrite E.
    + intros acc. cbn [digits_value]. rewrite Hd, Nat2Z.inj_succ, Z.pow_succ_r by lia.
      ring.
Qed.

Lemma format_0d_uint (w : nat) (z : Z) :
  0 <= z ->
  exists d, NilEmpty.uint_of_string (format_0d w z) = Some d /\ digits_value d 0 = z.
Proof.
  intros Hz. unfold format_0d. destruct (Z.ltb_spec z 0); [lia | ]. unfold zfill.
  destruct (str_of_Z_uint z Hz) as (d & Ed & Hd).
  destruct (zeros_uint (w - String.length (str_of_Z z))) as (d0 & E0 & H0).
  exists (digits_app d0 d). split; [now apply uint_of_string_app | ].
  rewrite digits_value_app, H0. cbn [Z.mul]. exact Hd.
Qed.

Lemma digits_int_of_str (s : string) (d : uint) :
  s <> EmptyString -> all_digits s = true ->
  NilEmpty.uint_of_string s = Some d -> int_of_str s = Ok (digits_value d 0).
Proof.
  intros Hne Hd E. unfold int_of_str, NilZero.int_of_string.
  destruct s as [ | c s]; [congruence | ].
  pose proof Hd as Hd'. cbn [all_digits] in Hd'. apply andb_prop in Hd'.
  destruct Hd' as [Hc _]. rewrite (is_digit_not_minus c Hc).
  unfold NilZero.uint_of_string. rewrite E. cbn [option_map Z.of_int].
  now rewrite of_uint_value.
Qed.

Lemma format_0d_not_empty (w : nat) (z : Z) : 0 <= z -> format_0d w z <> EmptyString.
Proof.
  intros Hz. unfold format_0d. destruct (Z.ltb_spec z 0); [lia | ]. unfold zfill.
  destruct (str_of_Z_digits z Hz) as [_ Hne].
  destruct (zeros _); [exact Hne | discriminate].
Qed.

(** [int(f"{z:0{w}d}") == z] *)
Lemma format_0d_round_trip (w : nat) (z : Z) :
  0 <= z -> int_of_str (format_0d w z) = Ok z.
Proof.
  intros Hz. destruct (format_0d_uint w z Hz) as (d & E & Hd).
  rewrite (digits_int_of_str _ d (format_0d_not_empty w z Hz)
             (format_0d_digits w z Hz) E).
  now rewrite Hd.
Qed.

Lemma format_0d_inj (w : nat) (x y : Z) :
  0 <= x -> 0 <= y -> format_0d w x = format_0d w y -> x = y.
Proof.
  intros Hx Hy E. pose proof (format_0d_round_trip w x Hx) as Rx.
  rewrite E, (format_0d_round_trip w y Hy) in Rx. congruence.
Qed.

Lemma append_inj_l (s t t' : string) : s +++ t = s +++ t' -> t = t'.
Proof. induction s as [ | c s IH]; cbn; [trivial | intros [= E]; now apply IH]. Qed.

Lemma range_In (n k : Z) : 0 <= k < n -> In k (range n).
Proof.
  intros Hk. unfold range. replace k with (Z.of_nat (Z.to_nat k)) by lia.
  apply in_map, in_seq. lia.
Qed.

Lemma format_0d_3_length (z : Z) :
  0 <= z < 1000 -> String.length (format_0d 3 z) = 3%nat.
Proof.
  intros Hz.
  assert (Hall : forallb (fun z => Nat.eqb (String.length (format_0d 3 z)) 3)
                         (range 1000) = true) by (vm_compute; reflexivity).
  rewrite forallb_forall in Hall. apply Nat.eqb_eq, Hall, range_In, Hz.
Qed.

(** [int(f"{a}{b:03d}")] is [1000 a + b] as long as [b] has at most three
    digits. *)
Lemma roi_id_value (a b : Z) :
  0 <= a -> 0 <= b < 1000 ->
  int_of_str (str_of_Z a +++ format_0d 3 b) = Ok (a * 1000 + b).
Proof.
  intros Ha Hb.
  destruct (str_of_Z_uint a Ha) as (da & Ea & Hda).
  destruct (format_0d_uint 3 b ltac:(lia)) as (db & Eb & Hdb).
  destruct (str_of_Z_digits a Ha) as [Hdig Hne].
  rewrite (digits_int_of_str _ (digits_app da db)).
  - rewrite digits_value_app, Hda, digits_value_shift, Hdb.
    rewrite (uint_of_string_length _ _ Eb), (format_0d_3_length b Hb). reflexivity.
  - now apply append_not_empty.
  - rewrite all_digits_app, Hdig. apply format_0d_digits. lia.
  - now apply uint_of_string_app.
Qed.

Section Identifiers.
Context {R C : Type} `{Host R} `{Client C}.

Local Notation "'run_post'" := (post (R := R) (C := C)).

Lemma section_body_roi_id_every (specimen block cutting_session : value)
    (media_id : string) (j bx by_ bw bh : Z) (block_rois : list (value * string))
    (k : Z) :
  0 <= j -> 0 <= k < 999 ->
  run_post (section_body specimen block cutting_session media_id j bx by_ bw bh
                         block_rois k)
    (every (roi_id_is ((j + 1) * 1000 + (k + 1)))).
Proof.
  intros Hj Hk. unfold section_body.
  apply every_bind.
  { unfold create_section. repeat every_step ltac:(exact I). }
  intros section. apply every_bind.
  { unfold generate_jittered_roi. repeat every_step ltac:(exact I). }
  intros jittered_roi. apply every_bind_lift. intros roi_id Hid.
  rewrite (roi_id_value (j + 1) (k + 1)) in Hid by lia. injection Hid as <-.
  unfold create_roi. repeat every_step ltac:(first [exact I | reflexivity]).
Qed.

(** *** Calls made one per loop index *)

Lemma call_run_nil (P : Z -> call -> Prop) (k0 : Z) (count : nat) :
  call_run P k0 count [].
Proof. split; [cbn; lia | ]. intros [ | i] c resp Hi; discriminate Hi. Qed.

Lemma call_run_cons (P : Z -> call -> Prop) (k0 : Z) (count : nat)
    (c : call) (resp : result value) (cs : list (call * result value)) :
  P k0 c -> call_run P (k0 + 1) count cs -> call_run P k0 (S count) ((c, resp) :: cs).
Proof.
  intros Hc [Hlen Hcs]. split; [cbn [List.length]; lia | ].
  intros [ | i] c' resp' Hi; cbn [nth_error] in Hi.
  - injection Hi as <- <-. now replace (k0 + Z.of_nat 0) with k0 by lia.
  - replace (k0 + Z.of_nat (S i)) with (k0 + 1 + Z.of_nat i) by lia.
    now apply (Hcs i c' resp').
Qed.

Lemma mapM_call_run {B} (body : Z -> M R C B) (P : Z -> call -> Prop) :
  (forall k, run_post (body k) (fun r ev => one_call (P k) r (calls_of ev))) ->
  forall count start,
    run_post (mapM body (map Z.of_nat (seq start count)))
      (fun r ev => call_run P (Z.of_nat start) count (calls_of ev)).
Proof.
  intros Hbody. induction count as [ | count IH]; intros start; cbn [seq map mapM].
  - apply post_ret. apply call_run_nil.
  - apply post_bind. eapply post_weaken; [apply Hbody | ].
    intros [v | e] ev1 Hone; cbn beta in Hone.
    + destruct Hone as [[_ [e He]] | (c & resp & Hcs & Hc)]; [discriminate He | ].
      apply post_bind. eapply post_weaken; [apply (IH (S start)) | ].
      intros r2 ev2 Hrun.
      assert (Hall : call_run P (Z.of_nat start) (S count) (calls_of (ev1 ++ ev2))).
      { rewrite calls_of_app, Hcs. apply call_run_cons; [exact Hc | ].
        now replace (Z.of_nat start + 1) with (Z.of_nat (S start)) by lia. }
      destruct r2 as [vs | e]; [ | exact Hall].
      apply post_ret. now rewrite !app_nil_r.
    + destruct Hone as [[-> _] | (c & resp & -> & Hc)].
      * apply call_run_nil.
      * apply call_run_cons; [exact Hc | apply call_run_nil].
Qed.

Lemma one_call_raise (P : call -> Prop) {A} (e : exn) : one_call P (A := A) (Raise e) [].
Proof. left. split; [reflexivity | now exists e]. Qed.

Lemma create_tile_id (acquisition : value) (media_id : string) (a : args)
    (base : spec_float) (n k : Z) :
  run_post (create_tile acquisition media_id a base n k)
    (fun r ev => one_call (tile_id_at acquisition k) r (calls_of ev)).
Proof.
  unfold create_tile.
  eapply silent_then; [apply silent_lift | apply one_call_raise | intros row _].
  eapply silent_then; [apply silent_lift | apply one_call_raise | intros col _].
  eapply silent_then;
    [apply generate_focus_score_silent | apply one_call_raise | intros focus _].
  eapply silent_then;
    [apply calculate_stage_position_silent | apply one_call_raise | intros pos _].
  eapply silent_then; [apply silent_lift | apply one_call_raise | intros a1 Ha1].
  eapply silent_then; [apply silent_lift | apply one_call_raise | intros a2 _].
  eapply silent_then; [apply silent_randint | apply one_call_raise | intros minv _].
  eapply silent_then; [apply silent_randint | apply one_call_raise | intros maxv _].
  eapply silent_then; [apply silent_randint | apply one_call_raise | intros meanv _].
  eapply silent_then; [apply silent_uniform | apply one_call_raise | intros stdv _].
  eapply silent_then; [apply silent_lift | apply one_call_raise | intros a3 _].
  eapply silent_then;
    [apply generate_matcher_data_silent | apply one_call_raise | intros m1 _].
  eapply silent_then;
    [apply generate_matcher_data_silent | apply one_call_raise | intros m2 _].
  eapply silent_then;
    [apply generate_matcher_data_silent | apply one_call_raise | intros m3 _].
  eapply silent_then;
    [apply generate_matcher_data_silent | apply one_call_raise | intros m4 _].
  eapply silent_then; [apply silent_lift | apply one_call_raise | intros a4 _].
  apply post_bind, post_request. intros [created | e].
  - apply post_bind, post_lift. destruct (getitem created "tile_id") as [tid | e].
    + apply post_bind, post_print. apply post_ret.
      right. eexists _, _. split; [reflexivity | ].
      eexists _, _, a1. split; [reflexivity | ]. split; [exact Ha1 | reflexivity].
    + right. eexists _, _. split; [reflexivity | ].
      eexists _, _, a1. split; [reflexivity | ]. split; [exact Ha1 | reflexivity].
  - right. eexists _, _. split; [reflexivity | ].
    eexists _, _, a1. split; [reflexivity | ]. split; [exact Ha1 | reflexivity].
Qed.

Lemma create_tiles_ids (acquisition : value) (media_id : string) (a : args) :
  run_post (create_tiles acquisition media_id a)
    (fun r ev =>
       forall i c resp, nth_error (calls_of ev) i = Some (c, resp) ->
         tile_id_at acquisition (Z.of_nat i) c).
Proof.
  unfold create_tiles. apply post_bind, post_uniform. intros base.
  apply post_bind, post_lift.
  destruct (tiles_per_side a) as [n | e]; [ | intros [ | i] c resp Hi; discriminate Hi].
  eapply post_weaken.
  - apply (mapM_call_run _ (tile_id_at acquisition)
             (create_tile_id acquisition media_id a base n) (Z.to_nat (n * n)) 0).
  - intros r ev [_ Hrun] i c resp Hi.
    change (nth_error (calls_of ev) i = Some (c, resp)) in Hi.
    exact (Hrun i c resp Hi).
Qed.

Lemma create_block_id (specimen : value) (i : Z) :
  run_post (create_block specimen i)
    (fun r ev => one_call (block_id_at specimen i) r (calls_of ev)).
Proof.
  unfold create_block.
  eapply silent_then; [apply silent_lift | apply one_call_raise | intros sid Hsid].
  eapply silent_then; [apply silent_lift | apply one_call_raise | intros sid' _].
  eapply silent_then; [apply silent_uniform | apply one_call_raise | intros res _].
  apply post_bind, post_request. intros [block | e].
  - apply post_bind, post_lift. destruct (getitem block "block_id") as [bid | e].
    + apply post_bind, post_print. apply post_ret.
      right. eexists _, _. split; [reflexivity | ].
      eexists _, sid. split; [reflexivity | ]. split; [exact Hsid | reflexivity].
    + right. eexists _, _. split; [reflexivity | ].
      eexists _, sid. split; [reflexivity | ]. split; [exact Hsid | reflexivity].
  - right. eexists _, _. split; [reflexivity | ].
    eexists _, sid. split; [reflexivity | ]. split; [exact Hsid | reflexivity].
Qed.

Lemma create_blocks_ids (specimen : value) (nb : Z) :
  run_post (create_blocks specimen nb)
    (fun r ev =>
       forall i c resp, nth_error (calls_of ev) i = Some (c, resp) ->
         block_id_at specimen (Z.of_nat i) c).
Proof.
  unfold create_blocks, range.
  eapply post_weaken.
  - apply (mapM_call_run _ (block_id_at specimen) (create_block_id specimen)
             (Z.to_nat nb) 0).
  - intros r ev [_ Hrun] i c resp Hi. exact (Hrun i c resp Hi).
Qed.

End Identifiers.

(** Whatever the client does, the ROI that [section_body] creates for
    section index [k < 999] of cutting session index [j] carries the id
    [(j + 1) * 1000 + (k + 1)]: the id tells the cutting session and the
    section apart, and does not depend on the block. *)
Theorem section_body_roi_id {R C : Type} `{Host R} `{Client C}
    (specimen block cutting_session : value) (media_id : string)
    (j bx by_ bw bh : Z) (block_rois : list (value * string)) (k : Z) (s : R * C)
    (data : record) (resp : result value) :
  0 <= j -> 0 <= k < 999 ->
  In (Create roi_r data, resp)
     (calls_of (snd (section_body specimen block cutting_session media_id j
                       bx by_ bw bh block_rois k s))) ->
  lookup "roi_id" data = Some (VInt ((j + 1) * 1000 + (k + 1))).
Proof.
  intros Hj Hk Hin.
  pose proof (section_body_roi_id_every specimen block cutting_session media_id j
                bx by_ bw bh block_rois k Hj Hk s) as Hall.
  apply (every_calls (fun c => match c with
                               | Create roi_r d =>
                                   lookup "roi_id" d = Some (VInt ((j + 1) * 1000 + (k + 1)))
                               | _ => True
                               end)) in Hall.
  rewrite Forall_forall in Hall. exact (Hall _ Hin).
Qed.


Lemma section_body_roi_id_witness :
  0 <= 0 /\ 0 <= 4 < 999 /\
  exists data resp,
    In (Create roi_r data, resp)
       (calls_of (snd (section_body specimen_0 block_1
                         (VDict [("cutting_session_id", VStr "CUT1")]) "TAPE1" 0
                         100 100 150 150 [] 4 (0, 0)))) /\
    lookup "roi_id" data = Some (VInt ((0 + 1) * 1000 + (4 + 1))).
Proof.
  split; [lia | ]. split; [lia | ].
  assert (E : exists data resp,
             nth_error (calls_of (snd (section_body specimen_0 block_1
                         (VDict [("cutting_session_id", VStr "CUT1")]) "TAPE1" 0
                         100 100 150 150 [] 4 (0, 0)))) 1
             = Some (Create roi_r data, resp)).
  { vm_compute. eexists _, _. reflexivity. }
  destruct E as (data & resp & E). apply nth_error_In in E.
  exists data, resp. split; [exact E | ].
  apply (section_body_roi_id (R := Z) (C := Z) specimen_0 block_1
           (VDict [("cutting_session_id", VStr "CUT1")]) "TAPE1" 0
           100 100 150 150 [] 4 (0, 0) data resp); [lia | lia | exact E].
Defined.

(** Whatever the client does, the [i]-th tile that [create_tiles] sends
    for an acquisition carries the id [f"TILE{acquisition_id}{i+1:05d}"],
    and no two tiles of the acquisition carry the same id. *)
Theorem create_tiles_tile_ids {R C : Type} `{Host R} `{Client C}
    (acquisition : value) (media_id : string) (a : args) (s : R * C)
    (i j : nat) (ai aj : value) (ti tj : record) (ri rj : result value) :
  nth_error (calls_of (snd (create_tiles acquisition media_id a s))) i
    = Some (AddTile ai ti, ri) ->
  nth_error (calls_of (snd (create_tiles acquisition media_id a s))) j
    = Some (AddTile aj tj, rj) ->
  lookup "tile_id" ti = lookup "tile_id" tj ->
  i = j /\ tile_id_at acquisition (Z.of_nat i) (AddTile ai ti).
Proof.
  intros Ei Ej E.
  pose proof (create_tiles_ids acquisition media_id a s i _ _ Ei) as Hi.
  pose proof (create_tiles_ids acquisition media_id a s j _ _ Ej) as Hj.
  split; [ | exact Hi].
  destruct Hi as (? & ? & a1 & [= <- <-] & Ha1 & Hti).
  destruct Hj as (? & ? & a1' & [= <- <-] & Ha1' & Htj).
  rewrite Ha1 in Ha1'. injection Ha1' as <-.
  rewrite Hti, Htj in E. injection E as E.
  repeat first [apply append_inj_l in E | injection E as E].
  apply format_0d_inj in E; lia.
Qed.

Lemma create_tiles_tile_ids_witness :
  exists ai ti ri,
    nth_error (calls_of (snd (create_tiles (VDict [("acquisition_id", VStr "ACQ1")])
                                "TAPE1" default_args (0, 0)))) 2
      = Some (AddTile ai ti, ri) /\
    lookup "tile_id" ti = lookup "tile_id" ti /\
    (2%nat = 2%nat /\
     tile_id_at (R := Z) (VDict [("acquisition_id", VStr "ACQ1")]) (Z.of_nat 2)
                (AddTile ai ti)).
Proof.
  assert (E : exists ai ti ri,
             nth_error (calls_of (snd (create_tiles
                                         (VDict [("acquisition_id", VStr "ACQ1")])
                                         "TAPE1" default_args (0, 0)))) 2
             = Some (AddTile ai ti, ri)).
  { vm_compute. eexists _, _, _. reflexivity. }
  destruct E as (ai & ti & ri & E). exists ai, ti, ri.
  split; [exact E | ]. split; [reflexivity | ].
  exact (create_tiles_tile_ids (R := Z) (C := Z) _ _ _ _ _ _ _ _ _ _ _ _ E E eq_refl).
Defined.

(** Whatever the client does, the [i]-th block that [create_blocks]
    creates carries the id [f"BLK_{specimen_id}_{i+1:03d}"], and no two
    blocks of the specimen carry the same id. *)
Theorem create_blocks_block_ids {R C : Type} `{Host R} `{Client C}
    (specimen : value) (nb : Z) (s : R * C)
    (i j : nat) (di dj : record) (ri rj : result value) :
  nth_error (calls_of (snd (create_blocks specimen nb s))) i
    = Some (Create block_r di, ri) ->
  nth_error (calls_of (snd (create_blocks specimen nb s))) j
    = Some (Create block_r dj, rj) ->
  lookup "block_id" di = lookup "block_id" dj ->
  i = j /\ block_id_at specimen (Z.of_nat i) (Create block_r di).
Proof.
  intros Ei Ej E.
  pose proof (create_blocks_ids specimen nb s i _ _ Ei) as Hi.
  pose proof (create_blocks_ids specimen nb s j _ _ Ej) as Hj.
  split; [ | exact Hi].
  destruct Hi as (? & sid & [= <-] & Hsid & Hdi).
  destruct Hj as (? & sid' & [= <-] & Hsid' & Hdj).
  rewrite Hsid in Hsid'. injection Hsid' as <-.
  rewrite Hdi, Hdj in E. injection E as E.
  repeat first [apply append_inj_l in E | injection E as E].
  apply format_0d_inj in E; lia.
Qed.

Lemma create_blocks_block_ids_witness :
  exists di ri,
    nth_error (calls_of (snd (create_blocks specimen_0 3 (0, 0)))) 1
      = Some (Create block_r di, ri) /\
    lookup "block_id" di = lookup "block_id" di /\
    (1%nat = 1%nat /\
     block_id_at (R := Z) specimen_0 (Z.of_nat 1) (Create block_r di)).
Proof.
  assert (E : exists di ri,
             nth_error (calls_of (snd (create_blocks specimen_0 3 (0, 0)))) 1
             = Some (Create block_r di, ri)).
  { vm_compute. eexists _, _. reflexivity. }
  destruct E as (di & ri & E). exists di, ri.
  split; [exact E | ]. split; [reflexivity | ].
  exact (create_blocks_block_ids (R := Z) (C := Z) _ _ _ _ _ _ _ _ _ E E eq_refl).
Defined.

(** ** Pixel statistics of a tile *)

Section Tiles.
Context {R C : Type} `{Host R} `{Client C}.

Local Notation "'run_post'" := (post (R := R) (C := C)).

Lemma every_bind_randint_ok {B} (p : event -> Prop) (a b : Z) (k : Z -> M R C B) :
  well_behaved_host -> a <= b ->
  (forall v, p (Drew (Randint a b) (VInt v))) ->
  (forall v, a <= v <= b -> run_post (k v) (every p)) ->
  run_post (bind (random_randint a b) k) (every p).
Proof.
  intros Hhost Hab Hp Hk. apply post_bind, (post_randint_ok a b _ Hhost Hab).
  intros v Hv. eapply post_weaken; [exact (Hk v Hv) | ].
  intros r ev Hall. constructor; [apply Hp | exact Hall].
Qed.

Lemma create_tile_stats (acquisition : value) (media_id : string) (a : args)
    (base : spec_float) (n k : Z) :
  well_behaved_host ->
  run_post (create_tile acquisition media_id a base n k) (every tile_stats).
Proof.
  intros Hhost.
  unfold create_tile, generate_matcher_data, uniform_list, generate_focus_score,
    calculate_stage_position.
  repeat first
    [ apply (every_bind_randint_ok tile_stats _ _ _ Hhost);
      [lia | intros ?; exact I | intros ? ?]
    | every_step ltac:(first [ exact I
                             | eexists _, _, _; repeat split; (reflexivity || lia) ]) ].
Qed.

Lemma create_tiles_stats (acquisition : value) (media_id : string) (a : args) :
  well_behaved_host ->
  run_post (create_tiles acquisition media_id a) (every tile_stats).
Proof.
  intros Hhost. unfold create_tiles.
  apply every_bind; [apply every_uniform; intros ?; exact I | intros base].
  apply every_bind; [apply every_lift | intros n].
  apply every_mapM. intros k _. now apply create_tile_stats.
Qed.

End Tiles.

(** With a [random.randint] that answers within its bounds, and whatever
    the client does, every tile that [create_tiles] sends has pixel
    statistics that are consistent: [0 <= min_value <= 20],
    [100 <= mean_value <= 200] and [200 <= max_value <= 255], so
    [min_value < mean_value <= max_value]. *)
Theorem create_tiles_pixel_stats {R C : Type} `{Host R} `{Client C}
    (acquisition : value) (media_id : string) (a : args) (s : R * C)
    (aid : value) (tile : record) (resp : result value) :
  well_behaved_host ->
  In (AddTile aid tile, resp) (calls_of (snd (create_tiles acquisition media_id a s))) ->
  exists lo mean hi,
    lookup "min_value" tile = Some (VInt lo) /\
    lookup "mean_value" tile = Some (VInt mean) /\
    lookup "max_value" tile = Some (VInt hi) /\
    0 <= lo <= 20 /\ 100 <= mean <= 200 /\ 200 <= hi <= 255 /\
    lo < mean <= hi.
Proof.
  intros Hhost Hin.
  pose proof (create_tiles_stats acquisition media_id a Hhost s) as Hall.
  apply (every_calls (fun c => match c with
                               | AddTile _ t => stats_in_range t
                               | _ => True
                               end)) in Hall.
  rewrite Forall_forall in Hall. specialize (Hall _ Hin). cbn in Hall.
  destruct Hall as (lo & mean & hi & H1 & H2 & H3 & B1 & B2 & B3).
  exists lo, mean, hi. repeat split; try assumption; lia.
Qed.

Lemma create_tiles_pixel_stats_witness :
  exists aid tile resp,
    well_behaved_host (R := Z) /\
    In (AddTile aid tile, resp)
       (calls_of (snd (create_tiles (VDict [("acquisition_id", VStr "ACQ1")])
                         "TAPE1" default_args (0, 0)))) /\
    exists lo mean hi,
      lookup "min_value" tile = Some (VInt lo) /\
      lookup "mean_value" tile = Some (VInt mean) /\
      lookup "max_value" tile = Some (VInt hi) /\
      0 <= lo <= 20 /\ 100 <= mean <= 200 /\ 200 <= hi <= 255 /\
      lo < mean <= hi.
Proof.
  assert (E : exists aid tile resp,
             nth_error (calls_of (snd (create_tiles
                                         (VDict [("acquisition_id", VStr "ACQ1")])
                                         "TAPE1" default_args (0, 0)))) 0
             = Some (AddTile aid tile, resp)).
  { vm_compute. eexists _, _, _. reflexivity. }
  destruct E as (aid & tile & resp & E). apply nth_error_In in E.
  exists aid, tile, resp. split; [exact tick_well_behaved | ]. split; [exact E | ].
  exact (create_tiles_pixel_stats (R := Z) (C := Z) _ _ _ _ _ _ _ tick_well_behaved E).
Defined.

(** ** A grid of negative side *)

(** An overlap above 1 makes the effective tile size, and with it the
    side [n] of the grid, negative.  Against a client that behaves
    [create_tiles] still sends [n * n] tiles; their raster rows are zero
    or negative and their columns lie in [(n, 0]], as Python's floor
    division and modulo by a negative number give them. *)
Theorem create_tiles_negative_side {R C : Type} `{Host R} `{Client C}
    (acquisition aid : value) (media_id : string) (a : args) (n : Z) (s : R * C) :
  well_behaved_client ->
  getitem acquisition "acquisition_id" = Ok aid ->
  tiles_per_side a = Ok n -> n < 0 ->
  len (calls_of (snd (create_tiles acquisition media_id a s))) = n * n /\
  forall i c resp,
    nth_error (calls_of (snd (create_tiles acquisition media_id a s))) i
      = Some (c, resp) ->
    exists tile row col,
      c = AddTile aid tile /\
      lookup "raster_position" tile
        = Some (VDict [("row", VInt row); ("col", VInt col)]) /\
      row <= 0 /\ n < col <= 0 /\ Z.of_nat i = row * n + col.
Proof.
  intros Hcli Haid Hn Hneg.
  pose proof (create_tiles_ok Hcli acquisition media_id a n aid Haid Hn s)
    as (tiles & _ & Hlen & Hall).
  split; [exact Hlen | ].
  intros i c resp Hi.
  destruct (create_tiles_run acquisition media_id a s i c resp Hi)
    as (n' & aid' & tile & Hn' & Hrange & -> & Hpos & _).
  rewrite Hn in Hn'. injection Hn' as <-.
  rewrite Forall_forall in Hall.
  destruct (Hall _ (nth_error_In _ _ Hi)) as (tile' & v & [= <- <-]).
  exists tile, (Z.of_nat i / n), (Z.of_nat i mod n).
  split; [reflexivity | ]. split; [exact Hpos | ].
  pose proof (Z.div_mod (Z.of_nat i) n ltac:(lia)).
  pose proof (Z.mod_neg_bound (Z.of_nat i) n Hneg).
  repeat split; try lia; nia.
Qed.

Lemma create_tiles_negative_side_witness :
  well_behaved_client (C := Z) /\
  tiles_per_side (with_overlap default_args (F64.of_Z 2)) = Ok (-4) /\ -4 < 0 /\
  len (calls_of (snd (create_tiles (VDict [("acquisition_id", VStr "ACQ1")]) "TAPE1"
                        (with_overlap default_args (F64.of_Z 2)) (0, 0)))) = -4 * -4.
Proof.
  assert (Hn : tiles_per_side (with_overlap default_args (F64.of_Z 2)) = Ok (-4))
    by (vm_compute; reflexivity).
  split; [exact echo_well_behaved | ].
  split; [exact Hn | ]. split; [lia | ].
  exact (proj1 (create_tiles_negative_side (R := Z) (C := Z)
                  (VDict [("acquisition_id", VStr "ACQ1")]) (VStr "ACQ1") "TAPE1"
                  (with_overlap default_args (F64.of_Z 2)) (-4) (0, 0)
                  echo_well_behaved eq_refl Hn ltac:(lia))).
Defined.

(** ** Counting while running *)

Lemma not_kind_count (k : kind) (ev : list event) :
  Forall (not_kind k) ev -> count_kind k (calls_of ev) = 0.
Proof.
  induction 1 as [ | e ev He _ IH]; [reflexivity | ].
  destruct e as [d v | c r | line]; cbn [calls_of flat_map List.app]; try exact IH.
  fold (calls_of ev). rewrite count_kind_cons, IH. cbn in He. now rewrite He.
Qed.

Section Counting.
Context {R C : Type} `{Host R} `{Client C}.
Variable k : kind.

Local Notation "'run_post'" := (post (R := R) (C := C)).

Lemma counting_ret {A} (a : A) (n0 : Z) (Q : A -> Z -> Prop) :
  Q a n0 -> run_post (ret a) (counting k n0 Q).
Proof.
  intros HQ. apply post_ret. intros ? [= <-]. cbn [calls_of flat_map].
  now rewrite count_kind_nil, Z.add_0_r.
Qed.

Lemma counting_bind {A B} (m : M R C A) (f : A -> M R C B) (n0 : Z)
    (Q : A -> Z -> Prop) (Q' : B -> Z -> Prop) :
  run_post m (counting k n0 Q) ->
  (forall a n1, Q a n1 -> run_post (f a) (counting k n1 Q')) ->
  run_post (bind m f) (counting k n0 Q').
Proof.
  intros Hm Hf. apply post_bind. eapply post_weaken; [exact Hm | ].
  intros [a | e] ev1 H1; [ | intros b; discriminate].
  eapply post_weaken; [exact (Hf a _ (H1 a eq_refl)) | ].
  intros r2 ev2 H2 b Hb. rewrite calls_of_app, count_kind_app, Z.add_assoc.
  now apply H2.
Qed.

Lemma counting_bind_quiet {A B} (m : M R C A) (f : A -> M R C B) (n0 : Z)
    (Q : B -> Z -> Prop) :
  run_post m (every (not_kind k)) ->
  (forall a, run_post (f a) (counting k n0 Q)) ->
  run_post (bind m f) (counting k n0 Q).
Proof.
  intros Hm Hf. apply post_bind. eapply post_weaken; [exact Hm | ].
  intros [a | e] ev1 H1; [ | intros b; discriminate].
  eapply post_weaken; [exact (Hf a) | ].
  intros r2 ev2 H2 b Hb. rewrite calls_of_app, count_kind_app.
  rewrite (not_kind_count k ev1 H1), Z.add_0_l. now apply H2.
Qed.

Lemma counting_bind_lift {A B} (r : result A) (f : A -> M R C B) (n0 : Z)
    (Q : B -> Z -> Prop) :
  (forall a, r = Ok a -> run_post (f a) (counting k n0 Q)) ->
  run_post (bind (lift r) f) (counting k n0 Q).
Proof.
  intros Hf. apply post_bind, post_lift. destruct r as [a | e].
  - eapply post_weaken; [exact (Hf a eq_refl) | ]. now intros r2 ev2 H2.
  - intros b. discriminate.
Qed.

Lemma counting_bind_request {B} (c : call) (f : value -> M R C B) (n0 : Z)
    (Q : B -> Z -> Prop) :
  (forall v, run_post (f v)
               (counting k (n0 + (if kind_eqb k (kind_of c) then 1 else 0)) Q)) ->
  run_post (bind (request c) f) (counting k n0 Q).
Proof.
  intros Hf. apply post_bind, post_request. intros [v | e]; [ | intros b; discriminate].
  eapply post_weaken; [exact (Hf v) | ].
  intros r2 ev2 H2 b Hb. cbn [List.app calls_of flat_map]. fold (calls_of ev2).
  rewrite count_kind_cons, Z.add_assoc. now apply H2.
Qed.

Lemma counting_foldM {A S} (body : S -> A -> M R C S) (l : list A)
    (Inv : S -> Z -> Prop) :
  (forall acc x n1, Inv acc n1 -> run_post (body acc x) (counting k n1 Inv)) ->
  forall acc n0, Inv acc n0 -> run_post (foldM body l acc) (counting k n0 Inv).
Proof.
  intros Hbody. induction l as [ | x l IH]; intros acc n0 Hinv; cbn [foldM].
  - now apply counting_ret.
  - eapply counting_bind; [now apply Hbody | ]. intros acc' n1 Hinv'. now apply IH.
Qed.

Lemma counting_mapM {A B} (body : A -> M R C B) (l : list A) (n0 : Z) :
  (forall x n1, run_post (body x) (counting k n1 (fun _ n => n = n1 + 1))) ->
  run_post (mapM body l) (counting k n0 (fun ys n => n = n0 + len ys)).
Proof.
  intros Hbody. revert n0. induction l as [ | x l IH]; intros n0; cbn [mapM].
  - apply counting_ret. unfold len. cbn. lia.
  - eapply counting_bind; [apply Hbody | ]. intros y n1 ->.
    eapply counting_bind; [apply IH | ]. intros ys n2 ->.
    apply counting_ret. unfold len. cbn [List.length]. lia.
Qed.

Lemma counting_weaken {A} (m : M R C A) (n0 : Z) (Q Q' : A -> Z -> Prop) :
  run_post m (counting k n0 Q) -> (forall a n, Q a n -> Q' a n) ->
  run_post m (counting k n0 Q').
Proof.
  intros Hm HQ. eapply post_weaken; [exact Hm | ].
  intros r ev Hc a Ha. now apply HQ, Hc.
Qed.

End Counting.

Ltac quiet_kind := repeat every_step ltac:(first [exact I | reflexivity]).

Ltac counting_step :=
  first
    [ apply counting_bind_lift; intros ? ?
    | apply counting_bind_request; intros ?
    | apply counting_bind_quiet;
      [ first [ apply every_print; exact I | apply every_uniform; intros ?; exact I
              | apply every_randint; intros ?; exact I
              | apply every_now; intros ?; exact I
              | apply every_choices; intros ?; exact I ]
      | intros ? ] ].

Section Figures.
Context {R C : Type} `{Host R} `{Client C}.

Local Notation "'run_post'" := (post (R := R) (C := C)).

(** *** ROIs *)

Lemma create_roi_counted (section : value) (id : Z) (j : record)
    (block specimen : value) (n1 : Z) :
  run_post (create_roi section id j block specimen)
    (counting (KCreate roi_r) n1 (fun _ n => n = n1 + 1)).
Proof. unfold create_roi. repeat counting_step. now apply counting_ret. Qed.

Lemma section_body_counted (specimen block cutting_session : value)
    (media_id : string) (j bx by_ bw bh base : Z)
    (block_rois : list (value * string)) (i n1 : Z) :
  base + len block_rois = n1 ->
  run_post (section_body specimen block cutting_session media_id j bx by_ bw bh
                         block_rois i)
    (counting (KCreate roi_r) n1 (fun brs n => base + len brs = n)).
Proof.
  intros Hinv. unfold section_body.
  apply counting_bind_quiet; [unfold create_section; quiet_kind | intros section].
  apply counting_bind_quiet; [unfold generate_jittered_roi; quiet_kind | intros jr].
  apply counting_bind_lift. intros roi_id _.
  eapply counting_bind; [apply create_roi_counted | ].
  intros roi n ->. apply counting_ret.
  unfold len in *. rewrite length_app. cbn [List.length]. lia.
Qed.

Lemma cutting_session_body_counted (a : args) (specimen block : value)
    (acc : counters * list (value * string)) (j base n1 : Z) :
  base + len (snd acc) = n1 ->
  run_post (cutting_session_body a specimen block acc j)
    (counting (KCreate roi_r) n1 (fun acc' n => base + len (snd acc') = n)).
Proof.
  intros Hinv. unfold cutting_session_body.
  apply counting_bind_quiet; [unfold create_cutting_session; quiet_kind | intros cm].
  do 4 counting_step.
  eapply counting_bind.
  - apply (counting_foldM _ _ _ (fun brs n => base + len brs = n)); [ | exact Hinv].
    intros brs i n2 Hbrs. now apply section_body_counted.
  - intros brs n2 Hbrs. now apply counting_ret.
Qed.

Lemma media_group_body_no_roi_call (a : args) (specimen block : value)
    (acc : counters * Z) (g : string * list value) :
  run_post (media_group_body a specimen block acc g)
    (every (not_kind (KCreate roi_r))).
Proof.
  unfold media_group_body, imaging_session_body, attach_roi, create_imaging_session,
    create_acquisition, create_tiles, create_tile, generate_matcher_data, uniform_list,
    generate_focus_score, calculate_stage_position.
  quiet_kind.
Qed.

Lemma block_body_rois_counted (a : args) (specimen : value) (acc : Z * Z)
    (block : value) (n1 : Z) :
  snd acc = n1 ->
  run_post (block_body a specimen acc block)
    (counting (KCreate roi_r) n1 (fun t n => snd t = n)).
Proof.
  intros Hacc. unfold block_body. eapply counting_bind.
  - apply (counting_foldM _ _ _ (fun acc' n => n1 + len (snd acc') = n)).
    + intros acc' j n2 Hinv. now apply cutting_session_body_counted.
    + unfold len. cbn. lia.
  - intros cr n2 Hcr. apply counting_bind_quiet.
    + apply every_foldM. intros acc' g _. apply media_group_body_no_roi_call.
    + intros it. apply counting_ret. cbn [snd]. cbn beta in Hcr. lia.
Qed.

(** *** Imaging sessions *)

Lemma create_imaging_session_counted (specimen block : value) (media_id : string)
    (c n1 : Z) :
  run_post (create_imaging_session specimen block media_id c)
    (counting (KCreate imaging_session_r) n1 (fun _ n => n = n1 + 1)).
Proof. unfold create_imaging_session. repeat counting_step. now apply counting_ret. Qed.

Lemma imaging_session_body_counted (a : args) (specimen block : value)
    (media_id : string) (media_rois : list value) (acc : counters * Z) (i n1 : Z) :
  snd acc = n1 ->
  run_post (imaging_session_body a specimen block media_id media_rois acc i)
    (counting (KCreate imaging_session_r) n1 (fun acc' n => snd acc' = n)).
Proof.
  intros Hacc. unfold imaging_session_body.
  do 4 counting_step.
  eapply counting_bind; [apply create_imaging_session_counted | ].
  intros session n ->. apply counting_bind_quiet.
  - apply every_foldM. intros u roi _.
    unfold attach_roi, create_acquisition, create_tiles, create_tile,
      generate_matcher_data, uniform_list, generate_focus_score,
      calculate_stage_position.
    quiet_kind.
  - intros u. apply counting_ret. cbn [snd]. lia.
Qed.

Lemma media_group_body_counted (a : args) (specimen block : value)
    (acc : counters * Z) (g : string * list value) (n1 : Z) :
  snd acc = n1 ->
  run_post (media_group_body a specimen block acc g)
    (counting (KCreate imaging_session_r) n1 (fun acc' n => snd acc' = n)).
Proof.
  intros Hacc. unfold media_group_body.
  do 5 counting_step.
  apply (counting_foldM _ _ _ (fun acc' n => snd acc' = n)); [ | exact Hacc].
  intros acc' i n2 Hinv. now apply imaging_session_body_counted.
Qed.

Lemma cutting_session_body_no_session_call (a : args) (specimen block : value)
    (acc : counters * list (value * string)) (j : Z) :
  run_post (cutting_session_body a specimen block acc j)
    (every (not_kind (KCreate imaging_session_r))).
Proof.
  unfold cutting_session_body, section_body, create_cutting_session, create_section,
    generate_jittered_roi, create_roi.
  quiet_kind.
Qed.

Lemma block_body_sessions_counted (a : args) (specimen : value) (acc : Z * Z)
    (block : value) (n1 : Z) :
  fst acc = n1 ->
  run_post (block_body a specimen acc block)
    (counting (KCreate imaging_session_r) n1 (fun t n => fst t = n)).
Proof.
  intros Hacc. unfold block_body. apply counting_bind_quiet.
  - apply every_foldM. intros acc' j _. apply cutting_session_body_no_session_call.
  - intros cr. eapply counting_bind.
    + apply (counting_foldM _ _ _ (fun acc' n => snd acc' = n)); [ | exact Hacc].
      intros acc' g n2 Hinv. now apply media_group_body_counted.
    + intros it n2 Hit. now apply counting_ret.
Qed.

(** *** Blocks *)

Lemma create_block_counted (specimen : value) (i n1 : Z) :
  run_post (create_block specimen i)
    (counting (KCreate block_r) n1 (fun _ n => n = n1 + 1)).
Proof. unfold create_block. repeat counting_step. now apply counting_ret. Qed.

Lemma block_body_no_block_call (a : args) (specimen : value) (acc : Z * Z)
    (block : value) :
  run_post (block_body a specimen acc block) (every (not_kind (KCreate block_r))).
Proof.
  unfold block_body, cutting_session_body, section_body, media_group_body,
    imaging_session_body, attach_roi, create_cutting_session, create_section,
    generate_jittered_roi, create_roi, create_imaging_session, create_acquisition,
    create_tiles, create_tile, generate_matcher_data, uniform_list,
    generate_focus_score, calculate_stage_position.
  quiet_kind.
Qed.

(** *** The walk *)

Lemma walk_figures (a : args) :
  run_post (walk a)
    (fun r ev =>
       r = Ok tt ->
       exists pre tiles_line,
         printed_of ev =
           pre ++ summary_header ::
           summary_figures (count_kind (KCreate block_r) (calls_of ev))
                           (count_kind (KCreate roi_r) (calls_of ev))
                           (count_kind (KCreate imaging_session_r) (calls_of ev))
           ++ [tiles_line]).
Proof.
  unfold walk. apply post_bind.
  eapply post_weaken.
  { apply (post_conj _ (every (not_kind (KCreate block_r)))
             (fun r ev => every (not_kind (KCreate roi_r)) r ev /\
                          every (not_kind (KCreate imaging_session_r)) r ev)).
    - unfold create_specimen. quiet_kind.
    - apply post_conj; unfold create_specimen; quiet_kind. }
  intros [specimen | e] ev1 (Hb1 & Hr1 & Hs1); [ | discriminate].
  apply not_kind_count in Hb1, Hr1, Hs1.
  apply post_bind. eapply post_weaken.
  { apply (post_conj _ (counting (KCreate block_r) 0 (fun bs n => n = 0 + len bs))
             (fun r ev => every (not_kind (KCreate roi_r)) r ev /\
                          every (not_kind (KCreate imaging_session_r)) r ev)).
    - unfold create_blocks. apply counting_mapM. intros i n1. apply create_block_counted.
    - apply post_conj; unfold create_blocks, create_block; quiet_kind. }
  intros [blocks | e] ev2 (Hb2 & Hr2 & Hs2); [ | discriminate].
  specialize (Hb2 blocks eq_refl). apply not_kind_count in Hr2, Hs2.
  apply post_bind. eapply post_weaken.
  { apply (post_conj _ (every (not_kind (KCreate block_r)))
             (fun r ev => counting (KCreate roi_r) 0 (fun t n => snd t = n) r ev /\
                          counting (KCreate imaging_session_r) 0
                                   (fun t n => fst t = n) r ev)).
    - apply every_foldM. intros acc b _. apply block_body_no_block_call.
    - apply post_conj.
      + apply (counting_foldM _ _ _ (fun t n => snd t = n)); [ | reflexivity].
        intros acc b n1 Hacc. now apply block_body_rois_counted.
      + apply (counting_foldM _ _ _ (fun t n => fst t = n)); [ | reflexivity].
        intros acc b n1 Hacc. now apply block_body_sessions_counted. }
  intros [totals | e] ev3 (Hb3 & Hr3 & Hs3); [ | discriminate].
  specialize (Hr3 totals eq_refl). specialize (Hs3 totals eq_refl).
  apply not_kind_count in Hb3. cbn beta in Hr3, Hs3.
  eapply post_weaken.
  { apply (post_conj _ (every (fun e => match e with Called _ _ => False | _ => True end))
             (fun r ev =>
                r = Ok tt ->
                exists tiles_line,
                  printed_of ev = summary_header ::
                    summary_figures (len blocks) (snd totals) (fst totals)
                    ++ [tiles_line])).
    - unfold summary. quiet_kind.
    - unfold summary. apply post_bind, post_print. apply post_bind, post_print.
      apply post_bind, post_print. apply post_bind, post_print.
      apply post_bind, post_lift.
      destruct (summary_tiles_per_acquisition a) as [t | e]; [ | discriminate].
      apply post_print. intros _. eexists. reflexivity. }
  intros r ev4 [Hq4 Hp4] Hr. destruct (Hp4 Hr) as [tiles_line Hlines].
  assert (Hc4 : calls_of ev4 = []).
  { clear - Hq4. induction Hq4 as [ | e ev He _ IH]; [reflexivity | ].
    destruct e; cbn; try exact IH. contradiction. }
  exists (printed_of (ev1 ++ ev2 ++ ev3)), tiles_line.
  rewrite !calls_of_app, !count_kind_app, Hc4, !count_kind_nil.
  rewrite Hb1, Hr1, Hs1, Hr2, Hs2, Hb3. cbn beta in Hb2.
  replace (0 + (count_kind (KCreate block_r) (calls_of ev2) + (0 + 0)))
    with (len blocks) by lia.
  replace (0 + (0 + (count_kind (KCreate roi_r) (calls_of ev3) + 0)))
    with (snd totals) by lia.
  replace (0 + (0 + (count_kind (KCreate imaging_session_r) (calls_of ev3) + 0)))
    with (fst totals) by lia.
  rewrite <- Hlines.
  rewrite !printed_of_app, <- !app_assoc. reflexivity.
Qed.

End Figures.


Lemma clean_forallb (ev : list event) :
  forallb (fun e => negb (raising e)) ev = true -> clean ev.
Proof.
  intros Hall. rewrite forallb_forall in Hall. apply Forall_forall.
  intros e He. specialize (Hall e He). now destruct (raising e).
Qed.

Lemma clean_not_raised (pre : list event) (c : call) (e : exn) (post_ : list event) :
  ~ clean (pre ++ [Called c (Raise e)] ++ post_).
Proof.
  intros Hc. apply Forall_app in Hc. destruct Hc as [_ Hc].
  inversion Hc as [ | ? ? Hx _]. discriminate Hx.
Qed.

(** When [generate_data] returns normally and no client call raised, the
    summary it has printed is exact in its first three figures: the
    numbers of blocks, ROIs and imaging sessions printed are the numbers
    of block, ROI and imaging-session creations the run made. *)
Theorem generate_data_summary_figures {R C : Type} `{Host R} `{Client C}
    (a : args) (s : R * C) :
  fst (fst (generate_data a s)) = Ok tt -> clean (snd (generate_data a s)) ->
  exists pre tiles_line,
    printed_of (snd (generate_data a s)) =
      pre ++ summary_header ::
      summary_figures
        (count_kind (KCreate block_r) (calls_of (snd (generate_data a s))))
        (count_kind (KCreate roi_r) (calls_of (snd (generate_data a s))))
        (count_kind (KCreate imaging_session_r) (calls_of (snd (generate_data a s))))
      ++ [tiles_line].
Proof.
  rewrite generate_data_calls.
  pose proof (walk_figures a s) as Hfig. pose proof (walk_escapes a s) as Hesc.
  unfold generate_data, try_except.
  destruct (walk a s) as [[r0 s0] ev0]. cbn [fst snd] in *.
  destruct r0 as [[] | e0]; [intros _ _; now apply Hfig | ].
  destruct (Hesc e0 eq_refl) as [Hb | (pre & c & ->)].
  - destruct e0; try contradiction Hb; discriminate.
  - destruct e0; cbn [fst snd]; try discriminate; intros _ Hc; exfalso;
      rewrite <- app_assoc in Hc; exact (clean_not_raised _ _ _ _ Hc).
Qed.

Lemma generate_data_summary_figures_witness :
  fst (fst (generate_data (with_volume (with_tile_size default_args 60000) 2 1 3 2)
              (0, 0))) = Ok tt /\
  clean (snd (generate_data (with_volume (with_tile_size default_args 60000) 2 1 3 2)
                (0, 0))) /\
  count_kind (KCreate roi_r)
    (calls_of (snd (generate_data (with_volume (with_tile_size default_args 60000)
                                     2 1 3 2) (0, 0)))) = 6 /\
  exists pre tiles_line,
    printed_of (snd (generate_data (with_volume (with_tile_size default_args 60000)
                                      2 1 3 2) (0, 0))) =
      pre ++ summary_header ::
      summary_figures
        (count_kind (KCreate block_r)
           (calls_of (snd (generate_data (with_volume (with_tile_size default_args 60000)
                                            2 1 3 2) (0, 0)))))
        (count_kind (KCreate roi_r)
           (calls_of (snd (generate_data (with_volume (with_tile_size default_args 60000)
                                            2 1 3 2) (0, 0)))))
        (count_kind (KCreate imaging_session_r)
           (calls_of (snd (generate_data (with_volume (with_tile_size default_args 60000)
                                            2 1 3 2) (0, 0)))))
      ++ [tiles_line].
Proof.
  assert (Hok : fst (fst (generate_data
                            (with_volume (with_tile_size default_args 60000) 2 1 3 2)
                            (0, 0))) = Ok tt) by (vm_compute; reflexivity).
  assert (Hclean : clean (snd (generate_data
                                 (with_volume (with_tile_size default_args 60000) 2 1 3 2)
                                 (0, 0)))).
  { apply clean_forallb. vm_compute. reflexivity. }
  split; [exact Hok | ]. split; [exact Hclean | ].
  split; [vm_compute; reflexivity | ].
  exact (generate_data_summary_figures (R := Z) (C := Z) _ _ Hok Hclean).
Defined.

(** ** How many records a run creates *)






(** ** A batch size of zero *)

Section ZeroBatch.
Context {R C : Type} `{Host R} `{Client C}.
Hypothesis client_ok : well_behaved_client.
Hypothesis host_ok : well_behaved_host.

Local Notation "'run_post'" := (post (R := R) (C := C)).




End ZeroBatch.




(** ** Imaging sessions per medium *)

Section Returns.
Context {R C : Type} `{Host R} `{Client C}.

Local Notation "'run_post'" := (post (R := R) (C := C)).






(** *** What the cutting phase collects *)






End Returns.

(** *** Grouping what the cutting phase collected *)







(** *** The media of a block are distinct *)




(** *** Counting the calls of the groups *)


Section Media.
Context {R C : Type} `{Host R} `{Client C}.
Hypothesis client_ok : well_behaved_client.
Hypothesis host_ok : well_behaved_host.

Local Notation "'run_post'" := (post (R := R) (C := C)).




End Media.



(** ** Numbering of imaging sessions *)

Lemma counter_get_set_other (m k : string) (v : Z) (d : counters) :
  m <> k -> counter_get m (counter_set k v d) = counter_get m d.
Proof.
  intros Hmk. apply String.eqb_neq in Hmk.
  induction d as [ | [k' v'] d IH]; cbn [counter_set counter_get].
  - now rewrite Hmk.
  - destruct (String.eqb k k') eqn:E; cbn [counter_get].
    + apply String.eqb_eq in E. subst k'. now rewrite Hmk.
    + now rewrite IH.
Qed.

Lemma all_zero_init (k : string) (d : counters) :
  all_zero d -> all_zero (counter_init k d).
Proof.
  intros Hd. unfold counter_init. destruct (counter_get k d) as [c | e]; [exact Hd | ].
  intros m c Hc. destruct (String.eqb m k) eqn:E.
  - apply String.eqb_eq in E. subst m. rewrite counter_get_set_same in Hc.
    now injection Hc as <-.
  - apply String.eqb_neq in E. rewrite counter_get_set_other in Hc by exact E.
    exact (Hd _ _ Hc).
Qed.

Lemma sessions_on_app (m : string) (ev1 ev2 : list event) :
  sessions_on m (ev1 ++ ev2) = sessions_on m ev1 + sessions_on m ev2.
Proof. unfold sessions_on, len. rewrite filter_app, length_app. lia. Qed.

Lemma sessions_on_quiet (m : string) (ev : list event) :
  Forall (not_kind (KCreate imaging_session_r)) ev -> sessions_on m ev = 0.
Proof.
  induction 1 as [ | e ev He _ IH]; [reflexivity | ].
  change (e :: ev) with ([e] ++ ev). rewrite sessions_on_app, IH.
  destruct e as [d v | [[] data | t tile | sid rid] r | line]; try reflexivity.
  cbn in He. discriminate He.
Qed.

Section Numbering.
Context {R C : Type} `{Host R} `{Client C}.
Variable specimen : value.

Local Notation "'run_post'" := (post (R := R) (C := C)).

Lemma numbered_app (pre ev1 ev2 : list event) :
  numbered specimen pre (ev1 ++ ev2) <->
  numbered specimen pre ev1 /\ numbered specimen (pre ++ ev1) ev2.
Proof.
  revert pre. induction ev1 as [ | e ev1 IH]; intros pre; cbn [List.app numbered].
  - rewrite app_nil_r. tauto.
  - rewrite IH, <- app_assoc. cbn [List.app]. tauto.
Qed.

Lemma numbered_quiet (pre ev : list event) :
  Forall (not_kind (KCreate imaging_session_r)) ev -> numbered specimen pre ev.
Proof.
  intros Hq. revert pre. induction Hq as [ | e ev He _ IH]; intros pre; [exact I | ].
  split; [ | apply IH].
  destruct e as [d v | [[] data | t tile | sid rid] r | line]; try exact I.
  cbn in He. discriminate He.
Qed.

Lemma nb_ret {A} (a : A) (pre : list event) (Q : A -> list event -> Prop) :
  Q a pre -> run_post (ret a) (numbering specimen pre Q).
Proof.
  intros HQ. apply post_ret. split; [exact I | ].
  intros a' E. injection E as <-. now rewrite app_nil_r.
Qed.

Lemma nb_bind {A B} (m : M R C A) (k : A -> M R C B) (pre : list event)
    (Q : A -> list event -> Prop) (Q' : B -> list event -> Prop) :
  run_post m (numbering specimen pre Q) ->
  (forall a pre', Q a pre' -> run_post (k a) (numbering specimen pre' Q')) ->
  run_post (bind m k) (numbering specimen pre Q').
Proof.
  intros Hm Hk. apply post_bind. eapply post_weaken; [exact Hm | ].
  intros [a | e] ev1 [Hn HQ].
  - eapply post_weaken; [exact (Hk a _ (HQ a eq_refl)) | ].
    intros r2 ev2 [Hn2 HQ2]. split.
    + apply numbered_app. now split.
    + intros b Hb. rewrite app_assoc. now apply HQ2.
  - split; [exact Hn | discriminate].
Qed.

Lemma nb_bind_quiet {A B} (m : M R C A) (k : A -> M R C B) (pre : list event)
    (Q : B -> list event -> Prop) :
  run_post m (every (not_kind (KCreate imaging_session_r))) ->
  (forall a pre', (forall x, sessions_on x pre' = sessions_on x pre) ->
                  run_post (k a) (numbering specimen pre' Q)) ->
  run_post (bind m k) (numbering specimen pre Q).
Proof.
  intros Hm Hk. apply post_bind. eapply post_weaken; [exact Hm | ].
  intros [a | e] ev1 H1; unfold every in H1.
  - eapply post_weaken.
    + apply (Hk a (pre ++ ev1)). intros x.
      rewrite sessions_on_app, (sessions_on_quiet x ev1 H1). lia.
    + intros r2 ev2 [Hn2 HQ2]. split.
      * apply numbered_app. split; [now apply numbered_quiet | exact Hn2].
      * intros b Hb. rewrite app_assoc. now apply HQ2.
  - split; [now apply numbered_quiet | discriminate].
Qed.

Lemma nb_bind_lift {A B} (r : result A) (k : A -> M R C B) (pre : list event)
    (Q : B -> list event -> Prop) :
  (forall a, r = Ok a -> run_post (k a) (numbering specimen pre Q)) ->
  run_post (bind (lift r) k) (numbering specimen pre Q).
Proof.
  intros Hk. apply post_bind, post_lift. destruct r as [a | e].
  - eapply post_weaken; [exact (Hk a eq_refl) | ]. now intros r2 ev2 H2.
  - split; [exact I | discriminate].
Qed.

Lemma nb_bind_request {B} (c : call) (k : value -> M R C B) (pre : list event)
    (Q : B -> list event -> Prop) :
  (forall r, session_ok specimen pre (Called c r)) ->
  (forall v, run_post (k v) (numbering specimen (pre ++ [Called c (Ok v)]) Q)) ->
  run_post (bind (request c) k) (numbering specimen pre Q).
Proof.
  intros Hc Hk. apply post_bind, post_request. intros [v | e].
  - eapply post_weaken; [exact (Hk v) | ].
    intros r2 ev2 [Hn2 HQ2]. split.
    + cbn [List.app numbered]. split; [apply Hc | exact Hn2].
    + intros b Hb. cbn [List.app]. specialize (HQ2 b Hb).
      now rewrite <- app_assoc in HQ2.
  - split; [ | discriminate]. cbn [numbered]. split; [apply Hc | exact I].
Qed.

Lemma nb_foldM {A S} (body : S -> A -> M R C S) (l : list A)
    (Inv : S -> list event -> Prop) :
  (forall acc x pre, Inv acc pre -> run_post (body acc x) (numbering specimen pre Inv)) ->
  forall acc pre, Inv acc pre -> run_post (foldM body l acc) (numbering specimen pre Inv).
Proof.
  intros Hbody. induction l as [ | x l IH]; intros acc pre Hinv; cbn [foldM].
  - now apply nb_ret.
  - eapply nb_bind; [now apply Hbody | ]. intros acc' pre' Hinv'. now apply IH.
Qed.

Lemma create_imaging_session_numbered (block : value) (m : string) (n : Z)
    (pre : list event) :
  n = sessions_on m pre + 1 ->
  run_post (create_imaging_session specimen block m n)
    (numbering specimen pre
       (fun _ pre' => forall x,
            sessions_on x pre' = sessions_on x pre + (if String.eqb m x then 1 else 0))).
Proof.
  intros Hn. unfold create_imaging_session.
  apply nb_bind_quiet; [apply every_now; intros t; exact I | intros t pre1 H1].
  apply nb_bind_quiet; [apply every_choices; intros t'; exact I | intros rnd pre2 H2].
  apply nb_bind_lift. intros sp Hsp.
  apply nb_bind_quiet; [apply every_print; exact I | intros _ pre3 H3].
  apply nb_bind_lift. intros sp' _.
  apply nb_bind_lift. intros bl _.
  apply nb_bind_quiet; [apply every_now; intros t2; exact I | intros t' pre4 H4].
  apply nb_bind_request.
  - intros r. exists m. split; [reflexivity | ].
    rewrite H4, H3, H2, H1, <- Hn. exists sp, (strftime "%Y%m%d_%H%M%S_%f" t), rnd.
    split; [exact Hsp | reflexivity].
  - intros session. apply nb_bind_lift. intros sid _.
    apply nb_bind_quiet; [apply every_print; exact I | intros _ pre5 H5].
    apply nb_ret. intros x. rewrite H5, sessions_on_app, H4, H3, H2, H1.
    f_equal. unfold sessions_on. cbn. now destruct (String.eqb m x).
Qed.

Lemma attach_roi_quiet (a : args) (session : value) (m : string) (u : unit)
    (roi : value) :
  run_post (attach_roi a session m u roi) (every (not_kind (KCreate imaging_session_r))).
Proof.
  unfold attach_roi, create_acquisition, create_tiles, create_tile,
    generate_matcher_data, uniform_list, generate_focus_score,
    calculate_stage_position.
  quiet_kind.
Qed.

Lemma imaging_session_body_numbered (a : args) (block : value) (m : string)
    (rois : list value) (acc : counters * Z) (i : Z) (pre : list event) :
  counts_match (fst acc) pre ->
  run_post (imaging_session_body a specimen block m rois acc i)
    (numbering specimen pre (fun acc' pre' => counts_match (fst acc') pre')).
Proof.
  intros Hinv. unfold imaging_session_body.
  apply nb_bind_lift. intros c Hc. cbn zeta.
  rewrite counter_get_set_same.
  apply nb_bind_lift. intros c1 E1. injection E1 as <-.
  apply nb_bind_quiet; [apply every_print; exact I | intros _ pre1 H1].
  apply nb_bind_lift. intros c2 E2. injection E2 as <-.
  eapply nb_bind.
  - apply create_imaging_session_numbered. rewrite H1. now rewrite (Hinv _ _ Hc).
  - intros session pre2 H2. cbn beta in H2.
    apply nb_bind_quiet.
    + apply every_foldM. intros u roi _. apply attach_roi_quiet.
    + intros _ pre3 H3. apply nb_ret. cbn [fst]. intros x c' Hc'.
      rewrite H3, H2, H1. destruct (String.eqb m x) eqn:E.
      * apply String.eqb_eq in E. subst x. rewrite counter_get_set_same in Hc'.
        injection Hc' as <-. rewrite (Hinv _ _ Hc). reflexivity.
      * apply String.eqb_neq in E.
        rewrite counter_get_set_other in Hc' by (intros ->; now apply E).
        rewrite (Hinv _ _ Hc'). lia.
Qed.

Lemma media_group_body_numbered (a : args) (block : value) (acc : counters * Z)
    (g : string * list value) (pre : list event) :
  counts_match (fst acc) pre ->
  run_post (media_group_body a specimen block acc g)
    (numbering specimen pre (fun acc' pre' => counts_match (fst acc') pre')).
Proof.
  intros Hinv. unfold media_group_body.
  apply nb_bind_lift. intros num _.
  apply nb_bind_lift. intros bid _.
  assert (Hsame : forall pre', (forall x, sessions_on x pre' = sessions_on x pre) ->
                               counts_match (fst acc) pre').
  { intros pre' Hp x c Hc. rewrite Hp. exact (Hinv _ _ Hc). }
  apply nb_bind_quiet; [apply every_print; exact I | intros _ pre1 H1].
  apply nb_bind_quiet; [apply every_print; exact I | intros _ pre2 H2].
  apply nb_bind_quiet; [apply every_print; exact I | intros _ pre3 H3].
  apply (nb_foldM _ _ (fun acc' pre' => counts_match (fst acc') pre')).
  - intros acc' i pre' Hinv'. now apply imaging_session_body_numbered.
  - apply Hsame. intros x. now rewrite H3, H2, H1.
Qed.

Lemma cutting_session_body_all_zero (a : args) (block : value)
    (acc : counters * list (value * string)) (j n1 : Z) :
  all_zero (fst acc) ->
  run_post (cutting_session_body a specimen block acc j)
    (counting (KCreate imaging_session_r) n1 (fun acc' _ => all_zero (fst acc'))).
Proof.
  intros Hinv. unfold cutting_session_body.
  apply counting_bind_quiet; [unfold create_cutting_session; quiet_kind | intros cm].
  do 4 counting_step.
  apply counting_bind_quiet.
  - apply every_foldM. intros brs k _.
    unfold section_body, create_section, generate_jittered_roi, create_roi. quiet_kind.
  - intros brs. apply counting_ret. cbn [fst]. now apply all_zero_init.
Qed.

Lemma block_body_numbered (a : args) (acc : Z * Z) (block : value) :
  run_post (block_body a specimen acc block) (fun _ ev => numbered specimen [] ev).
Proof.
  unfold block_body. apply post_bind. eapply post_weaken.
  { apply (post_conj _ (every (not_kind (KCreate imaging_session_r)))
             (counting (KCreate imaging_session_r) 0
                       (fun acc' _ => all_zero (fst acc')))).
    - apply every_foldM. intros acc' j _. apply cutting_session_body_no_session_call.
    - apply (counting_foldM _ _ _ (fun acc' _ => all_zero (fst acc'))).
      + intros acc' j n1 Hinv. now apply cutting_session_body_all_zero.
      + intros m c Hc. discriminate Hc. }
  intros [cr | e] ev1 [Hq Hz]; unfold every in Hq.
  - specialize (Hz cr eq_refl). cbn beta in Hz.
    apply post_bind. eapply post_weaken.
    { apply (nb_foldM (media_group_body a specimen block) _
               (fun acc' pre' => counts_match (fst acc') pre')
               (fun acc' g pre' Hinv =>
                  media_group_body_numbered a block acc' g pre' Hinv)
               (fst cr, fst acc) ev1).
      cbn [fst]. intros m c Hc. rewrite (Hz _ _ Hc). symmetry.
      now apply sessions_on_quiet. }
    assert (Hall : forall ev2, numbered specimen ev1 ev2 ->
                               numbered specimen [] (ev1 ++ ev2)).
    { intros ev2 Hn. apply numbered_app. split; [now apply numbered_quiet | exact Hn]. }
    intros [it | e] ev2 [Hn _].
    + apply post_ret. rewrite app_nil_r. now apply Hall.
    + now apply Hall.
  - now apply numbered_quiet.
Qed.

End Numbering.

(** Within one block the imaging sessions are numbered per medium through
    [session_counters]: whatever the client answers, the session id of
    each imaging session the block creates carries one more than the number
    of imaging sessions created earlier in the block with the same media
    id. *)
Theorem block_body_session_numbers {R C : Type} `{Host R} `{Client C}
    (a : args) (specimen : value) (acc : Z * Z) (block : value) (s : R * C)
    (p1 p2 : list event) (data : record) (resp : result value) :
  snd (block_body a specimen acc block s)
    = p1 ++ Called (Create imaging_session_r data) resp :: p2 ->
  exists m,
    lookup "media_id" data = Some (VStr m) /\
    session_number_is specimen (sessions_on m p1 + 1) data.
Proof.
  intros E. pose proof (block_body_numbered specimen a acc block s) as Hn.
  cbn beta in Hn. rewrite E in Hn.
  apply numbered_app in Hn. destruct Hn as [_ Hn]. cbn [numbered List.app] in Hn.
  exact (proj1 Hn).
Qed.


Lemma block_body_session_numbers_witness :
  exists p1 data resp p2,
    snd (block_body (with_tile_size (with_volume default_args 1 1 2 1) 60000)
                    specimen_0 (0, 0) block_1 (0, 0))
      = p1 ++ Called (Create imaging_session_r data) resp :: p2 /\
    sessions_on "TAPEBLK0011" p1 = 1 /\
    exists m,
      lookup "media_id" data = Some (VStr m) /\
      session_number_is (R := Z) specimen_0 (sessions_on m p1 + 1) data.
Proof.
  pose (ev := snd (block_body (with_tile_size (with_volume default_args 1 1 2 1) 60000)
                              specimen_0 (0, 0) block_1 (0, 0))).
  assert (E : exists data resp,
             nth_error ev 146 = Some (Called (Create imaging_session_r data) resp)).
  { vm_compute. eexists _, _. reflexivity. }
  destruct E as (data & resp & E).
  destruct (nth_error_split _ _ E) as (p1 & p2 & Esplit & Hlen).
  exists p1, data, resp, p2. split; [exact Esplit | ].
  split.
  - assert (Hp1 : p1 = firstn 146 ev).
    { rewrite Esplit, <- Hlen, firstn_app, Nat.sub_diag, firstn_all. cbn [firstn].
      now rewrite app_nil_r. }
    rewrite Hp1. vm_compute. reflexivity.
  - exact (block_body_session_numbers (R := Z) (C := Z) _ _ _ _ _ _ _ _ _ Esplit).
Defined.
